(** * Message delivery-status pipeline of the chat backend

    A shallow embedding of the chat server with delivery tracking
    (src/server.js, lines 383-1165), of the Mongoose models it uses
    (Message and Chat, src/unnamed/part_000 and part_001) and of the
    earlier [send_message] handler kept in src/routes/auth.js
    (lines 1562-1642), followed by the properties of the delivery-status
    pipeline.  The friend routes of src/routes/auth.js (lines 774-1222)
    with the Friend model (src/unnamed/part_002), and the format checks
    of the registration routes (lines 13-16, 139-140), are embedded in
    sections of their own.

    Conventions.
    - A MongoDB collection is the list of its documents in insertion
      order; the [_id] of a document is its position where documents are
      never deleted (messages, chats, friendships), and a stored field
      where they are (friend requests).
    - Dates are milliseconds since the epoch, in [Z].
    - A JavaScript string that the program inspects ([content]) is the
      list of its UTF-16 code units; identifiers are strings that stand
      for ObjectIds, and a string of a request body that is no ObjectId
      fails the cast of the first query that uses it.
    - Every handler receives the readings of the clock it takes, in
      program order, as a function [clk : nat -> Z].
    - A handler run is a sequence of database operations separated by
      awaits.  The transition system [step] takes whole runs as atomic;
      [send_message] and [Chat.findOrCreateChat] are also given cut at
      their awaits, to follow runs that overlap. *)

From Stdlib Require Import ZArith NArith Lia.
From stdpp Require Import base decidable option list gmap strings sorting.

Open Scope Z_scope.

(** ** JavaScript strings and [String.prototype.trim] *)

Definition jsstring := list N.

(** ECMAScript WhiteSpace and LineTerminator code points, the set that
    [trim] strips. *)
Definition isWhiteSpace (c : N) : bool :=
  bool_decide (c ∈ [9; 10; 11; 12; 13; 32; 160; 5760; 8232; 8233; 8239;
                    8287; 12288; 65279]%N)
  || ((8192 <=? c)%N && (c <=? 8202)%N).

Fixpoint trimStart (s : jsstring) : jsstring :=
  match s with
  | c :: s' => if isWhiteSpace c then trimStart s' else s
  | [] => []
  end.

Definition trimEnd (s : jsstring) : jsstring :=
  reverse (trimStart (reverse s)).

Definition trim (s : jsstring) : jsstring := trimEnd (trimStart s).

(** Code units of an ASCII literal, for readable examples. *)
Fixpoint lit (s : string) : jsstring :=
  match s with
  | EmptyString => []
  | String a s' => Ascii.N_of_ascii a :: lit s'
  end.

(** [!x] for a request field that is absent or a string. *)
Definition falsy {A} (x : option (list A)) : bool :=
  match x with
  | None | Some [] => true
  | Some (_ :: _) => false
  end.

Definition falsyId (x : option string) : bool :=
  match x with
  | None | Some EmptyString => true
  | Some (String _ _) => false
  end.

(** The string form of an ObjectId: 24 hexadecimal digits. *)
Definition isHexDigit (a : Ascii.ascii) : bool :=
  let n := Ascii.N_of_ascii a in
  ((48 <=? n) && (n <=? 57) || (97 <=? n) && (n <=? 102)
   || (65 <=? n) && (n <=? 70))%N.

Fixpoint allHex (s : string) : bool :=
  match s with
  | EmptyString => true
  | String a s' => isHexDigit a && allHex s'
  end.

Definition isObjectId (s : string) : bool :=
  (String.length s =? 24)%nat && allHex s.

(** ** Models (src/unnamed/part_000, part_001) *)

Inductive Status := sent | delivered | read.

#[global] Instance Status_eq_dec : EqDecision Status.
Proof. solve_decision. Defined.

(** The order of the enum ["sent", "delivered", "read"]. *)
Definition rank (s : Status) : nat :=
  match s with sent => 0 | delivered => 1 | read => 2 end%nat.

Record Message := mkMessage {
  chatId : nat;
  sender : string;
  receiver : string;
  content : jsstring;
  timestamp : Z;
  status : Status;
  deliveredAt : option Z;
  readAt : option Z
}.

Record Chat := mkChat {
  participants : list string;
  createdAt : Z;
  updatedAt : Z
}.

(** ** Collection operations (Mongoose queries used by the handlers) *)

(** [Model.findOne(filter)]: the first matching document, with its id. *)
Definition findOne {A} (f : A -> bool) (coll : list A) : option (nat * A) :=
  list_find (λ x, Is_true (f x)) coll.

(** [Model.find(filter)]: the matching documents, with their ids. *)
Definition find {A} (f : A -> bool) (coll : list A) : list (nat * A) :=
  List.filter (λ p, f p.2) (imap (λ i x, (i, x)) coll).

(** [Model.updateMany(filter, update)]: the collection after the update
    and [modifiedCount].  Every update the handlers pass changes the
    [status] that its filter tests, so a matched document is a modified
    one. *)
Definition updateMany {A} (f : A -> bool) (upd : A -> A) (coll : list A)
  : list A * nat :=
  (map (λ x, if f x then upd x else x) coll,
   length (List.filter f coll)).

(** [Model.findByIdAndUpdate(id, update)]. *)
Definition findByIdAndUpdate {A} (id : nat) (upd : A -> A) (coll : list A)
  : list A :=
  alter upd id coll.

(** [Model.findOneAndUpdate({_id: id, ...filter}, update, {new: true})]:
    the collection and the updated document, if one matched. *)
Definition findOneAndUpdate {A} (id : nat) (f : A -> bool) (upd : A -> A)
    (coll : list A) : list A * option A :=
  match coll !! id with
  | Some x => if f x then (alter upd id coll, Some (upd x)) else (coll, None)
  | None => (coll, None)
  end.

(** ** Chat.findOrCreateChat (src/unnamed/part_001, lines 29-44) *)

(** [{ participants: { $all: [user1Id, user2Id], $size: 2 } }] *)
Definition pairFilter (user1Id user2Id : string) (c : Chat) : bool :=
  bool_decide (user1Id ∈ participants c)
  && bool_decide (user2Id ∈ participants c)
  && bool_decide (length (participants c) = 2%nat).

(** [new this({participants: [user1Id, user2Id]})]; [createdAt] defaults to
    the clock and the pre-save hook stamps [updatedAt]. *)
Definition newChat (now : Z) (user1Id user2Id : string) : Chat :=
  {| participants := [user1Id; user2Id]; createdAt := now; updatedAt := now |}.

Definition findOrCreateChat (now : Z) (user1Id user2Id : string)
    (coll : list Chat) : list Chat * nat :=
  match findOne (pairFilter user1Id user2Id) coll with
  | Some (i, _) => (coll, i)
  | None => (coll ++ [newChat now user1Id user2Id], length coll)
  end.

(** The same method cut at its two awaits: [findOne] and [save] are each
    one atomic database operation, and calls in flight interleave between
    them. *)
Inductive ChatCall :=
  | AtFind (now : Z) (user1Id user2Id : string)
  | AtSave (c : Chat)
  | Resolved (id : nat).

Definition chatStep (t : ChatCall) (coll : list Chat) : list Chat * ChatCall :=
  match t with
  | AtFind now u1 u2 =>
      match findOne (pairFilter u1 u2) coll with
      | Some (i, _) => (coll, Resolved i)
      | None => (coll, AtSave (newChat now u1 u2))
      end
  | AtSave c => (coll ++ [c], Resolved (length coll))
  | Resolved i => (coll, t)
  end.

(** A schedule names, step by step, the call that runs next. *)
Fixpoint runSchedule (sched : list nat) (calls : list ChatCall)
    (coll : list Chat) : list Chat * list ChatCall :=
  match sched with
  | [] => (coll, calls)
  | k :: sched' =>
      match calls !! k with
      | Some t =>
          let '(coll', t') := chatStep t coll in
          runSchedule sched' (<[k := t']> calls) coll'
      | None => runSchedule sched' calls coll
      end
  end.

(** The records of the unordered pair {a, b}. *)
Definition isPair (a b : string) (c : Chat) : Prop :=
  participants c = [a; b] ∨ participants c = [b; a].

#[global] Instance isPair_dec a b c : Decision (isPair a b c).
Proof. unfold isPair. apply _. Defined.

Definition pairRecords (a b : string) (coll : list Chat) : list Chat :=
  filter (isPair a b) coll.

Definition uniquePairs (coll : list Chat) : Prop :=
  ∀ a b, (length (pairRecords a b coll) ≤ 1)%nat.

(** ** Server state (src/server.js, lines 383-1165) *)

(** A connected socket: [socket.id], [socket.userId] and
    [socket.userInfo.fullName], the last two set by the authentication
    middleware (lines 747-781). *)
Record Socket := mkSocket {
  sid : nat;
  userId : string;
  fullName : string
}.

Record Server := mkServer {
  users : gmap string string;
  chats : list Chat;
  messages : list Message;
  sockets : list Socket;
  nextSid : nat;
  onlineUsers : option (gset string);
  readRouteMounted : bool
}.
(** [users]: Modelled from the spec: the Account Directory (models/User is
    not among the sources), as the map from account id to display name.
    [sockets] is [io.sockets.sockets] in connection order, [nextSid] the
    next fresh socket id, [onlineUsers] is [global.onlineUsers] ([None]
    while undefined).  [readRouteMounted]: the route
    POST /api/messages/read is registered inside the connection callback
    (line 1052), so it exists once a first socket has connected. *)

Definition initial (accounts : gmap string string) : Server :=
  mkServer accounts [] [] [] 0 None false.

Definition setUsers (u : gmap string string) (st : Server) : Server :=
  mkServer u (chats st) (messages st) (sockets st) (nextSid st)
           (onlineUsers st) (readRouteMounted st).

Definition setChats (c : list Chat) (st : Server) : Server :=
  mkServer (users st) c (messages st) (sockets st) (nextSid st)
           (onlineUsers st) (readRouteMounted st).

Definition setMessages (m : list Message) (st : Server) : Server :=
  mkServer (users st) (chats st) m (sockets st) (nextSid st)
           (onlineUsers st) (readRouteMounted st).

Definition setSockets (s : list Socket) (st : Server) : Server :=
  mkServer (users st) (chats st) (messages st) s (nextSid st)
           (onlineUsers st) (readRouteMounted st).

Definition setOnlineUsers (o : option (gset string)) (st : Server) : Server :=
  mkServer (users st) (chats st) (messages st) (sockets st) (nextSid st)
           o (readRouteMounted st).

(** Every id is an ObjectId.  The model writes ids as strings and leaves
    the spelling of the ids that the server already holds free (the
    accounts, the participants of the stored conversations, the users of
    the connected sockets): ["alice"] stands for the ObjectId of an
    account.  Any other string that a request body gives for an id is an
    ObjectId only in the form that Mongoose casts, 24 hexadecimal digits;
    a string that is no ObjectId makes the first query that uses it throw
    a CastError (the paths are ObjectIds: part_000, lines 40-54;
    part_001, lines 4-8). *)
Definition held (st : Server) (id : string) : bool :=
  bool_decide (is_Some (users st !! id))
  || existsb (λ c, bool_decide (id ∈ participants c)) (chats st)
  || existsb (λ s, String.eqb (userId s) id) (sockets st).

Definition castable (st : Server) (id : string) : bool :=
  held st id || isObjectId id.

(** What a handler run takes from outside: the clock readings in program
    order, and whether the store is reachable during the run (when it is
    not, the first awaited query rejects). *)
Record Env := mkEnv {
  clk : nat -> Z;
  storeUp : bool
}.

Definition monotone (c : nat -> Z) : Prop :=
  ∀ i j, (i ≤ j)%nat → c i ≤ c j.

(** The bearer token of a request or handshake: absent, rejected by
    [jwt.verify], or carrying [decoded.userId]. *)
Inductive Credential := NoToken | BadToken | Token (uid : string).

Record Formatted := mkFormatted {
  f_id : nat;
  f_content : jsstring;
  f_senderId : string;
  f_senderName : string;
  f_timestamp : Z;
  f_isMe : bool;
  f_isRead : bool;
  f_readAt : option Z
}.

(** The replies of POST /api/chats/create and GET /api/chats.  Of an
    account only the id and the display name are modelled, so the
    participant objects of the replies carry these two. *)

Record ChatInfo := mkChatInfo {
  ci_id : nat;
  ci_participantId : string;
  ci_participantName : string;
  ci_createdAt : option Z;
  ci_updatedAt : option Z
}.

Record LastMessage := mkLastMessage {
  lm_content : jsstring;
  lm_timestamp : Z;
  lm_senderId : string;
  lm_senderName : string
}.

Record ChatSummary := mkChatSummary {
  cs_id : nat;
  cs_participant : option (string * string);
  cs_lastMessage : option LastMessage;
  cs_updatedAt : Z
}.

Inductive ChatsReply :=
  | chatsFailure (code : nat)
  | chatOk (info : ChatInfo)
  | chatsOk (list : list ChatSummary).

Inductive Response :=
  | failure (code : nat)
  | sendOk (messageId chat : nat)
  | deliveredOk (messageId : nat)
  | deliveredAlready (messageId : nat) (currentStatus : Status)
  | readOk (deliveredCount readCount totalCount : nat)
  | messagesOk (msgs : list Formatted)
  | statusOk (uid : string) (online : bool)
  | chatsReply (r : ChatsReply)
  | profileOk (uid : string) (fullName : string).

(** What a handler sends: an event emitted to the socket [to], a
    broadcast ([io.emit]), or the reply to an HTTP request. *)
Inductive Event :=
  | message_sent (to : nat) (messageId chat : nat) (text : jsstring) (ts : Z)
  | message_sent_failed (to : nat)
  | chat_updated (to : nat) (chat : nat) (senderId senderName : string)
      (lastMessage : jsstring) (ts : Z)
  | new_message (to : nat) (id : nat) (text : jsstring)
      (senderId senderName : string) (ts : Z) (chat : nat)
      (receiverId : string) (st : Status)
  | message_delivered (to : nat) (messageId : nat) (at_ : Z)
  | message_read (to : nat) (chat : nat) (readerId : string)
      (readerName : option string) (ts : Z) (messageCount : nat)
  | user_online (uid : string) (ts : Z)
  | user_offline (uid : string) (ts : Z)
  | reply (r : Response).

(** [new Message({chatId, sender, receiver, content, status: 'sent'})] with
    the schema defaults (part_000, lines 59-77). *)
Definition newMessage (chat : nat) (from to : string) (text : jsstring)
    (now : Z) : Message :=
  {| chatId := chat; sender := from; receiver := to; content := text;
     timestamp := now; status := sent; deliveredAt := None; readAt := None |}.

(** [message.save()]: schema validation, then insertion.  [content] is a
    required String, which Mongoose rejects when empty; the other required
    paths are always given. *)
Definition save (m : Message) (coll : list Message)
  : option (list Message * nat) :=
  if bool_decide (content m = []) then None
  else Some (coll ++ [m], length coll).

(** The update documents [{status: 'delivered', deliveredAt: new Date()}]
    and [{status: 'read', readAt: new Date()}]. *)
Definition markDelivered (now : Z) (m : Message) : Message :=
  {| chatId := chatId m; sender := sender m; receiver := receiver m;
     content := content m; timestamp := timestamp m;
     status := delivered; deliveredAt := Some now; readAt := readAt m |}.

Definition markRead (now : Z) (m : Message) : Message :=
  {| chatId := chatId m; sender := sender m; receiver := receiver m;
     content := content m; timestamp := timestamp m;
     status := read; deliveredAt := deliveredAt m; readAt := Some now |}.

(** [Array.from(io.sockets.sockets.values()).find(s => s.userId === id)] *)
Definition socketOf (id : string) (st : Server) : option Socket :=
  List.find (λ s, String.eqb (userId s) id) (sockets st).

(** ** POST /api/messages/send (lines 416-463; the same text at lines 35-82
    and in src/routes/auth.js, lines 1258-1305) *)

Definition http_send (env : Env) (cred : Credential)
    (receiverId : option string) (text : option jsstring) (st : Server)
  : Server * list Event :=
  match cred with
  | NoToken => (st, [reply (failure 401)])
  | BadToken => (st, [reply (failure 500)])
  | Token senderId =>
      if falsyId receiverId || falsy text then (st, [reply (failure 400)])
      else if negb (storeUp env) then (st, [reply (failure 500)])
      else
        let rid := default EmptyString receiverId in
        if negb (castable st rid) then (st, [reply (failure 500)])
        else
        let '(chats', chat) :=
          findOrCreateChat (clk env 0) senderId rid (chats st) in
        match save (newMessage chat senderId rid (trim (default [] text))
                      (clk env 1)) (messages st) with
        | None => (setChats chats' st, [reply (failure 500)])
        | Some (msgs', id) =>
            (setMessages msgs' (setChats chats' st), [reply (sendOk id chat)])
        end
  end.

(** ** socket.on('send_message') (lines 845-953) *)

(** The in-memory document of a handler run that has saved its message
    and is awaiting [message.populate] (line 872). *)
Record Pending := mkPending {
  p_id : nat;
  p_doc : Message
}.

(** Lines 846-869: validation, conversation, save. *)
Definition send_message_persist (env : Env) (sock : Socket)
    (receiverId : option string) (text : option jsstring) (st : Server)
  : Server * list Event * option Pending :=
  if falsyId receiverId || falsy text then (st, [], None)
  else if negb (storeUp env) then (st, [message_sent_failed (sid sock)], None)
  else
    let rid := default EmptyString receiverId in
    if negb (castable st rid) then (st, [message_sent_failed (sid sock)], None)
    else
    let '(chats', chat) :=
      findOrCreateChat (clk env 0) (userId sock) rid (chats st) in
    let m := newMessage chat (userId sock) rid (trim (default [] text))
               (clk env 1) in
    match save m (messages st) with
    | None => (setChats chats' st, [message_sent_failed (sid sock)], None)
    | Some (msgs', id) =>
        (setMessages msgs' (setChats chats' st), [], Some (mkPending id m))
    end.

(** Lines 872-944: acknowledgment, push to the receiver's socket and the
    delivered update. *)
Definition send_message_deliver (env : Env) (sock : Socket) (p : Pending)
    (st : Server) : Server * list Event :=
  if negb (storeUp env) then (st, [message_sent_failed (sid sock)])
  else
    let m := p_doc p in
    let ack :=
      message_sent (sid sock) (p_id p) (chatId m) (content m) (timestamp m) in
    let upd :=
      chat_updated (sid sock) (chatId m) (userId sock) (fullName sock)
        (content m) (timestamp m) in
    match socketOf (receiver m) st with
    | Some receiverSocket =>
        (setMessages
           (findByIdAndUpdate (p_id p) (markDelivered (clk env 2))
              (messages st)) st,
         [ack; upd;
          new_message (sid receiverSocket) (p_id p) (content m) (userId sock)
            (fullName sock) (timestamp m) (chatId m) (receiver m) sent;
          message_delivered (sid sock) (p_id p) (clk env 3);
          ack])
    | None => (st, [ack; upd; ack])
    end.

(** A run of the handler that nothing interleaves with. *)
Definition send_message (env : Env) (sock : Socket)
    (receiverId : option string) (text : option jsstring) (st : Server)
  : Server * list Event :=
  let '(st1, ev1, pending) :=
    send_message_persist env sock receiverId text st in
  match pending with
  | Some p =>
      let '(st2, ev2) := send_message_deliver env sock p st1 in
      (st2, ev1 ++ ev2)
  | None => (st1, ev1)
  end.

(** ** POST /api/messages/:id/delivered (lines 466-536) *)

Definition http_delivered (env : Env) (cred : Credential) (messageId : nat)
    (st : Server) : Server * list Event :=
  match cred with
  | NoToken => (st, [reply (failure 401)])
  | BadToken => (st, [reply (failure 500)])
  | Token _ =>
      if negb (storeUp env) then (st, [reply (failure 500)])
      else
        match findOneAndUpdate messageId
                (λ m, bool_decide (status m = sent))
                (markDelivered (clk env 0)) (messages st) with
        | (msgs', Some updatedMessage) =>
            (setMessages msgs' st,
             match socketOf (sender updatedMessage) st with
             | Some senderSocket =>
                 [message_delivered (sid senderSocket) messageId (clk env 0)]
             | None => []
             end ++ [reply (deliveredOk messageId)])
        | (_, None) =>
            match messages st !! messageId with
            | None => (st, [reply (failure 404)])
            | Some existingMessage =>
                (st, [reply (deliveredAlready messageId
                               (status existingMessage))])
            end
        end
  end.

(** ** Read reconciliation *)

(** [{chatId: chatId, receiver: readerId, ...}] *)
Definition toReader (chat : nat) (readerId : string) (m : Message) : bool :=
  bool_decide (chatId m = chat) && String.eqb (receiver m) readerId.

Definition hasStatus (s : Status) (m : Message) : bool :=
  bool_decide (status m = s).

(** [timestamp: { $gte: new Date(now - 60000) }] *)
Definition recent (now : Z) (m : Message) : bool :=
  now - 60000 <=? timestamp m.

(** [deliveredAt: { $gte: new Date(now - 5000) }] *)
Definition justDelivered (now : Z) (m : Message) : bool :=
  match deliveredAt m with
  | Some d => now - 5000 <=? d
  | None => false
  end.

(** [[...new Set(l)]]: the distinct elements in order of first occurrence. *)
Definition setOf (l : list string) : list string :=
  fold_left (λ acc x, if bool_decide (x ∈ acc) then acc else acc ++ [x]) l [].

(** The orders of [.sort({ timestamp: -1 })] and [.sort({ timestamp: 1 })]. *)
Definition newerFirst (x y : nat * Message) : Prop :=
  timestamp y.2 ≤ timestamp x.2.

Definition olderFirst (x y : nat * Message) : Prop :=
  timestamp x.2 ≤ timestamp y.2.

#[global] Instance newerFirst_dec x y : Decision (newerFirst x y).
Proof. unfold newerFirst. apply _. Defined.

#[global] Instance olderFirst_dec x y : Decision (olderFirst x y).
Proof. unfold olderFirst. apply _. Defined.

(** The [message_read] event for one sender, if that sender has a socket
    (lines 1030-1044). *)
Definition notifySender (env : Env) (reader : Socket) (chat : nat)
    (updatedMessages : list (nat * Message)) (st : Server)
    (k : nat) (senderId : string) : list Event :=
  match socketOf senderId st with
  | Some senderSocket =>
      [message_read (sid senderSocket) chat (userId reader)
         (Some (fullName reader)) (clk env (6 + k))
         (length (List.filter (λ p, String.eqb (sender p.2) senderId)
                    updatedMessages))]
  | None => []
  end.

(** socket.on('message_read') (lines 956-1049).  Clock readings: 0 the
    first [readAt]; 1 the grace window of the [find]; 2 and 3 the grace
    window and the [deliveredAt] of the delivered update; 4 and 5 the
    five-second window and the [readAt] of the second read update; 6 and
    up the timestamps of the notifications. *)
Definition message_read_socket (env : Env) (sock : Socket) (chat : nat)
    (st : Server) : Server * list Event :=
  if negb (storeUp env) then (st, [])
  else
    let reader := userId sock in
    let '(msgs1, _) :=
      updateMany (λ m, toReader chat reader m && hasStatus delivered m)
        (markRead (clk env 0)) (messages st) in
    let recentSentMessages :=
      find (λ m, toReader chat reader m && hasStatus sent m
                 && recent (clk env 1) m) msgs1 in
    let msgs3 :=
      if (0 <? length recentSentMessages)%nat then
        let '(msgs2, _) :=
          updateMany (λ m, toReader chat reader m && hasStatus sent m
                           && recent (clk env 2) m)
            (markDelivered (clk env 3)) msgs1 in
        (updateMany (λ m, toReader chat reader m && hasStatus delivered m
                          && justDelivered (clk env 4) m)
           (markRead (clk env 5)) msgs2).1
      else msgs1 in
    let updatedMessages :=
      take 100 (merge_sort newerFirst
                  (find (λ m, toReader chat reader m && hasStatus read m)
                     msgs3)) in
    let senderIds := setOf (map (λ p, sender p.2) updatedMessages) in
    (setMessages msgs3 st,
     concat (imap (notifySender env sock chat updatedMessages st) senderIds)).

(** POST /api/messages/read (lines 1052-1135).  Clock readings: 0 the
    grace window, 1 [deliveredAt], 2 [readAt], 3 the notification. *)
Definition http_read (env : Env) (cred : Credential) (chat : nat)
    (st : Server) : Server * list Event :=
  if negb (readRouteMounted st) then (st, [reply (failure 404)])
  else
    match cred with
    | NoToken => (st, [reply (failure 401)])
    | BadToken => (st, [reply (failure 500)])
    | Token reader =>
        if negb (storeUp env) then (st, [reply (failure 500)])
        else
          let '(msgs1, deliveredCount) :=
            updateMany (λ m, toReader chat reader m && hasStatus sent m
                             && recent (clk env 0) m)
              (markDelivered (clk env 1)) (messages st) in
          let '(msgs2, readCount) :=
            updateMany (λ m, toReader chat reader m && hasStatus delivered m)
              (markRead (clk env 2)) msgs1 in
          let notification :=
            match chats st !! chat with
            | Some c =>
                match List.find (λ p, negb (String.eqb p reader))
                        (participants c) with
                | Some senderId =>
                    match socketOf senderId st with
                    | Some senderSocket =>
                        [message_read (sid senderSocket) chat reader None
                           (clk env 3) (readCount + deliveredCount)]
                    | None => []
                    end
                | None => []
                end
            | None => []
            end in
          (setMessages msgs2 st,
           notification
           ++ [reply (readOk deliveredCount readCount
                        (readCount + deliveredCount))])
    end.

(** ** GET /api/chats/:chatId/messages (lines 612-669) *)

(** One formatted message; [None] when the populated sender is null.
    [isRead] is not a path of the schema, so [message.isRead || false] is
    [false]. *)
Definition formatMessage (uid : string) (st : Server) (p : nat * Message)
  : option Formatted :=
  match users st !! sender p.2 with
  | Some name =>
      Some (mkFormatted p.1 (content p.2) (sender p.2) name (timestamp p.2)
              (String.eqb (sender p.2) uid) false (readAt p.2))
  | None => None
  end.

Definition get_messages (env : Env) (cred : Credential) (chat : nat)
    (st : Server) : list Event :=
  match cred with
  | NoToken => [reply (failure 401)]
  | BadToken => [reply (failure 500)]
  | Token uid =>
      if negb (storeUp env) then [reply (failure 500)]
      else
        match chats st !! chat with
        | Some c =>
            if bool_decide (uid ∈ participants c) then
              match mapM (formatMessage uid st)
                      (merge_sort olderFirst
                         (find (λ m, bool_decide (chatId m = chat))
                            (messages st))) with
              | Some formatted => [reply (messagesOk formatted)]
              | None => [reply (failure 500)]
              end
            else [reply (failure 403)]
        | None => [reply (failure 403)]
        end
  end.

(** ** Presence (lines 722-739, 783-836, 1137-1142) *)

Definition _updateUserOnlineStatus (env : Env) (uid : string) (st : Server)
  : Server * list Event :=
  (setOnlineUsers (Some (default ∅ (onlineUsers st) ∪ {[uid]})) st,
   [user_online uid (clk env 0)]).

Definition _updateUserOfflineStatus (env : Env) (uid : string) (st : Server)
  : Server * list Event :=
  (setOnlineUsers ((λ s : gset string, s ∖ {[uid]}) <$> onlineUsers st) st,
   [user_offline uid (clk env 0)]).

(** GET /api/users/:userId/status *)
Definition isOnline (uid : string) (st : Server) : bool :=
  match onlineUsers st with
  | Some s => bool_decide (uid ∈ s)
  | None => false
  end.

Definition get_user_status (uid : string) (st : Server) : list Event :=
  [reply (statusOk uid (isOnline uid st))].

(** A handshake that passes the authentication middleware adds a socket;
    the connection callback also mounts the read route and arms the
    one-second timer that calls [_updateUserOnlineStatus]. *)
Definition connect (cred : Credential) (st : Server) : Server :=
  match cred with
  | Token uid =>
      match users st !! uid with
      | Some name =>
          mkServer (users st) (chats st) (messages st)
            (sockets st ++ [mkSocket (nextSid st) uid name])
            (S (nextSid st)) (onlineUsers st) true
      | None => st
      end
  | _ => st
  end.

Definition socketById (s : nat) (st : Server) : option Socket :=
  List.find (λ x, sid x =? s)%nat (sockets st).

(** socket.on('disconnect'): the transport has dropped the socket from its
    table when the handler runs. *)
Definition disconnect (env : Env) (s : nat) (st : Server)
  : Server * list Event :=
  match socketById s st with
  | Some sock =>
      _updateUserOfflineStatus env (userId sock)
        (setSockets (List.filter (λ x, negb (sid x =? s)%nat) (sockets st)) st)
  | None => (st, [])
  end.

(** ** POST /api/chats/create (lines 672-719) and GET /api/chats
    (lines 539-609) *)

(** The chat is resolved before the participant is looked up, so a
    participant without an account leaves the conversation behind and an
    error as the answer ([otherUser] is null at line 704); a participant
    id that is no ObjectId makes [Chat.findOrCreateChat] throw before
    anything is saved. *)
Definition http_chats_create (env : Env) (cred : Credential)
    (participantId : option string) (st : Server) : Server * ChatsReply :=
  match cred with
  | NoToken => (st, chatsFailure 401)
  | BadToken => (st, chatsFailure 500)
  | Token uid =>
      if falsyId participantId then (st, chatsFailure 400)
      else if negb (storeUp env) then (st, chatsFailure 500)
      else
        let pid := default EmptyString participantId in
        if negb (castable st pid) then (st, chatsFailure 500)
        else
        let '(chats', chat) :=
          findOrCreateChat (clk env 0) uid pid (chats st) in
        match users st !! pid with
        | Some name =>
            (setChats chats' st,
             chatOk (mkChatInfo chat pid name
                       (createdAt <$> chats' !! chat)
                       (updatedAt <$> chats' !! chat)))
        | None => (setChats chats' st, chatsFailure 500)
        end
  end.

(** [.populate('participants', ...)]: the participants that have an
    account, with their names. *)
Definition populated (st : Server) (c : Chat) : list (string * string) :=
  omap (λ p, (λ name, (p, name)) <$> users st !! p) (participants c).

(** [Message.findOne({ chatId }).sort({ timestamp: -1 })] *)
Definition newestOf (chat : nat) (st : Server) : option (nat * Message) :=
  head (merge_sort newerFirst
          (find (λ m, bool_decide (chatId m = chat)) (messages st))).

(** One entry of the list; [None] when the populated sender of the last
    message is null, which rejects the whole request. *)
Definition summarize (uid : string) (st : Server) (p : nat * Chat)
  : option ChatSummary :=
  let otherParticipant :=
    List.find (λ q, negb (String.eqb q.1 uid)) (populated st p.2) in
  match newestOf p.1 st with
  | Some (_, m) =>
      match users st !! sender m with
      | Some name =>
          Some (mkChatSummary p.1 otherParticipant
                  (Some (mkLastMessage (content m) (timestamp m) (sender m)
                           name))
                  (updatedAt p.2))
      | None => None
      end
  | None => Some (mkChatSummary p.1 otherParticipant None (updatedAt p.2))
  end.

(** [aTime], [bTime]: the time of the last message, else [updatedAt]. *)
Definition activity (s : ChatSummary) : Z :=
  match cs_lastMessage s with
  | Some lm => lm_timestamp lm
  | None => cs_updatedAt s
  end.

(** [.sort((a, b) => bTime - aTime)]: a stable sort, latest first. *)
Fixpoint insertByActivity (x : ChatSummary) (l : list ChatSummary)
  : list ChatSummary :=
  match l with
  | [] => [x]
  | y :: l' =>
      if activity y <=? activity x then x :: l
      else y :: insertByActivity x l'
  end.

Definition latestFirst (l : list ChatSummary) : list ChatSummary :=
  foldr insertByActivity [] l.

Definition get_chats (env : Env) (cred : Credential) (st : Server)
  : ChatsReply :=
  match cred with
  | NoToken => chatsFailure 401
  | BadToken => chatsFailure 500
  | Token uid =>
      if negb (storeUp env) then chatsFailure 500
      else
        match mapM (summarize uid st)
                (find (λ c, bool_decide (uid ∈ participants c)) (chats st)) with
        | Some chatsWithMessages =>
            chatsOk (latestFirst
                       (List.filter (λ s, bool_decide (is_Some (cs_participant s)))
                          chatsWithMessages))
        | None => chatsFailure 500
        end
  end.

(** ** PUT /api/auth/profile (src/routes/auth.js, lines 662-738; mounted
    at line 412 of src/server.js)

    The route as far as the state of the chat server goes: it replaces the
    full name of the token's account.  [fullName] is [fullName.trim()] of
    the body, empty also when the body has none.  [refused] is the status
    of the answer when the body does not pass the route's other checks
    (user id format and availability, date of birth) or the validators of
    the User model, which this state does not decide; [None] when it
    passes. *)
Definition put_profile (env : Env) (cred : Credential) (fullName : string)
    (refused : option nat) (st : Server) : Server * list Event :=
  match cred with
  | NoToken | BadToken => (st, [reply (failure 401)])
  | Token uid =>
      if bool_decide (fullName = EmptyString)
      then (st, [reply (failure 400)])
      else
        match refused with
        | Some code => (st, [reply (failure code)])
        | None =>
            if negb (storeUp env) then (st, [reply (failure 500)])
            else
              match users st !! uid with
              | Some _ =>
                  (setUsers (<[uid := fullName]> (users st)) st,
                   [reply (profileOk uid fullName)])
              | None => (st, [reply (failure 404)])
              end
        end
  end.

(** ** The server as a transition system over handler runs *)

Inductive Request :=
  | Connect (cred : Credential)
  | OnlineTimer (uid : string)
  | Disconnect (s : nat)
  | SendMessage (s : nat) (receiverId : option string) (text : option jsstring)
  | MessageRead (s : nat) (chat : nat)
  | HttpSend (cred : Credential) (receiverId : option string)
      (text : option jsstring)
  | HttpDelivered (cred : Credential) (messageId : nat)
  | HttpRead (cred : Credential) (chat : nat)
  | GetMessages (cred : Credential) (chat : nat)
  | GetUserStatus (uid : string)
  | HttpChatsCreate (cred : Credential) (participantId : option string)
  | GetChats (cred : Credential)
  | PutProfile (cred : Credential) (fullName : string)
      (refused : option nat).

Definition step (st : Server) (r : Env * Request) : Server * list Event :=
  let env := r.1 in
  match r.2 with
  | Connect cred => (connect cred st, [])
  | OnlineTimer uid => _updateUserOnlineStatus env uid st
  | Disconnect s => disconnect env s st
  | SendMessage s receiverId text =>
      match socketById s st with
      | Some sock => send_message env sock receiverId text st
      | None => (st, [])
      end
  | MessageRead s chat =>
      match socketById s st with
      | Some sock => message_read_socket env sock chat st
      | None => (st, [])
      end
  | HttpSend cred receiverId text => http_send env cred receiverId text st
  | HttpDelivered cred messageId => http_delivered env cred messageId st
  | HttpRead cred chat => http_read env cred chat st
  | GetMessages cred chat => (st, get_messages env cred chat st)
  | GetUserStatus uid => (st, get_user_status uid st)
  | HttpChatsCreate cred participantId =>
      let out := http_chats_create env cred participantId st in
      (out.1, [reply (chatsReply out.2)])
  | GetChats cred => (st, [reply (chatsReply (get_chats env cred st))])
  | PutProfile cred fullName refused =>
      put_profile env cred fullName refused st
  end.

Fixpoint run (st : Server) (trace : list (Env * Request))
  : Server * list Event :=
  match trace with
  | [] => (st, [])
  | r :: trace' =>
      let '(st1, ev1) := step st r in
      let '(st2, ev2) := run st1 trace' in
      (st2, ev1 ++ ev2)
  end.

(** ** The earlier send_message handler (src/routes/auth.js, lines 1562-1642)

    It creates the message with [deliveredAt: new Date()] and no [status],
    pushes it with status delivered and never updates the stored
    document. *)
Module Earlier.

Inductive Event :=
  | message_sent (to : nat) (messageId chat : nat) (text : jsstring)
      (st : Status)
  | message_sent_failed (to : nat)
  | new_message (to : nat) (id : nat) (text : jsstring)
      (senderId senderName : string) (ts : Z) (chat : nat)
      (receiverId : string) (st : Status)
  | message_delivered (to : nat) (messageId chat : nat) (text : jsstring)
      (wasDelivered : bool) (st : Status).

(** Clock readings: 0 the conversation, 1 [deliveredAt], 2 the default
    [timestamp]. *)
Definition send_message (env : Env) (sock : Socket)
    (receiverId : option string) (text : option jsstring) (st : Server)
  : Server * list Event :=
  if falsyId receiverId || falsy text then (st, [])
  else if negb (storeUp env) then (st, [message_sent_failed (sid sock)])
  else
    let rid := default EmptyString receiverId in
    if negb (castable st rid) then (st, [message_sent_failed (sid sock)])
    else
    let '(chats', chat) :=
      findOrCreateChat (clk env 0) (userId sock) rid (chats st) in
    let m :=
      {| chatId := chat; sender := userId sock; receiver := rid;
         content := trim (default [] text); timestamp := clk env 2;
         status := sent; deliveredAt := Some (clk env 1);
         readAt := None |} in
    match save m (messages st) with
    | None => (setChats chats' st, [message_sent_failed (sid sock)])
    | Some (msgs', id) =>
        let receiverSocket := socketOf rid st in
        (setMessages msgs' (setChats chats' st),
         [message_sent (sid sock) id chat (content m) sent]
         ++ match receiverSocket with
            | Some rs =>
                [new_message (sid rs) id (content m) (userId sock)
                   (fullName sock) (timestamp m) chat rid delivered]
            | None => []
            end
         ++ [message_delivered (sid sock) id chat (content m)
               (bool_decide (is_Some receiverSocket))
               (match receiverSocket with
                | Some _ => delivered
                | None => sent
                end)])
    end.

(** The status that GET /api/chats/:chatId/messages of that file reports
    (lines 1415-1426); [isRead] is not a path of the schema. *)
Definition fetchedStatus (uid : string) (m : Message) : Status :=
  if String.eqb (sender m) uid
  then match deliveredAt m with
       | Some _ => delivered
       | None => sent
       end
  else delivered.

End Earlier.

(** ** Vocabulary of the properties *)

(** The timestamps agree with the status: [deliveredAt] is set exactly from
    delivered on, [readAt] exactly at read. *)
Definition timestampsAgree (m : Message) : Prop :=
  (is_Some (deliveredAt m) ↔ status m ≠ sent)
  ∧ (is_Some (readAt m) ↔ status m = read).

(** Every document of [before] is still there in [after], no earlier in
    the status order, and untouched when its status is the same. *)
Definition forwardOnly (before after : list Message) : Prop :=
  ∀ i m, before !! i = Some m →
    ∃ m', after !! i = Some m'
          ∧ (rank (status m) ≤ rank (status m'))%nat
          ∧ (status m' = status m → m' = m).

(** The messages of [senderId] that were not read in [before] and are read
    in [after]. *)
Definition newlyRead (senderId : string) (before after : list Message) : nat :=
  length (List.filter
            (λ p, String.eqb (sender p.1) senderId
                  && negb (hasStatus read p.1) && hasStatus read p.2)
            (zip before after)).

Definition isReadNotification (e : Event) : bool :=
  match e with
  | message_read _ _ _ _ _ _ => true
  | _ => false
  end.


(** Events that reach the socket [s] or answer the HTTP caller. *)
Definition reaches (s : nat) (e : Event) : bool :=
  match e with
  | message_sent to _ _ _ _ | message_sent_failed to
  | chat_updated to _ _ _ _ _ | new_message to _ _ _ _ _ _ _ _
  | message_delivered to _ _ | message_read to _ _ _ _ _ => (to =? s)%nat
  | user_online _ _ | user_offline _ _ => true
  | reply _ => false
  end.

(** The message text an event carries. *)
Definition eventText (e : Event) : option jsstring :=
  match e with
  | message_sent _ _ _ text _ => Some text
  | chat_updated _ _ _ _ text _ => Some text
  | new_message _ _ text _ _ _ _ _ _ => Some text
  | _ => None
  end.



(** The code units that [trim] strips. *)
Definition blank (s : jsstring) : Prop :=
  Forall (λ c, isWhiteSpace c = true) s.

(** Neither end of the string is a white-space code unit. *)
Definition tight (s : jsstring) : Prop :=
  (∀ c, head s = Some c → isWhiteSpace c = false)
  ∧ (∀ c, last s = Some c → isWhiteSpace c = false).


(** ** A scenario: Alice and Bob *)

Definition accounts : gmap string string :=
  {[ "alice" := "Alice"; "bob" := "Bob" ]}.

(** A handler run at the instant [t], with the store reachable. *)
Definition at_time (t : Z) : Env := mkEnv (λ _, t) true.

Definition alice : Socket := mkSocket 0 "alice" "Alice".
Definition bob : Socket := mkSocket 1 "bob" "Bob".

Definition aliceConnected : Server :=
  connect (Token "alice") (initial accounts).

Definition bothConnected : Server :=
  connect (Token "bob") aliceConnected.

(** Alice's [send_message] has saved "hi" for Bob and awaits
    [message.populate]. *)
Definition hiSaved : Server * list Event * option Pending :=
  send_message_persist (at_time 1000) alice (Some "bob") (Some (lit "hi"))
    bothConnected.

(** Meanwhile Bob's client posts a read for the conversation. *)
Definition hiRead : Server * list Event :=
  http_read (at_time 2000) (Token "bob") 0 hiSaved.1.1.

(** Then Alice's handler resumes: push and delivered update. *)
Definition hiResumed : Server * list Event :=
  match hiSaved.2 with
  | Some p => send_message_deliver (at_time 3000) alice p hiRead.1
  | None => (hiRead.1, [])
  end.

(** The earlier handler, for a receiver who is not connected. *)
Definition earlierHi : Server * list Earlier.Event :=
  Earlier.send_message (at_time 1000) alice (Some "bob") (Some (lit "hi"))
    aliceConnected.

(** Alice writes to Bob while Bob has no socket. *)
Definition hiOffline : Server * list Event :=
  send_message (at_time 1000) alice (Some "bob") (Some (lit "hi"))
    aliceConnected.



(** Alice submits "  hi " on both transports. *)
Definition paddedSocket : Server * list Event :=
  send_message (at_time 1000) alice (Some "bob") (Some (lit "  hi "))
    bothConnected.

Definition paddedHttp : Server * list Event :=
  http_send (at_time 1000) (Token "alice") (Some "bob") (Some (lit "  hi "))
    bothConnected.






(** Alice's "hi" reaches Bob, who is connected; Bob then signals a read
    twice, over the socket or over HTTP. *)
Definition hiDelivered : Server * list Event :=
  send_message (at_time 1000) alice (Some "bob") (Some (lit "hi"))
    bothConnected.

Definition readOnce : Server * list Event :=
  message_read_socket (at_time 2000) bob 0 hiDelivered.1.

Definition readTwice : Server * list Event :=
  message_read_socket (at_time 3000) bob 0 readOnce.1.

Definition readOnceHttp : Server * list Event :=
  http_read (at_time 2000) (Token "bob") 0 hiDelivered.1.

Definition readTwiceHttp : Server * list Event :=
  http_read (at_time 3000) (Token "bob") 0 readOnceHttp.1.

(** After Bob's first read Alice sends "again", and Bob signals a read
    for it. *)
Definition againDelivered : Server * list Event :=
  send_message (at_time 3000) alice (Some "bob") (Some (lit "again"))
    readOnce.1.

Definition readAgain : Server * list Event :=
  message_read_socket (at_time 4000) bob 0 againDelivered.1.

(** Alice connects, reconnects on a second socket, and then the
    disconnect of her first socket arrives. *)
Definition aliceTwice : list (Env * Request) :=
  [(at_time 0, Connect (Token "alice"));
   (at_time 1000, OnlineTimer "alice");
   (at_time 5000, Connect (Token "alice"));
   (at_time 6000, OnlineTimer "alice")].

Definition staleDisconnect : list (Env * Request) :=
  [(at_time 7000, Disconnect 0)].

(** Submissions without a receiver and with empty content. *)
Definition noReceiver : Server * list Event :=
  send_message (at_time 1000) alice None (Some (lit "hi")) bothConnected.

Definition noContent : Server * list Event :=
  send_message (at_time 1000) alice (Some "bob") (Some []) bothConnected.

(** ** Vocabulary of the properties of handler runs *)

(** What a stored message can become: the same document after any number
    of delivered and read updates. *)
Inductive evolves : Message → Message → Prop :=
  | evolves_same m : evolves m m
  | evolves_delivered now m m' :
      evolves m m' → evolves m (markDelivered now m')
  | evolves_read now m m' : evolves m m' → evolves m (markRead now m').

(** The paths that no update writes. *)
Definition sameLetter (m m' : Message) : Prop :=
  chatId m' = chatId m ∧ sender m' = sender m ∧ receiver m' = receiver m
  ∧ content m' = content m ∧ timestamp m' = timestamp m.

(** Stored text is not empty and has no white space at either end. *)
Definition contentOk (m : Message) : Prop :=
  content m ≠ [] ∧ tight (content m).

(** The conversation of a message exists and is one that
    [Chat.findOrCreateChat] resolves its sender and receiver to. *)
Definition inItsChat (st : Server) (m : Message) : Prop :=
  ∃ c, chats st !! chatId m = Some c
       ∧ pairFilter (sender m) (receiver m) c = true.

(** Every socket belongs to an account, and socket ids are distinct and
    below the next fresh one.  (The name a socket carries is the one of
    its handshake; a later profile update does not reach it.) *)
Definition socketsOk (st : Server) : Prop :=
  Forall (λ s, is_Some (users st !! userId s)
               ∧ (sid s < nextSid st)%nat) (sockets st)
  ∧ NoDup (map sid (sockets st)).

(** A disconnect of a socket of [uid], in the state it arrives in. *)
Definition disconnects (uid : string) (st : Server) (r : Request) : bool :=
  match r with
  | Disconnect s =>
      match socketById s st with
      | Some sock => String.eqb (userId sock) uid
      | None => false
      end
  | _ => false
  end.

(** A handshake that is dropped before its one-second timer fires. *)
Definition briefVisit (uid : string) (s : nat) (e1 e2 e3 : Env)
  : list (Env * Request) :=
  [(e1, Connect (Token uid)); (e2, Disconnect s); (e3, OnlineTimer uid)].

(** The shape of a handler run on the message store: the stored messages
    evolve in place, and at most one message is appended, a (possibly
    already delivered) new message with trimmed, non-empty text in a
    conversation that [Chat.findOrCreateChat] gives its sender and
    receiver. *)
Definition runShape (before : list Message) (after : Server) : Prop :=
  ∃ evolved tail,
    messages after = evolved ++ tail
    ∧ Forall2 evolves before evolved
    ∧ (tail = []
       ∨ ∃ chat from to text now m',
           tail = [m'] ∧ trim text ≠ []
           ∧ evolves (newMessage chat from to (trim text) now) m'
           ∧ ∃ c, chats after !! chat = Some c
                  ∧ pairFilter from to c = true).

(** A session: both connect, Alice writes over the socket, Bob reads, Bob
    answers over HTTP, Alice acknowledges and reads over HTTP. *)
Definition session : list (Env * Request) :=
  [(at_time 0, Connect (Token "alice"));
   (at_time 10, Connect (Token "bob"));
   (at_time 1000, SendMessage 0 (Some "bob") (Some (lit "  hi ")));
   (at_time 2000, MessageRead 1 0);
   (at_time 3000, HttpSend (Token "bob") (Some "alice") (Some (lit "yo")));
   (at_time 4000, HttpDelivered (Token "alice") 1);
   (at_time 5000, HttpRead (Token "alice") 0);
   (at_time 6000, Disconnect 0)].

(** The state after the [session]. *)
Definition sessionEnd : Server := (run (initial accounts) session).1.

(** The order of the chat list: no entry is followed by a more recently
    active one. *)
Definition moreRecent (x y : ChatSummary) : Prop := activity y ≤ activity x.

(** What an entry of the chat list says about its conversation. *)
Definition summaryOk (uid : string) (st : Server) (s : ChatSummary) : Prop :=
  ∃ c other name,
    chats st !! cs_id s = Some c
    ∧ uid ∈ participants c
    ∧ cs_participant s = Some (other, name)
    ∧ other ≠ uid ∧ other ∈ participants c
    ∧ users st !! other = Some name
    ∧ match cs_lastMessage s with
      | Some lm =>
          ∃ i m, messages st !! i = Some m ∧ chatId m = cs_id s
                 ∧ lm_content lm = content m
                 ∧ lm_timestamp lm = timestamp m
                 ∧ lm_senderId lm = sender m
                 ∧ ∀ j m', messages st !! j = Some m' →
                           chatId m' = cs_id s →
                           timestamp m' ≤ timestamp m
      | None => ∀ j m', messages st !! j = Some m' → chatId m' ≠ cs_id s
      end.

(** * Email validation (src/routes/auth.js, lines 13-16)

    [emailRegex.test(email)] for the pattern
    [/^[^\s@]+@[^\s@]+\.[^\s@]+$/].  The pattern has no flags, so it runs
    over the UTF-16 code units of the string; [^] and [$] anchor it at both
    ends; [\s] is the white space that [trim] strips. *)

(** The pieces of such a pattern: a character class under [+], or one
    literal code unit. *)
Inductive Piece :=
| oneOrMore (class : N → bool)
| literal (c : N).

(** The rest of a [class+] after its first code unit: the longest run
    first, then shorter ones, each followed by the rest of the pattern. *)
Fixpoint more (class : N → bool) (rest : jsstring → bool) (s : jsstring)
  : bool :=
  match s with
  | c :: s' => (class c && more class rest s') || rest s
  | [] => rest s
  end.

(** [RegExp.prototype.test] for an anchored sequence of pieces. *)
Fixpoint test (pattern : list Piece) (s : jsstring) : bool :=
  match pattern with
  | [] => match s with [] => true | _ :: _ => false end
  | literal c :: pattern' =>
      match s with
      | c' :: s' => (c' =? c)%N && test pattern' s'
      | [] => false
      end
  | oneOrMore class :: pattern' =>
      match s with
      | c :: s' => class c && more class (test pattern') s'
      | [] => false
      end
  end.

(** The class [[^\s@]]. *)
Definition notSpaceOrAt (c : N) : bool :=
  negb (isWhiteSpace c) && negb (c =? 64)%N.

Definition emailRegex : list Piece :=
  [oneOrMore notSpaceOrAt; literal 64; oneOrMore notSpaceOrAt; literal 46;
   oneOrMore notSpaceOrAt].

Definition isValidEmail (email : jsstring) : bool := test emailRegex email.

(** The user id format check of /check-username and /complete-registration
    (src/routes/auth.js, lines 139-140 and 185-186):
    [userIdRegex.test(username)] for [/^[a-zA-Z0-9_]+$/], and the bounds on
    [username.length]. *)
Definition wordChar (c : N) : bool :=
  ((97 <=? c)%N && (c <=? 122)%N)
  || ((65 <=? c)%N && (c <=? 90)%N)
  || ((48 <=? c)%N && (c <=? 57)%N)
  || (c =? 95)%N.

Definition userIdRegex : list Piece := [oneOrMore wordChar].

(** [true] when the routes go on, [false] when they answer 400 with the
    format message. *)
Definition userIdFormatOk (username : jsstring) : bool :=
  negb (negb (test userIdRegex username)
        || (length username <? 3)%nat
        || (30 <? length username)%nat).

(** A non-empty run of code units that are neither white space nor [@]. *)
Definition word (s : jsstring) : Prop :=
  s ≠ [] ∧ Forall (λ c, isWhiteSpace c = false ∧ c ≠ 64%N) s.

(** * Friend requests and friendships
    (src/unnamed/part_002; src/routes/auth.js, lines 507-528 and 774-1222)

    Ids are strings as in the chat model; the text of [fr.sender.toString()
    < fr.receiver.toString()] is the byte-wise order of the two ids. *)

Module Friends.

(** The Friend model (src/unnamed/part_002, lines 3-21).  No route deletes
    a friendship, so its [_id] is its position in the collection. *)
Record Friend := mkFriend {
  user1 : string;
  user2 : string;
  createdAt : Z
}.

(** The fields of a FriendRequest document that the routes decide on.
    The routes write the two status values below; [save] of a new request
    stores it as given under a fresh [_id]. *)
Inductive RequestStatus := pending | accepted.

Record FriendRequest := mkFriendRequest {
  _id : nat;
  sender : string;
  receiver : string;
  message : jsstring;
  status : RequestStatus
}.

#[global] Instance RequestStatus_eq_dec : EqDecision RequestStatus.
Proof. solve_decision. Defined.

Record Db := mkDb {
  users : gmap string string;
  requests : list FriendRequest;
  friends : list Friend;
  nextId : nat
}.

Definition empty (accounts : gmap string string) : Db :=
  mkDb accounts [] [] 0.

Inductive Relationship :=
  no_relationship | are_friends | request_sent | request_received.

(** What a route answers: a failure with its status code and message, or
    the payload of the success. *)
Inductive Reply :=
| failure (code : nat) (text : string)
| requestCreated (r : FriendRequest)
| relationship (s : Relationship) (r : option FriendRequest)
| requestAccepted (friendship : nat) (since : Z)
| requestCancelled
| friendList (l : list (string * string)).

(** [verifyToken] (lines 508-528): the reply that ends the request, or
    [req.userId]. *)
Definition verifyToken (cred : Credential) : Reply + string :=
  match cred with
  | NoToken => inl (failure 401 "Access denied. No token provided.")
  | BadToken => inl (failure 401 "Invalid token")
  | Token uid => inr uid
  end.

(** The filter [{$or: [{sender: a, receiver: b}, {sender: b, receiver: a}]}]. *)
Definition between (a b : string) (r : FriendRequest) : bool :=
  bool_decide (sender r = a ∧ receiver r = b)
  || bool_decide (sender r = b ∧ receiver r = a).

(** [Friend.areFriends] (part_002, lines 24-32). *)
Definition areFriends (userId1 userId2 : string) (fs : list Friend) : bool :=
  match findOne (λ f, bool_decide (user1 f = userId1 ∧ user2 f = userId2)
                      || bool_decide (user1 f = userId2 ∧ user2 f = userId1))
          fs with
  | Some _ => true
  | None => false
  end.

(** [friendship.save()] under the unique index on (user1, user2)
    (part_002, line 21): [None] is the duplicate-key error 11000. *)
Definition saveFriend (f : Friend) (fs : list Friend) : option (list Friend) :=
  match findOne (λ g, bool_decide (user1 g = user1 f ∧ user2 g = user2 f)) fs with
  | Some _ => None
  | None => Some (fs ++ [f])
  end.

(** [populate]: the user document behind an id, or null. *)
Definition populate (db : Db) (id : string) : option (string * string) :=
  (λ name, (id, name)) <$> users db !! id.

(** [Friend.getFriends] (part_002, lines 35-49): the other user of every
    friendship of [userId]; [None] when [friendship.user1._id] is read off
    a null. *)
Definition getFriends (userId : string) (db : Db)
  : option (list (option (string * string))) :=
  mapM (λ p : nat * Friend,
          match populate db (user1 p.2) with
          | None => None
          | Some u1 =>
              Some (if bool_decide (u1.1 = userId)
                    then populate db (user2 p.2) else Some u1)
          end)
       (find (λ f, bool_decide (user1 f = userId)
                   || bool_decide (user2 f = userId)) (friends db)).

(** POST /friend-request (lines 777-863).  A [receiverId] that is no
    ObjectId makes [User.findById] throw (the ids of the accounts are
    ObjectIds whatever their spelling here, as in the chat model). *)
Definition friend_request (env : Env) (cred : Credential)
    (receiverId : option string) (text : option jsstring) (db : Db)
  : Db * Reply :=
  match verifyToken cred with
  | inl r => (db, r)
  | inr senderId =>
      if falsyId receiverId then (db, failure 400 "Receiver ID is required")
      else if negb (storeUp env) then (db, failure 500 "Server error")
      else
        let receiverId := default EmptyString receiverId in
        match users db !! receiverId with
        | None =>
            if isObjectId receiverId then (db, failure 404 "User not found")
            else (db, failure 500 "Server error")
        | Some _ =>
            if bool_decide (senderId = receiverId)
            then (db, failure 400 "Cannot send friend request to yourself")
            else
              match findOne (between senderId receiverId) (requests db) with
              | Some (_, existingRequest) =>
                  if bool_decide (sender existingRequest = senderId)
                  then (db, failure 400 "Friend request already sent")
                  else (db, failure 400
                          "This user has already sent you a friend request")
              | None =>
                  let friendRequest :=
                    mkFriendRequest (nextId db) senderId receiverId
                      (trim (default [] text)) pending in
                  (mkDb (users db) (requests db ++ [friendRequest])
                     (friends db) (S (nextId db)),
                   requestCreated friendRequest)
              end
        end
  end.

(** The filter of the pending request between two users (lines 885-891). *)
Definition pendingBetween (a b : string) (r : FriendRequest) : bool :=
  between a b r && bool_decide (status r = pending).

(** GET /relationship-status/:userId (lines 866-938). *)
Definition relationship_status (env : Env) (cred : Credential)
    (otherUserId : string) (db : Db) : Db * Reply :=
  match verifyToken cred with
  | inl r => (db, r)
  | inr currentUserId =>
      if negb (storeUp env) then (db, failure 500 "Server error")
      else
        let relationshipStatus :=
          if areFriends currentUserId otherUserId (friends db)
          then are_friends
          else
            match findOne (pendingBetween currentUserId otherUserId)
                    (requests db) with
            | Some (_, friendRequest) =>
                if bool_decide (sender friendRequest = currentUserId)
                then request_sent else request_received
            | None => no_relationship
            end in
        let friendRequest :=
          match relationshipStatus with
          | request_sent | request_received =>
              snd <$> findOne (pendingBetween currentUserId otherUserId)
                        (requests db)
          | _ => None
          end in
        (db, relationship relationshipStatus friendRequest)
  end.

(** [FriendRequest.findById]. *)
Definition findById (requestId : nat) (rs : list FriendRequest)
  : option (nat * FriendRequest) :=
  findOne (λ r, bool_decide (_id r = requestId)) rs.

Definition accept (r : FriendRequest) : FriendRequest :=
  mkFriendRequest (_id r) (sender r) (receiver r) (message r) accepted.

(** POST /accept-friend-request/:requestId (lines 1037-1129).  The route
    writes twice, the friendship and then the request, and its catch
    undoes nothing; it is given in two parts, each under its own
    [storeUp], so that a store lost between the two writes can be
    followed. *)

(** What the run holds after [friendship.save()]: the [_id] of the request
    it is accepting, and the friendship it has saved. *)
Record Saved := mkSaved {
  s_request : nat;
  s_friendship : nat;
  s_createdAt : Z
}.

(** Lines 1037-1095: the checks and [friendship.save()]. *)
Definition accept_friend_request_befriend (env : Env) (cred : Credential)
    (requestId : nat) (db : Db) : Db * (Reply + Saved) :=
  match verifyToken cred with
  | inl r => (db, inl r)
  | inr userId =>
      if negb (storeUp env) then (db, inl (failure 500 "Server error"))
      else
        match findById requestId (requests db) with
        | None => (db, inl (failure 404 "Friend request not found"))
        | Some (_, friendRequest) =>
            if negb (bool_decide (receiver friendRequest = userId))
            then (db, inl (failure 403
                             "You can only accept requests sent to you"))
            else if negb (bool_decide (status friendRequest = pending))
            then (db, inl (failure 400
                             "This friend request is no longer pending"))
            else if areFriends (sender friendRequest) (receiver friendRequest)
                      (friends db)
            then (db, inl (failure 400
                             "You are already friends with this user"))
            else
              let user1 :=
                if String.ltb (sender friendRequest) (receiver friendRequest)
                then sender friendRequest else receiver friendRequest in
              let user2 :=
                if String.ltb (sender friendRequest) (receiver friendRequest)
                then receiver friendRequest else sender friendRequest in
              let friendship := mkFriend user1 user2 (clk env 0) in
              match saveFriend friendship (friends db) with
              | None =>
                  (db, inl (failure 400
                              "You are already friends with this user"))
              | Some fs =>
                  (mkDb (users db) (requests db) fs (nextId db),
                   inr (mkSaved requestId (length (friends db))
                          (createdAt friendship)))
              end
        end
  end.

(** Lines 1097-1111: [friendRequest.save()], which writes the status of
    the document stored under that [_id] and rejects when there is none
    any more, and the answer. *)
Definition accept_friend_request_settle (env : Env) (saved : Saved) (db : Db)
  : Db * Reply :=
  if negb (storeUp env) then (db, failure 500 "Server error")
  else
    match findById (s_request saved) (requests db) with
    | Some (i, _) =>
        (mkDb (users db) (alter accept i (requests db)) (friends db)
           (nextId db),
         requestAccepted (s_friendship saved) (s_createdAt saved))
    | None => (db, failure 500 "Server error")
    end.

Definition accept_friend_request_cut (env1 env2 : Env) (cred : Credential)
    (requestId : nat) (db : Db) : Db * Reply :=
  let '(db1, out) := accept_friend_request_befriend env1 cred requestId db in
  match out with
  | inl answer => (db1, answer)
  | inr saved => accept_friend_request_settle env2 saved db1
  end.

(** A run that the store serves, or refuses, as a whole. *)
Definition accept_friend_request (env : Env) (cred : Credential)
    (requestId : nat) (db : Db) : Db * Reply :=
  accept_friend_request_cut env env cred requestId db.

(** DELETE /friend-request/:requestId (lines 1132-1182). *)
Definition cancel_friend_request (env : Env) (cred : Credential)
    (requestId : nat) (db : Db) : Db * Reply :=
  match verifyToken cred with
  | inl r => (db, r)
  | inr userId =>
      if negb (storeUp env) then (db, failure 500 "Server error")
      else
        match findById requestId (requests db) with
        | None => (db, failure 404 "Friend request not found")
        | Some (i, friendRequest) =>
            if negb (bool_decide (sender friendRequest = userId))
            then (db, failure 403
                    "You can only cancel your own friend requests")
            else if negb (bool_decide (status friendRequest = pending))
            then (db, failure 400 "Can only cancel pending friend requests")
            else
              (mkDb (users db) (delete i (requests db)) (friends db)
                 (nextId db),
               requestCancelled)
        end
  end.

(** GET /friends (lines 1185-1222): id and full name of every friend; a
    null among the friends makes [friend._id] throw. *)
Definition friends_list (env : Env) (cred : Credential) (db : Db)
  : Db * Reply :=
  match verifyToken cred with
  | inl r => (db, r)
  | inr userId =>
      if negb (storeUp env) then (db, failure 500 "Server error")
      else
        match getFriends userId db with
        | None => (db, failure 500 "Server error")
        | Some friends =>
            match mapM (λ friend : option (string * string), friend) friends with
            | None => (db, failure 500 "Server error")
            | Some transformedFriends => (db, friendList transformedFriends)
            end
        end
  end.

(** One request to the friend routes, handled to completion. *)
Inductive Call :=
| FriendRequestTo (cred : Credential) (receiverId : option string)
    (text : option jsstring)
| RelationshipStatus (cred : Credential) (otherUserId : string)
| Accept (cred : Credential) (requestId : nat)
| Cancel (cred : Credential) (requestId : nat)
| FriendsList (cred : Credential).

Definition step (db : Db) (c : Env * Call) : Db * Reply :=
  match c.2 with
  | FriendRequestTo cred receiverId text =>
      friend_request c.1 cred receiverId text db
  | RelationshipStatus cred other => relationship_status c.1 cred other db
  | Accept cred requestId => accept_friend_request c.1 cred requestId db
  | Cancel cred requestId => cancel_friend_request c.1 cred requestId db
  | FriendsList cred => friends_list c.1 cred db
  end.

Fixpoint run (db : Db) (trace : list (Env * Call)) : Db * list Reply :=
  match trace with
  | [] => (db, [])
  | c :: rest =>
      let '(db1, answer) := step db c in
      let '(db2, answers) := run db1 rest in
      (db2, answer :: answers)
  end.

(** ** Vocabulary *)

(** The records agree with each other: request ids are fresh and distinct,
    nobody has a request to themselves, the receiver of a request has an
    account, two users share at most one request, a friendship is stored
    once with the smaller id first, and two users are friends exactly when
    a request between them has been accepted. *)
Record consistent (db : Db) : Prop := mkConsistent {
  ids_fresh : Forall (λ r, (_id r < nextId db)%nat) (requests db);
  ids_distinct : NoDup (_id <$> requests db);
  not_to_self : Forall (λ r, sender r ≠ receiver r) (requests db);
  receivers_known :
    Forall (λ r, receiver r ≠ EmptyString ∧ is_Some (users db !! receiver r))
      (requests db);
  one_request :
    ∀ r1 r2, r1 ∈ requests db → r2 ∈ requests db →
             between (sender r1) (receiver r1) r2 = true → r1 = r2;
  smaller_first :
    Forall (λ f, String.ltb (user1 f) (user2 f) = true) (friends db);
  one_friendship : NoDup ((λ f, (user1 f, user2 f)) <$> friends db);
  friends_by_acceptance :
    ∀ a b, areFriends a b (friends db) = true
           ↔ ∃ r, r ∈ requests db ∧ status r = accepted
                  ∧ between a b r = true
}.

(** Both users of every friendship have an account. *)
Definition known (db : Db) : Prop :=
  Forall (λ f, is_Some (users db !! user1 f) ∧ is_Some (users db !! user2 f))
    (friends db).

(** A friendship of [u], and the user on its other side. *)
Definition involves (u : string) (f : Friend) : bool :=
  bool_decide (user1 f = u) || bool_decide (user2 f = u).

Definition otherSide (u : string) (f : Friend) : string :=
  if bool_decide (user1 f = u) then user2 f else user1 f.

(** The other side's view of a relationship. *)
Definition mirrored (s : Relationship) : Relationship :=
  match s with
  | request_sent => request_received
  | request_received => request_sent
  | s => s
  end.

Definition statusOf (answer : Reply) : option Relationship :=
  match answer with
  | relationship s _ => Some s
  | _ => None
  end.

(** What a call did to the records: nothing; a new pending request,
    between two users who had none; the acceptance of a pending request,
    with the friendship it creates; the removal of a pending request. *)
Inductive Change (db db' : Db) : Prop :=
| unchanged : db' = db → Change db db'
| requested (r : FriendRequest) :
    status r = pending →
    _id r = nextId db →
    sender r ≠ receiver r →
    receiver r ≠ EmptyString →
    is_Some (users db !! receiver r) →
    findOne (between (sender r) (receiver r)) (requests db) = None →
    db' = mkDb (users db) (requests db ++ [r]) (friends db) (S (nextId db)) →
    Change db db'
| befriended (i : nat) (r : FriendRequest) (f : Friend) :
    requests db !! i = Some r →
    status r = pending →
    areFriends (sender r) (receiver r) (friends db) = false →
    (user1 f = sender r ∧ user2 f = receiver r
     ∧ String.ltb (sender r) (receiver r) = true)
    ∨ (user1 f = receiver r ∧ user2 f = sender r
       ∧ String.ltb (sender r) (receiver r) = false) →
    db' = mkDb (users db) (alter accept i (requests db)) (friends db ++ [f])
            (nextId db) →
    Change db db'
| withdrawn (i : nat) (r : FriendRequest) :
    requests db !! i = Some r →
    status r = pending →
    db' = mkDb (users db) (delete i (requests db)) (friends db) (nextId db) →
    Change db db'.

End Friends.

(** Alice asks Bob, with a padded message; then Bob accepts. *)
Definition aliceAsks : Friends.FriendRequest :=
  Friends.mkFriendRequest 0 "alice" "bob" (lit "hi") Friends.pending.

Definition friendsAsked : Friends.Db :=
  (Friends.run (Friends.empty accounts)
     [(at_time 1000,
       Friends.FriendRequestTo (Token "alice") (Some "bob")
         (Some (lit " hi ")))]).1.

Definition friendsMade : Friends.Db :=
  (Friends.run friendsAsked [(at_time 2000, Friends.Accept (Token "bob") 0)]).1.

(** * Properties *)

(** ** What the account and conversation routes leave alone *)

Lemma http_chats_create_frame env cred participantId st :
  messages (http_chats_create env cred participantId st).1 = messages st
  ∧ users (http_chats_create env cred participantId st).1 = users st
  ∧ sockets (http_chats_create env cred participantId st).1 = sockets st
  ∧ nextSid (http_chats_create env cred participantId st).1 = nextSid st
  ∧ onlineUsers (http_chats_create env cred participantId st).1
    = onlineUsers st
  ∧ readRouteMounted (http_chats_create env cred participantId st).1
    = readRouteMounted st.
Proof.
  unfold http_chats_create. destruct cred; try done.
  destruct (falsyId participantId); [done|].
  destruct (storeUp env); simpl; [|done].
  destruct (castable _ _); simpl; [|done].
  destruct (findOrCreateChat _ _ _ _) as [chats' chat].
  by destruct (users st !! _).
Qed.

Lemma put_profile_frame env cred fullName refused st :
  messages (put_profile env cred fullName refused st).1 = messages st
  ∧ chats (put_profile env cred fullName refused st).1 = chats st
  ∧ sockets (put_profile env cred fullName refused st).1 = sockets st
  ∧ nextSid (put_profile env cred fullName refused st).1 = nextSid st
  ∧ onlineUsers (put_profile env cred fullName refused st).1 = onlineUsers st
  ∧ readRouteMounted (put_profile env cred fullName refused st).1
    = readRouteMounted st.
Proof.
  unfold put_profile. destruct cred; try done.
  case_bool_decide; [done|]. destruct refused; [done|].
  destruct (storeUp env); simpl; [|done].
  by destruct (users st !! _).
Qed.

(** A profile update renames an account; it neither adds nor removes
    one. *)
Lemma put_profile_accounts env cred fullName refused st id :
  is_Some (users (put_profile env cred fullName refused st).1 !! id)
  ↔ is_Some (users st !! id).
Proof.
  unfold put_profile. destruct cred; try done.
  case_bool_decide; [done|]. destruct refused; [done|].
  destruct (storeUp env); simpl; [|done].
  destruct (users st !! uid) eqn:Hu; [|done]. simpl.
  destruct (decide (uid = id)) as [->|Hne].
  - rewrite lookup_insert_eq, Hu. split; eauto.
  - by rewrite lookup_insert_ne.
Qed.

(** ** Ids that the server holds *)

Lemma account_castable st id :
  is_Some (users st !! id) → castable st id = true.
Proof.
  intros H. unfold castable, held. by rewrite bool_decide_eq_true_2.
Qed.


Lemma socketOf_castable st id sock :
  socketOf id st = Some sock → castable st id = true.
Proof.
  unfold socketOf. intros [Hin Hid]%find_some.
  unfold castable, held.
  assert (existsb (λ s, String.eqb (userId s) id) (sockets st) = true) as ->.
  { apply existsb_exists. eauto. }
  by rewrite orb_true_r.
Qed.

Lemma participant_castable st id c :
  c ∈ chats st → id ∈ participants c → castable st id = true.
Proof.
  intros Hc Hid. unfold castable, held.
  assert (existsb (λ c, bool_decide (id ∈ participants c)) (chats st) = true)
    as ->.
  { apply existsb_exists. exists c.
    split; [by apply list_elem_of_In|by apply bool_decide_eq_true]. }
  by rewrite orb_true_r.
Qed.

(** ** The conversation directory *)

Lemma pairFilter_swap a b c : pairFilter a b c = pairFilter b a c.
Proof. unfold pairFilter. by rewrite (andb_comm (bool_decide (a ∈ _))). Qed.

Lemma findOne_pairFilter_swap a b coll :
  findOne (pairFilter a b) coll = findOne (pairFilter b a) coll.
Proof.
  unfold findOne. apply list_find_ext. intros c. by rewrite pairFilter_swap.
Qed.

Lemma isPair_pairFilter a b c : isPair a b c → pairFilter a b c = true.
Proof.
  unfold pairFilter. intros [H | H]; rewrite H;
    rewrite !andb_true_iff, !bool_decide_eq_true, !elem_of_cons;
    split_and!; auto.
Qed.

Lemma pairFilter_isPair a b c :
  a ≠ b → pairFilter a b c = true → isPair a b c.
Proof.
  unfold pairFilter, isPair. intros Hab.
  rewrite !andb_true_iff, !bool_decide_eq_true. intros [[Ha Hb] Hlen].
  destruct (participants c) as [|x [|y [|z l]]]; simplify_eq/=.
  rewrite !elem_of_cons, elem_of_nil in Ha, Hb.
  destruct Ha as [-> | [-> | []]], Hb as [-> | [-> | []]]; tauto.
Qed.

Lemma isPair_newChat a' b' now a b :
  isPair a' b' (newChat now a b) → ∀ c, isPair a' b' c → isPair a b c.
Proof. unfold isPair. simpl. intros [H | H] c; simplify_eq; tauto. Qed.

Lemma pairRecords_none a b a' b' coll :
  findOne (pairFilter a b) coll = None →
  (∀ c, isPair a' b' c → isPair a b c) →
  pairRecords a' b' coll = [].
Proof.
  intros Hnone Himp. unfold findOne in Hnone.
  apply list_find_None in Hnone. unfold pairRecords.
  induction coll as [|c coll IH]; [done|].
  apply Forall_cons in Hnone as [Hc Hrest].
  rewrite filter_cons_False; [by apply IH|].
  intros Hp. apply Hc, Is_true_true, isPair_pairFilter, Himp, Hp.
Qed.

Lemma pairRecords_lookup a b coll i c :
  coll !! i = Some c → isPair a b c → (1 ≤ length (pairRecords a b coll))%nat.
Proof.
  intros Hi Hp.
  assert (c ∈ pairRecords a b coll) as Hin.
  { apply list_elem_of_filter. split; [done|]. by eapply list_elem_of_lookup_2. }
  destruct (pairRecords a b coll); [by apply not_elem_of_nil in Hin|simpl; lia].
Qed.

Lemma findOrCreateChat_matches now a b coll :
  ∃ c, (findOrCreateChat now a b coll).1 !! (findOrCreateChat now a b coll).2
       = Some c
       ∧ pairFilter a b c = true.
Proof.
  unfold findOrCreateChat.
  destruct (findOne (pairFilter a b) coll) as [[i c]|] eqn:Hf; simpl.
  - apply list_find_Some in Hf as (Hi & Hp & _).
    exists c. split; [done|]. by apply Is_true_true.
  - exists (newChat now a b). split.
    + by rewrite lookup_app_r, Nat.sub_diag by lia.
    + apply isPair_pairFilter. by left.
Qed.

Lemma findOrCreateChat_again now1 now2 a b coll :
  findOrCreateChat now2 b a (findOrCreateChat now1 a b coll).1
  = findOrCreateChat now1 a b coll.
Proof.
  unfold findOrCreateChat at 2 3.
  destruct (findOne (pairFilter a b) coll) as [[i c]|] eqn:Hf; simpl.
  - unfold findOrCreateChat.
    by rewrite <- findOne_pairFilter_swap, Hf.
  - unfold findOrCreateChat, findOne.
    rewrite list_find_app_r by (by rewrite <- findOne_pairFilter_swap in Hf).
    simpl. rewrite decide_True; [done|].
    apply Is_true_true, isPair_pairFilter. by right.
Qed.

Lemma findOrCreateChat_uniquePairs now a b coll :
  uniquePairs coll → uniquePairs (findOrCreateChat now a b coll).1.
Proof.
  intros Huniq. unfold findOrCreateChat.
  destruct (findOne (pairFilter a b) coll) as [[i c]|] eqn:Hf; [done|].
  simpl. intros a' b'. unfold pairRecords.
  rewrite filter_app, length_app. fold (pairRecords a' b' coll).
  destruct (decide (isPair a' b' (newChat now a b))) as [Hp | Hp].
  - rewrite (pairRecords_none a b a' b' coll Hf (isPair_newChat _ _ _ _ _ Hp)).
    rewrite filter_cons_True by done. simpl. lia.
  - rewrite filter_cons_False by done. simpl.
    specialize (Huniq a' b'). lia.
Qed.

(** C3, as the code has it: calls that run one after the other resolve an
    unordered pair of distinct users, in either order, to the same
    conversation; the second call creates nothing, and the collection keeps
    at most one record per pair, exactly one for this pair. *)
Theorem findOrCreateChat_sequential now1 now2 a b coll :
  uniquePairs coll →
  a ≠ b →
  let r1 := findOrCreateChat now1 a b coll in
  let r2 := findOrCreateChat now2 b a r1.1 in
  r2.2 = r1.2 ∧ r2.1 = r1.1 ∧ uniquePairs r1.1
  ∧ length (pairRecords a b r1.1) = 1%nat.
Proof.
  intros Huniq Hab r1 r2. subst r1 r2.
  rewrite findOrCreateChat_again.
  pose proof (findOrCreateChat_uniquePairs now1 a b coll Huniq) as Hu.
  split_and!; [done..|].
  destruct (findOrCreateChat_matches now1 a b coll) as (c & Hc & Hp).
  apply (pairFilter_isPair a b c Hab) in Hp.
  pose proof (pairRecords_lookup _ _ _ _ _ Hc Hp).
  specialize (Hu a b). lia.
Qed.

Lemma findOrCreateChat_sequential_witness :
  let coll := [newChat 5 "carol" "dave"] in
  let r1 := findOrCreateChat 10 "alice" "bob" coll in
  let r2 := findOrCreateChat 20 "bob" "alice" r1.1 in
  r2.2 = 1%nat ∧ r1.2 = 1%nat ∧ length r2.1 = 2%nat
  ∧ length (pairRecords "alice" "bob" r1.1) = 1%nat.
Proof.
  assert (uniquePairs [newChat 5 "carol" "dave"]) as Hu.
  { intros a b. apply (length_filter (isPair a b) [_]). }
  destruct (findOrCreateChat_sequential 10 20 "alice" "bob" _ Hu)
    as (H1 & H2 & _ & H4); [done|].
  split_and!; [by rewrite H1|done|by rewrite H2|exact H4].
Defined.

(** C3, as stated, fails: two calls for the same pair that overlap at their
    awaits both miss in [findOne] and both save, leaving two records for
    the pair and resolving to different conversations. *)
Lemma concurrent_findOrCreateChat_duplicates :
  let r := runSchedule [0; 1; 0; 1]%nat
             [AtFind 0 "alice" "bob"; AtFind 0 "bob" "alice"] [] in
  r.2 = [Resolved 0; Resolved 1]
  ∧ length (pairRecords "alice" "bob" r.1) = 2%nat
  ∧ ¬ uniquePairs r.1.
Proof.
  split_and!; [done..|].
  intros H. specialize (H "alice" "bob").
  vm_compute in H. lia.
Qed.

(** ** Status advancement *)

Lemma rank_inj s1 s2 : rank s1 = rank s2 → s1 = s2.
Proof. by destruct s1, s2. Qed.

Lemma updateMany_lookup {A} (f : A → bool) (upd : A → A) coll i :
  (updateMany f upd coll).1 !! i
  = (λ x, if f x then upd x else x) <$> coll !! i.
Proof. unfold updateMany. simpl. apply list_lookup_fmap. Qed.

Lemma forwardOnly_refl l : forwardOnly l l.
Proof. intros i m Hi. exists m. by split_and!. Qed.

Lemma forwardOnly_trans l1 l2 l3 :
  forwardOnly l1 l2 → forwardOnly l2 l3 → forwardOnly l1 l3.
Proof.
  intros H12 H23 i m Hi.
  destruct (H12 i m Hi) as (m' & Hi' & Hle & Heq).
  destruct (H23 i m' Hi') as (m'' & Hi'' & Hle' & Heq').
  exists m''. split_and!; [done|lia|].
  intros Hs.
  assert (status m' = status m) as Hs'.
  { apply rank_inj. rewrite Hs in Hle'. lia. }
  rewrite <- (Heq Hs'). apply Heq'. congruence.
Qed.

(** A guarded update: the filter admits only documents strictly below the
    status that the update writes. *)
Lemma forwardOnly_updateMany f upd coll :
  (∀ m, f m = true → (rank (status m) < rank (status (upd m)))%nat) →
  forwardOnly coll (updateMany f upd coll).1.
Proof.
  intros Hup i m Hi. rewrite updateMany_lookup, Hi. simpl.
  destruct (f m) eqn:Hf.
  - exists (upd m). specialize (Hup m Hf).
    split_and!; [done|lia|]. intros Hs. rewrite Hs in Hup. lia.
  - exists m. by split_and!.
Qed.

Lemma forwardOnly_findOneAndUpdate id f upd coll :
  (∀ m, f m = true → (rank (status m) < rank (status (upd m)))%nat) →
  forwardOnly coll (findOneAndUpdate id f upd coll).1.
Proof.
  intros Hup. unfold findOneAndUpdate.
  destruct (coll !! id) as [x|] eqn:Hid; [|apply forwardOnly_refl].
  destruct (f x) eqn:Hf; [|apply forwardOnly_refl].
  simpl. intros i m Hi. rewrite list_lookup_alter.
  case_decide as Hd.
  - subst i. rewrite Hi. simpl. rewrite Hid in Hi. injection Hi as <-.
    specialize (Hup x Hf).
    exists (upd x). split_and!; [done|lia|].
    intros Hs. rewrite Hs in Hup. lia.
  - exists m. by split_and!.
Qed.

Lemma sent_to_delivered now m :
  status m = sent →
  (rank (status m) < rank (status (markDelivered now m)))%nat.
Proof. intros ->. simpl. lia. Qed.

Lemma delivered_to_read now m :
  status m = delivered →
  (rank (status m) < rank (status (markRead now m)))%nat.
Proof. intros ->. simpl. lia. Qed.

Ltac status_of_filter H :=
  revert H; unfold hasStatus;
  rewrite ?andb_true_iff, ?bool_decide_eq_true; tauto.

(** The delivery acknowledgment only moves a message forward. *)
Lemma http_delivered_forwardOnly env cred id st :
  forwardOnly (messages st) (messages (http_delivered env cred id st).1).
Proof.
  unfold http_delivered.
  destruct cred; try apply forwardOnly_refl.
  destruct (storeUp env); simpl; [|apply forwardOnly_refl].
  pose proof (forwardOnly_findOneAndUpdate id
    (λ m, bool_decide (status m = sent)) (markDelivered (clk env 0))
    (messages st)) as H.
  destruct (findOneAndUpdate _ _ _ _) as [msgs' [m'|]]; simpl.
  - apply H. intros m Hm. apply bool_decide_eq_true in Hm.
    rewrite Hm. simpl. lia.
  - destruct (messages st !! id); apply forwardOnly_refl.
Qed.

Lemma forwardOnly_map f upd coll :
  (∀ m, f m = true → (rank (status m) < rank (status (upd m)))%nat) →
  forwardOnly coll (map (λ x, if f x then upd x else x) coll).
Proof. exact (forwardOnly_updateMany f upd coll). Qed.

Ltac forward_map :=
  apply forwardOnly_map;
  let m := fresh "m" in
  let Hm := fresh "Hm" in
  intros m Hm;
  first [ apply sent_to_delivered | apply delivered_to_read ];
  status_of_filter Hm.

(** Read reconciliation over HTTP only moves messages forward. *)
Lemma http_read_forwardOnly env cred chat st :
  forwardOnly (messages st) (messages (http_read env cred chat st).1).
Proof.
  unfold http_read.
  destruct (readRouteMounted st); simpl; [|apply forwardOnly_refl].
  destruct cred; try apply forwardOnly_refl.
  destruct (storeUp env); simpl; [|apply forwardOnly_refl].
  eapply forwardOnly_trans; [|forward_map]; forward_map.
Qed.

(** Read reconciliation over the socket only moves messages forward. *)
Lemma message_read_socket_forwardOnly env sock chat st :
  forwardOnly (messages st)
    (messages (message_read_socket env sock chat st).1).
Proof.
  unfold message_read_socket.
  destruct (storeUp env); simpl; [|apply forwardOnly_refl].
  match goal with
  | |- forwardOnly _ (if _ then _ else ?msgs1) =>
      apply (forwardOnly_trans _ msgs1); [forward_map|]
  end.
  destruct (0 <? _)%nat; [|apply forwardOnly_refl].
  eapply forwardOnly_trans; [|forward_map]; forward_map.
Qed.

Lemma alter_app_last {A} (f : A → A) (l : list A) x :
  alter f (length l) (l ++ [x]) = l ++ [f x].
Proof. induction l as [|y l IH]; simpl; [done|]. by f_equal. Qed.

Lemma forwardOnly_app l l' : forwardOnly l (l ++ l').
Proof.
  intros i m Hi. exists m. split_and!; [|done..].
  rewrite lookup_app_l; [done|]. by eapply lookup_lt_Some.
Qed.

(** When handler runs do not interleave, every one of them only moves
    messages forward: the push path then updates the message it has just
    saved, which is still sent. *)
Lemma step_forwardOnly st r :
  forwardOnly (messages st) (messages (step st r).1).
Proof.
  destruct r as [env []]; unfold step; simpl; try apply forwardOnly_refl.
  - unfold connect. destruct cred; try apply forwardOnly_refl.
    destruct (users st !! uid); apply forwardOnly_refl.
  - unfold disconnect. destruct (socketById s st); apply forwardOnly_refl.
  - destruct (socketById s st) as [sock|]; [|apply forwardOnly_refl].
    unfold send_message, send_message_persist, send_message_deliver, save.
    destruct (falsyId receiverId || falsy text); [apply forwardOnly_refl|].
    destruct (storeUp env); simpl; [|apply forwardOnly_refl].
    destruct (castable _ _); simpl; [|apply forwardOnly_refl].
    destruct (findOrCreateChat _ _ _ _) as [chats' chat].
    case_bool_decide; [apply forwardOnly_refl|]. simpl.
    destruct (socketOf _ _); simpl; [|apply forwardOnly_app].
    unfold findByIdAndUpdate. rewrite alter_app_last. apply forwardOnly_app.
  - destruct (socketById s st) as [sock|]; [|apply forwardOnly_refl].
    apply message_read_socket_forwardOnly.
  - unfold http_send, save. destruct cred; try apply forwardOnly_refl.
    destruct (falsyId receiverId || falsy text); [apply forwardOnly_refl|].
    destruct (storeUp env); simpl; [|apply forwardOnly_refl].
    destruct (castable _ _); simpl; [|apply forwardOnly_refl].
    destruct (findOrCreateChat _ _ _ _) as [chats' chat].
    case_bool_decide; [apply forwardOnly_refl|]. apply forwardOnly_app.
  - apply http_delivered_forwardOnly.
  - apply http_read_forwardOnly.
  - rewrite (proj1 (http_chats_create_frame _ _ _ _)). apply forwardOnly_refl.
  - rewrite (proj1 (put_profile_frame _ _ _ _ _)). apply forwardOnly_refl.
Qed.

(** The delivered update of the push path (lines 917-920) carries no
    condition on the current status: whatever the stored document is by
    then, it is overwritten as delivered. *)
Lemma send_message_deliver_unguarded env sock p receiverSocket st m :
  storeUp env = true →
  socketOf (receiver (p_doc p)) st = Some receiverSocket →
  messages st !! p_id p = Some m →
  messages (send_message_deliver env sock p st).1 !! p_id p
  = Some (markDelivered (clk env 2) m).
Proof.
  intros Hup Hsock Hm. unfold send_message_deliver.
  rewrite Hup, Hsock. simpl. unfold findByIdAndUpdate.
  by rewrite list_lookup_alter_eq, Hm.
Qed.

(** C1: the push path breaks it.  Bob's read lands between the save and
    the delivered update of Alice's [send_message]; the update then takes
    the message from read back to delivered and overwrites [deliveredAt]. *)
Theorem push_delivered_update_moves_read_back :
  messages hiRead.1 !! 0%nat
  = Some (mkMessage 0 "alice" "bob" (lit "hi") 1000 read
            (Some 2000) (Some 2000))
  ∧ messages hiResumed.1 !! 0%nat
    = Some (mkMessage 0 "alice" "bob" (lit "hi") 1000 delivered
              (Some 3000) (Some 2000))
  ∧ ¬ forwardOnly (messages hiRead.1) (messages hiResumed.1).
Proof.
  assert (messages hiRead.1 !! 0%nat
          = Some (mkMessage 0 "alice" "bob" (lit "hi") 1000 read
                    (Some 2000) (Some 2000))) as Hread by (by vm_compute).
  split_and!; [done|by vm_compute|].
  intros H. destruct (H 0%nat _ Hread) as (m' & Hm' & Hle & _).
  vm_compute in Hm'. injection Hm' as <-. simpl in Hle. lia.
Qed.

(** ** Timestamps and status *)

Lemma timestampsAgree_newMessage chat from to text now :
  timestampsAgree (newMessage chat from to text now).
Proof.
  unfold timestampsAgree. simpl.
  split; split; try done; intros [? ?]; done.
Qed.

Lemma timestampsAgree_markDelivered now m :
  timestampsAgree m → status m = sent → timestampsAgree (markDelivered now m).
Proof.
  unfold timestampsAgree. simpl. intros [_ Hr] Hs. rewrite Hs in Hr.
  split; split.
  - done.
  - intros _. by eexists.
  - intros H. by apply Hr in H.
  - done.
Qed.

Lemma timestampsAgree_markRead now m :
  timestampsAgree m → status m = delivered → timestampsAgree (markRead now m).
Proof.
  unfold timestampsAgree. simpl. intros [Hd _] Hs. rewrite Hs in Hd.
  split; split.
  - done.
  - intros _. by apply Hd.
  - done.
  - intros _. by eexists.
Qed.

Lemma Forall_guarded_map {A} (P : A → Prop) f upd (l : list A) :
  (∀ x, P x → f x = true → P (upd x)) →
  Forall P l → Forall P (map (λ x, if f x then upd x else x) l).
Proof.
  intros Hupd Hl. apply Forall_fmap. eapply Forall_impl; [exact Hl|].
  intros x Hx. simpl. destruct (f x) eqn:Hf; auto.
Qed.

Ltac agree_map :=
  apply Forall_guarded_map;
  [ let m := fresh "m" in
    let Hm := fresh "Hm" in
    let Hf := fresh "Hf" in
    intros m Hm Hf;
    first [ apply timestampsAgree_markDelivered; [exact Hm|]
          | apply timestampsAgree_markRead; [exact Hm|] ];
    status_of_filter Hf
  | ].

(** When handler runs do not interleave, every one of them keeps the
    timestamps in agreement with the status. *)
Lemma step_timestampsAgree st r :
  Forall timestampsAgree (messages st) →
  Forall timestampsAgree (messages (step st r).1).
Proof.
  intros Hst. destruct r as [env []]; unfold step; simpl; try done.
  - unfold connect. destruct cred; try done. by destruct (users st !! uid).
  - unfold disconnect. by destruct (socketById s st).
  - destruct (socketById s st) as [sock|]; [|done].
    unfold send_message, send_message_persist, send_message_deliver, save.
    destruct (falsyId receiverId || falsy text); [done|].
    destruct (storeUp env); simpl; [|done].
    destruct (castable _ _); simpl; [|done].
    destruct (findOrCreateChat _ _ _ _) as [chats' chat].
    case_bool_decide; [done|]. simpl.
    destruct (socketOf _ _); simpl.
    + unfold findByIdAndUpdate. rewrite alter_app_last.
      apply Forall_app. split; [done|].
      apply Forall_singleton, timestampsAgree_markDelivered; [|done].
      apply timestampsAgree_newMessage.
    + apply Forall_app. split; [done|].
      apply Forall_singleton, timestampsAgree_newMessage.
  - destruct (socketById s st) as [sock|]; [|done].
    unfold message_read_socket. destruct (storeUp env); simpl; [|done].
    destruct (0 <? _)%nat; repeat agree_map; done.
  - unfold http_send, save. destruct cred; try done.
    destruct (falsyId receiverId || falsy text); [done|].
    destruct (storeUp env); simpl; [|done].
    destruct (castable _ _); simpl; [|done].
    destruct (findOrCreateChat _ _ _ _) as [chats' chat].
    case_bool_decide; [done|]. simpl.
    apply Forall_app. split; [done|].
    apply Forall_singleton, timestampsAgree_newMessage.
  - unfold http_delivered, findOneAndUpdate. destruct cred; try done.
    destruct (storeUp env); simpl; [|done].
    destruct (messages st !! messageId) as [x|] eqn:Hx; [|done].
    case_bool_decide as Hs; simpl; [|done].
    apply Forall_lookup. intros i m. rewrite list_lookup_alter.
    case_decide; [subst i; rewrite Hx; simpl; intros [= <-]|].
    + apply timestampsAgree_markDelivered; [|done].
      by eapply Forall_lookup_1.
    + intros Hi. by eapply Forall_lookup_1.
  - unfold http_read. destruct (readRouteMounted st); simpl; [|done].
    destruct cred; try done.
    destruct (storeUp env); simpl; [|done].
    repeat agree_map; done.
  - by rewrite (proj1 (http_chats_create_frame _ _ _ _)).
  - by rewrite (proj1 (put_profile_frame _ _ _ _ _)).
Qed.

(** C7: two places break it.  In src/server.js the race of the push
    update with a read leaves a delivered message that carries [readAt];
    the earlier handler stores [deliveredAt] on a message whose status is
    sent. *)
Theorem timestamps_disagree_with_status :
  (∃ m, messages hiResumed.1 !! 0%nat = Some m
        ∧ status m = delivered ∧ readAt m = Some 2000
        ∧ ¬ timestampsAgree m)
  ∧ (∃ m, messages earlierHi.1 !! 0%nat = Some m
          ∧ status m = sent ∧ deliveredAt m = Some 1000
          ∧ ¬ timestampsAgree m).
Proof.
  split; eexists; (split; [by vm_compute|]); simpl; split_and!; try done.
  - intros [_ H]. simpl in H. by assert (delivered = read) by (apply H; eauto).
  - intros [H _]. simpl in H. destruct H as [H _].
    by destruct H; [eauto|].
Qed.

(** ** The grace window *)

Lemma lookup_guarded_map {A} (f : A → bool) (upd : A → A) l i x :
  l !! i = Some x →
  map (λ x, if f x then upd x else x) l !! i = Some (if f x then upd x else x).
Proof. intros H. by rewrite list_lookup_fmap, H. Qed.







(** ** Submission to a receiver who is not connected *)

Lemma lookup_unmatched_map {A} (f : A → bool) (upd : A → A) l i x :
  l !! i = Some x → f x = false →
  map (λ x, if f x then upd x else x) l !! i = Some x.
Proof. intros H Hf. by rewrite (lookup_guarded_map f upd l i x H), Hf. Qed.





Lemma falsyId_nonempty rid : rid ≠ EmptyString → falsyId (Some rid) = false.
Proof. by destruct rid. Qed.

Lemma trim_nonempty_falsy text : trim text ≠ [] → falsy (Some text) = false.
Proof. by destruct text. Qed.

(** What [send_message] does for a valid submission to a receiver without
    a socket. *)
Lemma send_message_offline env sock rid text st :
  storeUp env = true → rid ≠ EmptyString → castable st rid = true →
  trim text ≠ [] →
  socketOf rid st = None →
  let chat :=
    (findOrCreateChat (clk env 0) (userId sock) rid (chats st)).2 in
  let m := newMessage chat (userId sock) rid (trim text) (clk env 1) in
  let st' :=
    setMessages (messages st ++ [m])
      (setChats (findOrCreateChat (clk env 0) (userId sock) rid (chats st)).1
         st) in
  let ack :=
    message_sent (sid sock) (length (messages st)) chat (trim text)
      (clk env 1) in
  send_message env sock (Some rid) (Some text) st
  = (st',
     [ack;
      chat_updated (sid sock) chat (userId sock) (fullName sock) (trim text)
        (clk env 1);
      ack]).
Proof.
  intros Hup Hrid Hcast Htext Hoff. simpl.
  unfold send_message, send_message_persist, send_message_deliver, save.
  rewrite (falsyId_nonempty _ Hrid), (trim_nonempty_falsy _ Htext), Hup.
  simpl. rewrite Hcast. simpl.
  destruct (findOrCreateChat _ _ _ _) as [chats' chat]. simpl.
  rewrite bool_decide_eq_false_2 by done. simpl.
  unfold socketOf in *. simpl. by rewrite Hoff.
Qed.

(** What [send_message] does for a valid submission to a connected
    receiver. *)
Lemma send_message_online env sock rid text st receiverSocket :
  storeUp env = true → rid ≠ EmptyString → trim text ≠ [] →
  socketOf rid st = Some receiverSocket →
  let chat :=
    (findOrCreateChat (clk env 0) (userId sock) rid (chats st)).2 in
  let m := newMessage chat (userId sock) rid (trim text) (clk env 1) in
  let ack :=
    message_sent (sid sock) (length (messages st)) chat (trim text)
      (clk env 1) in
  send_message env sock (Some rid) (Some text) st
  = (setMessages (messages st ++ [markDelivered (clk env 2) m])
       (setChats (findOrCreateChat (clk env 0) (userId sock) rid (chats st)).1
          st),
     [ack;
      chat_updated (sid sock) chat (userId sock) (fullName sock) (trim text)
        (clk env 1);
      new_message (sid receiverSocket) (length (messages st)) (trim text)
        (userId sock) (fullName sock) (clk env 1) chat rid sent;
      message_delivered (sid sock) (length (messages st)) (clk env 3);
      ack]).
Proof.
  intros Hup Hrid Htext Hon. simpl.
  unfold send_message, send_message_persist, send_message_deliver, save.
  rewrite (falsyId_nonempty _ Hrid), (trim_nonempty_falsy _ Htext), Hup.
  simpl. rewrite (socketOf_castable _ _ _ Hon). simpl.
  destruct (findOrCreateChat _ _ _ _) as [chats' chat]. simpl.
  rewrite bool_decide_eq_false_2 by done. simpl.
  unfold socketOf in *. simpl. rewrite Hon. simpl.
  unfold findByIdAndUpdate. by rewrite alter_app_last.
Qed.




(** The earlier handler stores [deliveredAt] although the receiver is not
    connected, and a fetch by the sender then reports delivered. *)
Lemma earlier_handler_stamps_deliveredAt :
  socketOf "bob" aliceConnected = None
  ∧ ∃ m, messages earlierHi.1 !! 0%nat = Some m
         ∧ deliveredAt m = Some 1000
         ∧ Earlier.fetchedStatus "alice" m = delivered.
Proof. split; [done|]. eexists. split; [by vm_compute|]. done. Qed.

(** ** Stored content *)

Lemma trimStart_spec s :
  ∃ l, s = l ++ trimStart s ∧ blank l
       ∧ ∀ c, head (trimStart s) = Some c → isWhiteSpace c = false.
Proof.
  induction s as [|c s (l & Hs & Hl & Hh)]; simpl.
  - exists []. by split_and!; [|constructor|].
  - destruct (isWhiteSpace c) eqn:Hc.
    + exists (c :: l). split_and!; [by rewrite Hs at 1|by constructor|done].
    + exists []. split_and!; [done|constructor|]. by intros ? [= <-].
Qed.

Lemma trimEnd_spec s :
  ∃ r, s = trimEnd s ++ r ∧ blank r
       ∧ ∀ c, last (trimEnd s) = Some c → isWhiteSpace c = false.
Proof.
  unfold trimEnd.
  destruct (trimStart_spec (reverse s)) as (l & Hs & Hl & Hh).
  exists (reverse l). split_and!.
  - by rewrite <- reverse_app, <- Hs, reverse_involutive.
  - unfold blank. by rewrite Forall_reverse.
  - intros c. rewrite last_reverse. apply Hh.
Qed.

(** [trim] removes a blank prefix and a blank suffix and leaves a string
    with no white space at either end. *)
Lemma trim_spec s :
  ∃ l r, s = l ++ trim s ++ r ∧ blank l ∧ blank r ∧ tight (trim s).
Proof.
  unfold trim.
  destruct (trimStart_spec s) as (l & Hs & Hl & Hh).
  destruct (trimEnd_spec (trimStart s)) as (r & Hs' & Hr & Ht).
  exists l, r. split_and!; try done.
  - by rewrite <- Hs'.
  - split; [|done]. intros c Hc. apply Hh.
    rewrite Hs'. destruct (trimEnd (trimStart s)); by simplify_eq/=.
Qed.

(** C10: on either transport the stored content is the submitted content
    trimmed, that is, without its blank prefix and suffix.  A submission
    either appends exactly one such message or stores none, and every
    event that carries the text carries the trimmed text.  A valid
    submission (store reachable, receiver id an ObjectId, text not blank)
    is stored with the trimmed text on both transports; over HTTP it is
    answered with the id of that message, and over the socket the
    acknowledgment, and the push when the receiver is connected, carry the
    trimmed text. *)
Theorem stored_content_is_trimmed env cred sock receiverId text st :
  (∃ l r, text = l ++ trim text ++ r ∧ blank l ∧ blank r ∧ tight (trim text))
  ∧ (messages (http_send env cred receiverId (Some text) st).1 = messages st
     ∨ ∃ m, messages (http_send env cred receiverId (Some text) st).1
            = messages st ++ [m]
            ∧ content m = trim text)
  ∧ (messages (send_message env sock receiverId (Some text) st).1
     = messages st
     ∨ ∃ m, messages (send_message env sock receiverId (Some text) st).1
            = messages st ++ [m]
            ∧ content m = trim text)
  ∧ Forall (λ e, ∀ t, eventText e = Some t → t = trim text)
      (send_message env sock receiverId (Some text) st).2
  ∧ ∀ uid rid,
      storeUp env = true → rid ≠ EmptyString → castable st rid = true →
      trim text ≠ [] →
      (∃ m, messages (http_send env (Token uid) (Some rid) (Some text) st).1
            = messages st ++ [m]
            ∧ content m = trim text
            ∧ (http_send env (Token uid) (Some rid) (Some text) st).2
              = [reply (sendOk (length (messages st)) (chatId m))])
      ∧ (∃ m, messages (send_message env sock (Some rid) (Some text) st).1
              = messages st ++ [m]
              ∧ content m = trim text
              ∧ message_sent (sid sock) (length (messages st)) (chatId m)
                  (trim text) (timestamp m)
                ∈ (send_message env sock (Some rid) (Some text) st).2
              ∧ ∀ receiverSocket,
                  socketOf rid st = Some receiverSocket →
                  new_message (sid receiverSocket) (length (messages st))
                    (trim text) (userId sock) (fullName sock) (timestamp m)
                    (chatId m) rid sent
                  ∈ (send_message env sock (Some rid) (Some text) st).2).
Proof.
  split; [apply trim_spec|]. split_and!.
  - unfold http_send, save. destruct cred; auto.
    destruct (falsyId receiverId || falsy (Some text)); auto.
    destruct (storeUp env); simpl; auto.
    destruct (castable _ _); simpl; auto.
    destruct (findOrCreateChat _ _ _ _) as [chats' chat].
    case_bool_decide; simpl; eauto.
  - unfold send_message, send_message_persist, send_message_deliver, save.
    destruct (falsyId receiverId || falsy (Some text)); auto.
    destruct (storeUp env); simpl; auto.
    destruct (castable _ _); simpl; auto.
    destruct (findOrCreateChat _ _ _ _) as [chats' chat].
    case_bool_decide; simpl; auto.
    destruct (socketOf _ _); simpl; [|by eauto].
    unfold findByIdAndUpdate. rewrite alter_app_last. by eauto.
  - unfold send_message, send_message_persist, send_message_deliver, save.
    destruct (falsyId receiverId || falsy (Some text)); [by constructor|].
    destruct (storeUp env); simpl; [|by repeat constructor].
    destruct (castable _ _); simpl; [|by repeat constructor].
    destruct (findOrCreateChat _ _ _ _) as [chats' chat].
    case_bool_decide; simpl; [by repeat constructor|].
    destruct (socketOf _ _); simpl;
      repeat constructor; simpl; intros; congruence.
  - intros uid rid Hup Hrid Hcast Htext. split.
    + unfold http_send, save.
      rewrite (falsyId_nonempty _ Hrid), (trim_nonempty_falsy _ Htext), Hup.
      simpl. rewrite Hcast. simpl.
      destruct (findOrCreateChat _ _ _ _) as [chats' chat]. simpl.
      rewrite bool_decide_eq_false_2 by done. simpl. by eexists.
    + destruct (socketOf rid st) as [receiverSocket|] eqn:Hs.
      * rewrite (send_message_online env sock rid text st receiverSocket
                   Hup Hrid Htext Hs).
        simpl. eexists. split_and!; [done..| |].
        -- apply list_elem_of_here.
        -- intros ? [= <-]. do 2 apply list_elem_of_further.
           apply list_elem_of_here.
      * rewrite (send_message_offline env sock rid text st
                   Hup Hrid Hcast Htext Hs).
        simpl. eexists. split_and!; [done..| |done].
        apply list_elem_of_here.
Qed.

Lemma stored_content_is_trimmed_witness :
  (∃ m, messages paddedHttp.1 = messages bothConnected ++ [m]
        ∧ content m = lit "hi")
  ∧ (∃ m, messages paddedSocket.1 = messages bothConnected ++ [m]
          ∧ content m = lit "hi"
          ∧ new_message (sid bob) 0 (lit "hi") "alice" "Alice" (timestamp m)
              (chatId m) "bob" sent ∈ paddedSocket.2).
Proof.
  destruct (stored_content_is_trimmed (at_time 1000) (Token "alice") alice
              (Some "bob") (lit "  hi ") bothConnected)
    as (_ & _ & _ & _ & Hvalid).
  destruct (Hvalid "alice" "bob") as [(m1 & H1 & Hc1 & _) (m2 & H2 & Hc2 & _ & Hp)];
    [reflexivity|done|by vm_compute|by vm_compute|].
  split.
  - exists m1. split; [exact H1|]. rewrite Hc1. by vm_compute.
  - exists m2. split_and!; [exact H2|rewrite Hc2; by vm_compute|].
    apply (Hp bob). by vm_compute.
Defined.

(** The text as submitted is not what is stored or echoed. *)
Lemma padded_content_is_not_kept :
  (content <$> messages paddedHttp.1 !! 0%nat) = Some (lit "hi")
  ∧ paddedHttp.2 = [reply (sendOk 0 0)]
  ∧ (content <$> messages paddedSocket.1 !! 0%nat) = Some (lit "hi")
  ∧ omap eventText paddedSocket.2 = [lit "hi"; lit "hi"; lit "hi"; lit "hi"]
  ∧ lit "hi" ≠ lit "  hi ".
Proof. split_and!; by vm_compute. Qed.

(** ** Responses to a submission *)

(** The HTTP path answers every submission with exactly one reply. *)
Lemma http_send_replies env cred receiverId text st :
  ∃ r, (http_send env cred receiverId text st).2 = [reply r].
Proof.
  unfold http_send, save. destruct cred; eauto.
  destruct (falsyId receiverId || falsy text); eauto.
  destruct (storeUp env); simpl; eauto.
  destruct (castable _ _); simpl; eauto.
  destruct (findOrCreateChat _ _ _ _) as [chats' chat].
  case_bool_decide; simpl; eauto.
Qed.

(** On the HTTP path a missing receiver or empty content is answered with
    status 400 and stores nothing. *)
Lemma http_send_rejects_invalid env uid receiverId text st :
  falsyId receiverId || falsy text = true →
  http_send env (Token uid) receiverId text st = (st, [reply (failure 400)]).
Proof. intros H. unfold http_send. by rewrite H. Qed.

(** On the HTTP path a valid submission is stored and acknowledged when
    the store is reachable, and answered with status 500 when it is not. *)
Lemma http_send_valid env uid rid text st :
  rid ≠ EmptyString → castable st rid = true → trim text ≠ [] →
  http_send env (Token uid) (Some rid) (Some text) st
  = if storeUp env then
      let r := findOrCreateChat (clk env 0) uid rid (chats st) in
      (setMessages
         (messages st ++ [newMessage r.2 uid rid (trim text) (clk env 1)])
         (setChats r.1 st),
       [reply (sendOk (length (messages st)) r.2)])
    else (st, [reply (failure 500)]).
Proof.
  intros Hrid Hcast Htext. unfold http_send, save.
  rewrite (falsyId_nonempty _ Hrid), (trim_nonempty_falsy _ Htext).
  destruct (storeUp env); simpl; [|done]. rewrite Hcast. simpl.
  destruct (findOrCreateChat _ _ _ _) as [chats' chat]. simpl.
  by rewrite bool_decide_eq_false_2.
Qed.

(** On the socket a valid submission is answered: with [message_sent]
    after the save, or with the failure event. *)
Lemma send_message_valid_answers env sock receiverId text st :
  falsyId receiverId || falsy text = false →
  (∃ id chat t ts,
     message_sent (sid sock) id chat t ts
     ∈ (send_message env sock receiverId text st).2)
  ∨ (send_message env sock receiverId text st).2
    = [message_sent_failed (sid sock)].
Proof.
  intros H.
  unfold send_message, send_message_persist, send_message_deliver, save.
  rewrite H. destruct (storeUp env); simpl; [|by right].
  destruct (castable _ _); simpl; [|by right].
  destruct (findOrCreateChat _ _ _ _) as [chats' chat].
  case_bool_decide; simpl; [by right|]. left.
  destruct (socketOf _ _); simpl; do 4 eexists; apply list_elem_of_here.
Qed.

(** On the socket a submission that fails validation gets no answer at
    all: nothing is stored and nothing is emitted. *)
Lemma send_message_invalid_is_silent env sock receiverId text st :
  falsyId receiverId || falsy text = true →
  send_message env sock receiverId text st = (st, []).
Proof.
  intros H. unfold send_message, send_message_persist. by rewrite H.
Qed.

(** C9: the socket path breaks it.  A [send_message] without a receiver,
    or with empty content, is dropped without any event to the sender,
    where the HTTP path answers the same input with status 400. *)
Theorem socket_validation_failure_is_silent :
  noReceiver = (bothConnected, [])
  ∧ noContent = (bothConnected, [])
  ∧ List.filter (reaches (sid alice)) noReceiver.2 = []
  ∧ (http_send (at_time 1000) (Token "alice") None (Some (lit "hi"))
       bothConnected).2 = [reply (failure 400)]
  ∧ (http_send (at_time 1000) (Token "alice") (Some "bob") (Some [])
       bothConnected).2 = [reply (failure 400)].
Proof. by split_and!. Qed.

(** ** Read notifications *)

(** C5: both transports break the second half.  A second read signal by
    Bob changes no message, yet Alice is notified again: over the socket
    with the count of everything already read, over HTTP with a count
    of 0. *)
Theorem second_read_signal_still_notifies :
  messages readTwice.1 = messages readOnce.1
  ∧ List.filter isReadNotification readTwice.2
    = [message_read 0 0 "bob" (Some "Bob") 3000 1]
  ∧ messages readTwiceHttp.1 = messages readOnceHttp.1
  ∧ reply (readOk 0 0 0) ∈ readTwiceHttp.2
  ∧ List.filter isReadNotification readTwiceHttp.2
    = [message_read 0 0 "bob" None 3000 0].
Proof.
  split_and!; try (by vm_compute).
  vm_compute. apply list_elem_of_further, list_elem_of_here.
Qed.

(** C6: both transports break the count.  Over the socket the count
    includes the message Bob had read before; over HTTP a message bumped
    through the grace window is counted once as delivered and once as
    read. *)
Theorem read_notification_count_is_off :
  newlyRead "alice" (messages againDelivered.1) (messages readAgain.1) = 1%nat
  ∧ readAgain.2 = [message_read 0 0 "bob" (Some "Bob") 4000 2]
  ∧ newlyRead "alice" (messages hiSaved.1.1) (messages hiRead.1) = 1%nat
  ∧ hiRead.2 = [message_read 0 0 "bob" None 2000 2; reply (readOk 1 1 2)].
Proof. split_and!; by vm_compute. Qed.

(** ** Presence *)

Lemma isOnline_after_offline env uid st :
  isOnline uid (_updateUserOfflineStatus env uid st).1 = false.
Proof.
  unfold isOnline, _updateUserOfflineStatus. simpl.
  destruct (onlineUsers st) as [s|]; simpl; [|done].
  apply bool_decide_eq_false.
  rewrite elem_of_difference, elem_of_singleton. tauto.
Qed.

Lemma find_is_Some {A} (f : A → bool) (l : list A) x :
  x ∈ l → f x = true → is_Some (List.find f l).
Proof.
  intros Hin Hf. destruct (List.find f l) eqn:E; [by eexists|].
  apply list_elem_of_In in Hin.
  pose proof (find_none f l E x Hin). congruence.
Qed.

(** C8, as the code has it: the online set is keyed by user id alone and
    holds no channel handle, so the disconnect of any socket of a user
    removes that user from the set whatever other sockets the user has,
    and the status lookup then reports the user offline.  Only the socket
    table tells the connections apart: the other sockets of the user stay
    in it, and the lookup that delivery uses still finds one of them. *)
Theorem disconnect_unregisters_unconditionally env s sock other st :
  socketById s st = Some sock →
  other ∈ sockets st →
  sid other ≠ s →
  userId other = userId sock →
  isOnline (userId sock) (disconnect env s st).1 = false
  ∧ other ∈ sockets (disconnect env s st).1
  ∧ is_Some (socketOf (userId sock) (disconnect env s st).1).
Proof.
  intros Hs Hin Hne Huser. unfold disconnect. rewrite Hs.
  split; [apply isOnline_after_offline|].
  assert (other ∈ List.filter (λ x, negb (sid x =? s)%nat) (sockets st)) as H.
  { apply list_elem_of_In, filter_In. split; [by apply list_elem_of_In|].
    apply negb_true_iff, Nat.eqb_neq, Hne. }
  split; [exact H|].
  unfold socketOf. simpl. eapply find_is_Some; [exact H|].
  rewrite Huser. apply String.eqb_refl.
Qed.

Lemma disconnect_unregisters_unconditionally_witness :
  let st := (run (initial accounts) aliceTwice).1 in
  isOnline (userId alice) (disconnect (at_time 7000) 0 st).1 = false
  ∧ mkSocket 1 "alice" "Alice" ∈ sockets (disconnect (at_time 7000) 0 st).1
  ∧ is_Some (socketOf (userId alice) (disconnect (at_time 7000) 0 st).1).
Proof.
  intros st.
  apply (disconnect_unregisters_unconditionally (at_time 7000) 0 alice
           (mkSocket 1 "alice" "Alice") st).
  - by vm_compute.
  - vm_compute. apply list_elem_of_further, list_elem_of_here.
  - simpl. lia.
  - reflexivity.
Defined.

(** C8, as stated, fails: Alice is online on a newer socket when the
    disconnect of her first socket arrives; the handler removes her from
    the online set, and the status lookup reports her offline while her
    newer socket is still connected. *)
Lemma stale_disconnect_evicts_newer_connection :
  let before := (run (initial accounts) aliceTwice).1 in
  let after := (run before staleDisconnect).1 in
  isOnline "alice" before = true
  ∧ sockets before = [mkSocket 0 "alice" "Alice"; mkSocket 1 "alice" "Alice"]
  ∧ sockets after = [mkSocket 1 "alice" "Alice"]
  ∧ isOnline "alice" after = false
  ∧ get_user_status "alice" after = [reply (statusOk "alice" false)].
Proof. split_and!; by vm_compute. Qed.

(** ** A second read signal transitions nothing *)

Lemma guarded_map_unmatched {A} (f : A → bool) (upd : A → A) l :
  Forall (λ x, f x = false) l →
  map (λ x, if f x then upd x else x) l = l
  ∧ List.filter f l = [].
Proof.
  induction 1 as [|x l Hx Hl [IH1 IH2]]; [done|].
  simpl. by rewrite Hx, IH1, IH2.
Qed.

(** After the two updates of the HTTP read, no message of the
    conversation addressed to the reader is delivered, and none that is
    still sent falls into a later grace window. *)
Lemma http_read_settles chat reader t1 d1 r1 t2 x :
  t1 ≤ t2 →
  let g1 := λ x, if toReader chat reader x && hasStatus sent x
                    && recent t1 x
                 then markDelivered d1 x else x in
  let g2 := λ x, if toReader chat reader x && hasStatus delivered x
                 then markRead r1 x else x in
  toReader chat reader (g2 (g1 x)) && hasStatus sent (g2 (g1 x))
  && recent t2 (g2 (g1 x)) = false
  ∧ toReader chat reader (g2 (g1 x)) && hasStatus delivered (g2 (g1 x))
    = false.
Proof.
  intros Ht g1 g2. subst g1 g2. cbv beta.
  destruct x as [c s r ct ts st d ra].
  unfold toReader, hasStatus, recent. simpl.
  destruct (bool_decide (c = chat)) eqn:B1;
    destruct (String.eqb r reader) eqn:B2;
    destruct st; destruct (t1 - 60000 <=? ts) eqn:R;
    simpl; rewrite ?B1, ?B2; simpl; rewrite ?B1, ?B2; simpl; try done.
  split; [|done]. apply Z.leb_gt. apply Z.leb_gt in R. lia.
Qed.

(** The count half of idempotence, on the HTTP path: a second read signal
    for the same conversation and reader, with nothing in between,
    changes no message and reports zero transitions. *)
Lemma http_read_again_transitions_nothing env1 env2 reader chat st :
  readRouteMounted st = true →
  storeUp env1 = true → storeUp env2 = true →
  clk env1 0 ≤ clk env2 0 →
  messages (http_read env2 (Token reader) chat
              (http_read env1 (Token reader) chat st).1).1
  = messages (http_read env1 (Token reader) chat st).1
  ∧ reply (readOk 0 0 0)
    ∈ (http_read env2 (Token reader) chat
         (http_read env1 (Token reader) chat st).1).2.
Proof.
  intros Hroute Hup1 Hup2 Hclk. unfold http_read.
  rewrite Hroute, Hup1. simpl. rewrite Hroute, Hup2. simpl.
  match goal with
  | |- context [map ?g2 (map ?g1 (messages st))] =>
      set (settled := map g2 (map g1 (messages st)))
  end.
  assert (Forall (λ y, toReader chat reader y && hasStatus sent y
                       && recent (clk env2 0) y = false) settled
          ∧ Forall (λ y, toReader chat reader y && hasStatus delivered y
                         = false) settled) as [Hsent Hdelivered].
  { subst settled.
    split; apply Forall_fmap, Forall_fmap, Forall_forall; intros x _;
      apply (http_read_settles chat reader (clk env1 0) (clk env1 1)
               (clk env1 2) (clk env2 0) x Hclk). }
  destruct (guarded_map_unmatched _ (markDelivered (clk env2 1)) _ Hsent)
    as [Hmap1 Hcount1].
  destruct (guarded_map_unmatched _ (markRead (clk env2 2)) _ Hdelivered)
    as [Hmap2 Hcount2].
  rewrite Hmap1, Hcount1, Hmap2, Hcount2. simpl.
  split; [done|]. apply elem_of_app. right. apply list_elem_of_here.
Qed.

(** ** One notification per sender *)

Lemma setOf_fold_NoDup (l acc : list string) :
  NoDup acc →
  NoDup (fold_left (λ acc x, if bool_decide (x ∈ acc) then acc else acc ++ [x])
           l acc).
Proof.
  revert acc. induction l as [|x l IH]; intros acc Hacc; [done|].
  simpl. apply IH. case_bool_decide as Hx; [done|].
  apply NoDup_app. split_and!; [done| |apply NoDup_singleton].
  intros y Hy ->%list_elem_of_singleton. done.
Qed.

(** The socket path lists every sender once, whatever the number of
    their messages. *)
Lemma setOf_NoDup l : NoDup (setOf l).
Proof. apply setOf_fold_NoDup, NoDup_nil_2. Qed.

(** Each listed sender gets at most one [message_read] event. *)
Lemma notifySender_at_most_one env reader chat updated st k senderId :
  (length (notifySender env reader chat updated st k senderId) ≤ 1)%nat.
Proof. unfold notifySender. destruct (socketOf senderId st); simpl; lia. Qed.

(** * Further properties of the handlers *)

(** ** What a handler run does to the message store *)

Lemma evolves_trans m1 m2 m3 : evolves m1 m2 → evolves m2 m3 → evolves m1 m3.
Proof. intros H12 H23. induction H23; [done|constructor; auto..]. Qed.

Lemma evolves_sameLetter m m' : evolves m m' → sameLetter m m'.
Proof.
  induction 1 as [|now m m' _ IH|now m m' _ IH];
    [by unfold sameLetter|exact IH..].
Qed.

Lemma Forall2_evolves_refl l : Forall2 evolves l l.
Proof. apply Forall2_same_length_lookup. split; [done|].
  intros i x y Hx Hy. simplify_eq. constructor. Qed.

Lemma Forall2_evolves_trans l1 l2 l3 :
  Forall2 evolves l1 l2 → Forall2 evolves l2 l3 → Forall2 evolves l1 l3.
Proof.
  intros H12. revert l3.
  induction H12; intros l3 H23; inversion H23; subst; constructor;
    eauto using evolves_trans.
Qed.

Lemma Forall2_evolves_map (f : Message → bool) (mark : Message → Message) l :
  (∀ x, evolves x (mark x)) →
  Forall2 evolves l (map (λ x, if f x then mark x else x) l).
Proof.
  intros Hmark. induction l as [|x l IH]; simpl; constructor; [|done].
  destruct (f x); [apply Hmark|constructor].
Qed.

Lemma Forall2_evolves_alter now i l :
  Forall2 evolves l (alter (markDelivered now) i l).
Proof.
  revert i. induction l as [|x l IH]; intros [|i]; simpl; constructor;
    try apply Forall2_evolves_refl; try apply IH; repeat constructor.
Qed.

Lemma evolves_markDelivered now x : evolves x (markDelivered now x).
Proof. repeat constructor. Qed.

Lemma evolves_markRead now x : evolves x (markRead now x).
Proof. repeat constructor. Qed.

Ltac evolve_maps :=
  repeat first
    [ apply Forall2_evolves_refl
    | apply Forall2_evolves_map;
      [ first [apply evolves_markDelivered | apply evolves_markRead] ]
    | eapply Forall2_evolves_trans;
      [ | apply Forall2_evolves_map;
          first [apply evolves_markDelivered | apply evolves_markRead] ] ].

Lemma runShape_evolved before after :
  Forall2 evolves before (messages after) → runShape before after.
Proof.
  intros H. exists (messages after), []. rewrite app_nil_r.
  by split_and!; [| |left].
Qed.

Lemma runShape_same st st' : messages st' = messages st →
  runShape (messages st) st'.
Proof.
  intros H. apply runShape_evolved. rewrite H. apply Forall2_evolves_refl.
Qed.

Lemma runShape_appended before st chat from to text now m' c :
  trim text ≠ [] →
  evolves (newMessage chat from to (trim text) now) m' →
  chats st !! chat = Some c → pairFilter from to c = true →
  messages st = before ++ [m'] →
  runShape before st.
Proof.
  intros Htext Hev Hc Hp Hm. exists before, [m'].
  split_and!; [done|apply Forall2_evolves_refl|].
  right. exists chat, from, to, text, now, m'. by eauto 10.
Qed.

(** Every handler run has that shape. *)
Lemma step_messages st r : runShape (messages st) (step st r).1.
Proof.
  destruct r as [env []]; unfold step; simpl; try (by apply runShape_same).
  - unfold connect. destruct cred; try (by apply runShape_same).
    destruct (users st !! uid); by apply runShape_same.
  - unfold disconnect. destruct (socketById s st); by apply runShape_same.
  - destruct (socketById s st) as [sock|]; [|by apply runShape_same].
    unfold send_message, send_message_persist, send_message_deliver, save.
    destruct (falsyId receiverId || falsy text); [by apply runShape_same|].
    destruct (storeUp env); simpl; [|by apply runShape_same].
    destruct (castable _ _); simpl; [|by apply runShape_same].
    pose proof (findOrCreateChat_matches (clk env 0) (userId sock)
                  (default EmptyString receiverId) (chats st)) as (c & Hc & Hp).
    destruct (findOrCreateChat _ _ _ _) as [chats' chat]. simpl in *.
    case_bool_decide as Hempty; simpl; [by apply runShape_same|].
    destruct (socketOf _ _); simpl.
    + unfold findByIdAndUpdate. rewrite alter_app_last.
      eapply runShape_appended;
        [exact Hempty|apply evolves_markDelivered|exact Hc|exact Hp|done].
    + eapply runShape_appended;
        [exact Hempty|constructor|exact Hc|exact Hp|done].
  - destruct (socketById s st) as [sock|]; [|by apply runShape_same].
    unfold message_read_socket.
    destruct (storeUp env); simpl; [|by apply runShape_same].
    apply runShape_evolved. simpl. destruct (0 <? _)%nat; evolve_maps.
  - unfold http_send, save. destruct cred; try (by apply runShape_same).
    destruct (falsyId receiverId || falsy text); [by apply runShape_same|].
    destruct (storeUp env); simpl; [|by apply runShape_same].
    destruct (castable _ _); simpl; [|by apply runShape_same].
    pose proof (findOrCreateChat_matches (clk env 0) uid
                  (default EmptyString receiverId) (chats st)) as (c & Hc & Hp).
    destruct (findOrCreateChat _ _ _ _) as [chats' chat]. simpl in *.
    case_bool_decide as Hempty; simpl; [by apply runShape_same|].
    eapply runShape_appended;
      [exact Hempty|constructor|exact Hc|exact Hp|done].
  - unfold http_delivered, findOneAndUpdate.
    destruct cred; try (by apply runShape_same).
    destruct (storeUp env); simpl; [|by apply runShape_same].
    destruct (messages st !! messageId) as [x|]; [|by apply runShape_same].
    case_bool_decide; simpl; [|by apply runShape_same].
    apply runShape_evolved, Forall2_evolves_alter.
  - unfold http_read.
    destruct (readRouteMounted st); simpl; [|by apply runShape_same].
    destruct cred; try (by apply runShape_same).
    destruct (storeUp env); simpl; [|by apply runShape_same].
    apply runShape_evolved. simpl. evolve_maps.
  - apply runShape_same. apply http_chats_create_frame.
  - apply runShape_same. apply put_profile_frame.
Qed.

Lemma sameLetter_trans m1 m2 m3 :
  sameLetter m1 m2 → sameLetter m2 m3 → sameLetter m1 m3.
Proof. unfold sameLetter. intros (?&?&?&?&?) (?&?&?&?&?). split_and!; congruence. Qed.

Lemma runShape_lookup before after i m :
  runShape before after → before !! i = Some m →
  ∃ m', messages after !! i = Some m' ∧ evolves m m'.
Proof.
  intros (evolved & tail & Hm & Hev & _) Hi.
  destruct (Forall2_lookup_l _ _ _ _ _ Hev Hi) as (m' & Hi' & Hmm').
  exists m'. split; [|done]. rewrite Hm. by apply lookup_app_l_Some.
Qed.

(** Over any sequence of handler runs a stored message is never removed
    and never edited: conversation, sender, receiver, text and timestamp
    stay what they were at the save, and the status does not go back. *)
Theorem stored_message_is_never_edited st trace i m :
  messages st !! i = Some m →
  ∃ m', messages (run st trace).1 !! i = Some m'
        ∧ sameLetter m m'
        ∧ (rank (status m) ≤ rank (status m'))%nat.
Proof.
  revert st m. induction trace as [|r trace IH]; intros st m Hi; simpl.
  { exists m. by split_and!; [|unfold sameLetter|]. }
  destruct (runShape_lookup _ _ i m (step_messages st r) Hi) as (m1 & Hi1 & Hev).
  destruct (step_forwardOnly st r i m Hi) as (m1' & Hi1' & Hle & _).
  rewrite Hi1 in Hi1'. injection Hi1' as <-.
  destruct (step st r) as [st1 ev1]. simpl in *.
  destruct (IH st1 m1 Hi1) as (m' & Hi' & Hletter & Hle').
  destruct (run st1 trace) as [st2 ev2]. simpl in *.
  exists m'. split_and!; [done| |lia].
  eapply sameLetter_trans; [by apply evolves_sameLetter|done].
Qed.

Lemma stored_message_is_never_edited_witness :
  ∃ m', messages (run hiOffline.1 session).1 !! 0%nat = Some m'
        ∧ sameLetter (newMessage 0 "alice" "bob" (lit "hi") 1000) m'
        ∧ (rank (status (newMessage 0 "alice" "bob" (lit "hi") 1000))
           ≤ rank (status m'))%nat.
Proof.
  apply (stored_message_is_never_edited hiOffline.1 session 0).
  by vm_compute.
Defined.

Lemma contentOk_evolves m m' : evolves m m' → contentOk m → contentOk m'.
Proof.
  intros Hev. apply evolves_sameLetter in Hev as (_&_&_&Hc&_).
  unfold contentOk. by rewrite Hc.
Qed.

Lemma contentOk_new chat from to text now :
  trim text ≠ [] → contentOk (newMessage chat from to (trim text) now).
Proof.
  intros H. split; [done|]. simpl.
  by destruct (trim_spec text) as (_ & _ & _ & _ & _ & Ht).
Qed.

Lemma step_contentOk st r :
  Forall contentOk (messages st) → Forall contentOk (messages (step st r).1).
Proof.
  intros Hst. destruct (step_messages st r) as (evolved & tail & -> & Hev & Ht).
  apply Forall_app. split.
  - apply Forall_lookup. intros i m' Hi.
    destruct (Forall2_lookup_r _ _ _ _ _ Hev Hi) as (m & Hm & Hmm').
    eapply contentOk_evolves; [done|]. by eapply Forall_lookup_1.
  - destruct Ht as [-> | (chat & from & to & text & now & m' & -> & Hne & Hev' & _)];
      [done|].
    apply Forall_singleton. eapply contentOk_evolves; [done|].
    by apply contentOk_new.
Qed.

(** Stored text is never empty and never starts or ends with white space:
    every handler run keeps that. *)
Theorem stored_content_stays_clean st trace :
  Forall contentOk (messages st) →
  Forall contentOk (messages (run st trace).1).
Proof.
  revert st. induction trace as [|r trace IH]; intros st Hst; [done|].
  simpl. pose proof (step_contentOk st r Hst) as H1.
  destruct (step st r) as [st1 ev1]. specialize (IH st1 H1).
  by destruct (run st1 trace).
Qed.

Lemma stored_content_stays_clean_witness :
  Forall contentOk (messages (run (initial accounts) session).1)
  ∧ length (messages (run (initial accounts) session).1) = 2%nat.
Proof.
  split; [|by vm_compute].
  apply (stored_content_stays_clean (initial accounts) session).
  constructor.
Defined.

(** When handler runs do not interleave, the timestamps of every stored
    message agree with its status after any sequence of runs. *)
Theorem timestamps_agree_over_runs st trace :
  Forall timestampsAgree (messages st) →
  Forall timestampsAgree (messages (run st trace).1).
Proof.
  revert st. induction trace as [|r trace IH]; intros st Hst; [done|].
  simpl. pose proof (step_timestampsAgree st r Hst) as H1.
  destruct (step st r) as [st1 ev1]. specialize (IH st1 H1).
  by destruct (run st1 trace).
Qed.

Lemma timestamps_agree_over_runs_witness :
  Forall timestampsAgree (messages (run (initial accounts) session).1)
  ∧ status <$> messages (run (initial accounts) session).1 = [read; read].
Proof.
  split; [|by vm_compute].
  apply (timestamps_agree_over_runs (initial accounts) session).
  constructor.
Defined.

(** ** Conversations of stored messages *)

Lemma findOrCreateChat_grows now a b coll :
  ∃ more, (findOrCreateChat now a b coll).1 = coll ++ more.
Proof.
  unfold findOrCreateChat.
  destruct (findOne _ _) as [[i c]|]; simpl; [exists []; by rewrite app_nil_r|].
  by eexists.
Qed.

(** Conversations are only ever appended. *)
Lemma step_chats_grow st r : ∃ more, chats (step st r).1 = chats st ++ more.
Proof.
  assert (∃ more, chats st = chats st ++ more) as Hrefl
    by (exists []; by rewrite app_nil_r).
  destruct r as [env []]; unfold step; simpl; try exact Hrefl.
  - unfold connect. destruct cred; try exact Hrefl.
    by destruct (users st !! uid).
  - unfold disconnect. by destruct (socketById s st).
  - destruct (socketById s st) as [sock|]; [|exact Hrefl].
    unfold send_message, send_message_persist, send_message_deliver, save.
    destruct (falsyId receiverId || falsy text); [exact Hrefl|].
    destruct (storeUp env); simpl; [|exact Hrefl].
    destruct (castable _ _); simpl; [|exact Hrefl].
    pose proof (findOrCreateChat_grows (clk env 0) (userId sock)
                  (default EmptyString receiverId) (chats st)) as Hg.
    destruct (findOrCreateChat _ _ _ _) as [chats' chat]. simpl in *.
    case_bool_decide; simpl; [exact Hg|].
    by destruct (socketOf _ _).
  - destruct (socketById s st) as [sock|]; [|exact Hrefl].
    unfold message_read_socket. by destruct (storeUp env).
  - unfold http_send, save. destruct cred; try exact Hrefl.
    destruct (falsyId receiverId || falsy text); [exact Hrefl|].
    destruct (storeUp env); simpl; [|exact Hrefl].
    destruct (castable _ _); simpl; [|exact Hrefl].
    pose proof (findOrCreateChat_grows (clk env 0) uid
                  (default EmptyString receiverId) (chats st)) as Hg.
    destruct (findOrCreateChat _ _ _ _) as [chats' chat]. simpl in *.
    by case_bool_decide.
  - unfold http_delivered, findOneAndUpdate. destruct cred; try exact Hrefl.
    destruct (storeUp env); simpl; [|exact Hrefl].
    destruct (messages st !! messageId) as [x|]; [|exact Hrefl].
    by case_bool_decide.
  - unfold http_read. destruct (readRouteMounted st); simpl; [|exact Hrefl].
    destruct cred; try exact Hrefl.
    by destruct (storeUp env).
  - unfold http_chats_create. destruct cred; try exact Hrefl.
    destruct (falsyId participantId); [exact Hrefl|].
    destruct (storeUp env); simpl; [|exact Hrefl].
    destruct (castable _ _); simpl; [|exact Hrefl].
    pose proof (findOrCreateChat_grows (clk env 0) uid
                  (default EmptyString participantId) (chats st)) as Hg.
    destruct (findOrCreateChat _ _ _ _) as [chats' chat]. simpl in *.
    by destruct (users st !! _).
  - rewrite (proj1 (proj2 (put_profile_frame _ _ _ _ _))). exact Hrefl.
Qed.

Lemma inItsChat_evolves st st' m m' :
  (∃ more, chats st' = chats st ++ more) →
  evolves m m' → inItsChat st m → inItsChat st' m'.
Proof.
  intros [more Hg] Hev (c & Hc & Hp).
  apply evolves_sameLetter in Hev as (Hchat & Hs & Hr & _).
  exists c. rewrite Hchat, Hs, Hr, Hg. split; [|done].
  by apply lookup_app_l_Some.
Qed.

Lemma step_inItsChat st r :
  Forall (inItsChat st) (messages st) →
  Forall (inItsChat (step st r).1) (messages (step st r).1).
Proof.
  intros Hst. pose proof (step_chats_grow st r) as Hg.
  destruct (step_messages st r) as (evolved & tail & Hm & Hev & Ht).
  rewrite Hm. apply Forall_app. split.
  - apply Forall_lookup. intros i m' Hi.
    destruct (Forall2_lookup_r _ _ _ _ _ Hev Hi) as (m & Hm0 & Hmm').
    eapply inItsChat_evolves; [exact Hg|exact Hmm'|].
    by eapply Forall_lookup_1.
  - destruct Ht as [-> | (chat & from & to & text & now & m' & -> & _ & Hev'
                          & c & Hc & Hp)]; [done|].
    apply Forall_singleton.
    apply evolves_sameLetter in Hev' as (Hchat & Hs & Hr & _).
    exists c. by rewrite Hchat, Hs, Hr.
Qed.

(** Every stored message points to an existing conversation, one with
    two participants that include its sender and its receiver; every
    handler run keeps that. *)
Theorem messages_stay_in_their_chats st trace :
  Forall (inItsChat st) (messages st) →
  Forall (inItsChat (run st trace).1) (messages (run st trace).1).
Proof.
  revert st. induction trace as [|r trace IH]; intros st Hst; [done|].
  simpl. pose proof (step_inItsChat st r Hst) as H1.
  destruct (step st r) as [st1 ev1]. specialize (IH st1 H1).
  by destruct (run st1 trace).
Qed.

Lemma messages_stay_in_their_chats_witness :
  Forall (inItsChat (run (initial accounts) session).1)
    (messages (run (initial accounts) session).1)
  ∧ chatId <$> messages (run (initial accounts) session).1 = [0; 0]%nat.
Proof.
  split; [|by vm_compute].
  apply (messages_stay_in_their_chats (initial accounts) session).
  constructor.
Defined.

(** ** Sockets and presence *)

(** Only a handshake and a disconnect change the socket table; only a
    profile update changes the accounts. *)
Lemma step_frame st r :
  (match r.2 with
   | PutProfile _ _ _ => True
   | _ => users (step st r).1 = users st
   end)
  ∧ (match r.2 with
     | Connect _ | Disconnect _ => True
     | _ => sockets (step st r).1 = sockets st
            ∧ nextSid (step st r).1 = nextSid st
     end).
Proof.
  destruct r as [env []]; unfold step; simpl; try done.
  - unfold connect. destruct cred; try done. by destruct (users st !! uid).
  - unfold disconnect. by destruct (socketById s st).
  - destruct (socketById s st) as [sock|]; [|done].
    unfold send_message, send_message_persist, send_message_deliver, save.
    destruct (falsyId receiverId || falsy text); [done|].
    destruct (storeUp env); simpl; [|done].
    destruct (castable _ _); simpl; [|done].
    destruct (findOrCreateChat _ _ _ _) as [chats' chat]. simpl.
    case_bool_decide; simpl; [done|].
    by destruct (socketOf _ _).
  - destruct (socketById s st) as [sock|]; [|done].
    unfold message_read_socket. by destruct (storeUp env).
  - unfold http_send, save. destruct cred; try done.
    destruct (falsyId receiverId || falsy text); [done|].
    destruct (storeUp env); simpl; [|done].
    destruct (castable _ _); simpl; [|done].
    destruct (findOrCreateChat _ _ _ _) as [chats' chat]. simpl.
    by case_bool_decide.
  - unfold http_delivered, findOneAndUpdate. destruct cred; try done.
    destruct (storeUp env); simpl; [|done].
    destruct (messages st !! messageId) as [x|]; [|done].
    by case_bool_decide.
  - unfold http_read. destruct (readRouteMounted st); simpl; [|done].
    destruct cred; try done.
    by destruct (storeUp env).
  - pose proof (http_chats_create_frame env cred participantId st)
      as (_ & ? & ? & ? & _). done.
  - pose proof (put_profile_frame env cred fullName0 refused st)
      as (_ & _ & ? & ? & _). done.
Qed.

Lemma NoDup_sid_filter (f : Socket → bool) l :
  NoDup (map sid l) → NoDup (map sid (List.filter f l)).
Proof.
  induction l as [|x l IH]; simpl; [done|].
  intros [Hx Hl]%NoDup_cons. destruct (f x); simpl; [|by apply IH].
  apply NoDup_cons. split; [|by apply IH].
  intros Hin. apply Hx.
  apply list_elem_of_fmap in Hin as (y & -> & Hy).
  apply list_elem_of_fmap. exists y. split; [done|].
  apply list_elem_of_In, filter_In in Hy as [Hy _]. by apply list_elem_of_In.
Qed.

Lemma Forall_List_filter {A} (P : A → Prop) (f : A → bool) l :
  Forall P l → Forall P (List.filter f l).
Proof.
  induction 1 as [|x l Hx Hl IH]; simpl; [done|].
  destruct (f x); [by constructor|done].
Qed.

(** No handler adds or removes an account. *)
Lemma step_accounts st r id :
  is_Some (users (step st r).1 !! id) ↔ is_Some (users st !! id).
Proof.
  destruct (step_frame st r) as [Hu _]. destruct r as [env req].
  destruct req; unfold step in *; simpl in *;
    try done; try (by rewrite Hu).
  apply put_profile_accounts.
Qed.

Lemma step_socketsOk st r : socketsOk st → socketsOk (step st r).1.
Proof.
  intros [Hall Hdup].
  assert (∀ l, Forall (λ s, is_Some (users st !! userId s)
                            ∧ (sid s < nextSid st)%nat) l →
               Forall (λ s, is_Some (users (step st r).1 !! userId s)
                            ∧ (sid s < nextSid st)%nat) l) as Hacc.
  { intros l Hl. eapply Forall_impl; [exact Hl|]. intros s [? ?].
    split; [by apply step_accounts|done]. }
  destruct (step_frame st r) as [_ Hs].
  destruct r as [env req]. simpl in Hs.
  destruct req;
    try (unfold socketsOk; rewrite (proj1 Hs), (proj2 Hs);
         split; [by apply Hacc|done]).
  - unfold step, connect. simpl. destruct cred; try done.
    destruct (users st !! uid) as [name|] eqn:Hname; [|done].
    split; simpl.
    + apply Forall_app. split.
      * eapply Forall_impl; [exact Hall|]. simpl. intros s [? ?]. split; [done|lia].
      * apply Forall_singleton. simpl. split; [by rewrite Hname|lia].
    + rewrite map_app. simpl. apply NoDup_app. split_and!; [done| |apply NoDup_singleton].
      intros x Hx ->%list_elem_of_singleton.
      apply list_elem_of_fmap in Hx as (s & Hs' & Hin).
      rewrite Forall_forall in Hall. destruct (Hall s Hin) as [_ Hlt]. lia.
  - unfold step, disconnect. simpl.
    destruct (socketById s st) as [sock|]; [|done].
    split; simpl; [by apply Forall_List_filter|by apply NoDup_sid_filter].
Qed.

(** Every connected socket belongs to an existing account and no two
    sockets share an id: every handler run keeps that, a profile update
    included. *)
Theorem sockets_belong_to_accounts st trace :
  socketsOk st → socketsOk (run st trace).1.
Proof.
  revert st. induction trace as [|r trace IH]; intros st Hst; [done|].
  simpl. pose proof (step_socketsOk st r Hst) as H1.
  destruct (step st r) as [st1 ev1]. specialize (IH st1 H1).
  by destruct (run st1 trace).
Qed.

Lemma sockets_belong_to_accounts_witness :
  socketsOk (run (initial accounts) session).1
  ∧ sockets (run (initial accounts) session).1 = [mkSocket 1 "bob" "Bob"].
Proof.
  split; [|by vm_compute].
  apply (sockets_belong_to_accounts (initial accounts) session).
  split; constructor.
Defined.

(** Once in the online set, a user stays there through every handler run
    that is not the disconnect of one of their sockets; in particular no
    later connection, message or read signal of anyone removes them. *)
Theorem online_until_disconnect st r uid :
  isOnline uid st = true →
  disconnects uid st r.2 = false →
  isOnline uid (step st r).1 = true.
Proof.
  intros Hon Hd. destruct r as [env req].
  assert (∀ st', onlineUsers st' = onlineUsers st → isOnline uid st' = true)
    as Hsame by (intros st' H; unfold isOnline; by rewrite H).
  destruct req; unfold step; simpl in *; try (by apply Hsame).
  - apply Hsame. unfold connect. destruct cred; try done.
    by destruct (users st !! uid0).
  - unfold isOnline in *. simpl.
    destruct (onlineUsers st) as [s|]; simpl in *; [|done].
    apply bool_decide_eq_true in Hon. apply bool_decide_eq_true.
    apply elem_of_union. by left.
  - unfold disconnect. destruct (socketById s st) as [sock|]; [|done].
    unfold isOnline in *. simpl.
    destruct (onlineUsers st) as [online|]; simpl in *; [|done].
    apply bool_decide_eq_true in Hon. apply bool_decide_eq_true.
    apply elem_of_difference. split; [done|].
    rewrite elem_of_singleton. intros ->.
    by rewrite String.eqb_refl in Hd.
  - apply Hsame. destruct (socketById s st) as [sock|]; [|done].
    unfold send_message, send_message_persist, send_message_deliver, save.
    destruct (falsyId receiverId || falsy text); [done|].
    destruct (storeUp env); simpl; [|done].
    destruct (castable _ _); simpl; [|done].
    destruct (findOrCreateChat _ _ _ _) as [chats' chat]. simpl.
    case_bool_decide; simpl; [done|].
    by destruct (socketOf _ _).
  - apply Hsame. destruct (socketById s st) as [sock|]; [|done].
    unfold message_read_socket. by destruct (storeUp env).
  - apply Hsame. unfold http_send, save. destruct cred; try done.
    destruct (falsyId receiverId || falsy text); [done|].
    destruct (storeUp env); simpl; [|done].
    destruct (castable _ _); simpl; [|done].
    destruct (findOrCreateChat _ _ _ _) as [chats' chat]. simpl.
    by case_bool_decide.
  - apply Hsame. unfold http_delivered, findOneAndUpdate.
    destruct cred; try done.
    destruct (storeUp env); simpl; [|done].
    destruct (messages st !! messageId) as [x|]; [|done].
    by case_bool_decide.
  - apply Hsame. unfold http_read.
    destruct (readRouteMounted st); simpl; [|done].
    destruct cred; try done.
    by destruct (storeUp env).
  - apply Hsame. apply http_chats_create_frame.
  - apply Hsame. apply put_profile_frame.
Qed.

Lemma online_until_disconnect_witness :
  isOnline "alice"
    (step (run (initial accounts) aliceTwice).1
       (at_time 8000, Connect (Token "bob"))).1 = true.
Proof.
  apply (online_until_disconnect (run (initial accounts) aliceTwice).1
           (at_time 8000, Connect (Token "bob")) "alice"); by vm_compute.
Defined.

Lemma find_fresh_sid n (old : list Socket) new :
  Forall (λ s, (sid s < n)%nat) old → sid new = n →
  List.find (λ x, (sid x =? n)%nat) (old ++ [new]) = Some new
  ∧ List.filter (λ x, negb (sid x =? n)%nat) (old ++ [new]) = old.
Proof.
  intros Hold Hnew. induction Hold as [|x old Hx Hold [IH1 IH2]]; simpl.
  - by rewrite Hnew, Nat.eqb_refl.
  - replace (sid x =? n)%nat with false by (symmetry; apply Nat.eqb_neq; lia).
    simpl. by rewrite IH1, IH2.
Qed.

(** The timer that marks a user online is not cancelled by a disconnect:
    a user who connects and is disconnected before the timer fires ends
    in the online set with no socket, and the status lookup reports them
    online. *)
Theorem brief_visit_leaves_user_online st uid name e1 e2 e3 :
  socketsOk st →
  users st !! uid = Some name →
  socketOf uid st = None →
  isOnline uid (run st (briefVisit uid (nextSid st) e1 e2 e3)).1 = true
  ∧ sockets (run st (briefVisit uid (nextSid st) e1 e2 e3)).1 = sockets st
  ∧ socketOf uid (run st (briefVisit uid (nextSid st) e1 e2 e3)).1 = None.
Proof.
  intros [Hall _] Hname Hoff.
  assert (Forall (λ s, (sid s < nextSid st)%nat) (sockets st)) as Hlt.
  { eapply Forall_impl; [exact Hall|]. by intros s [_ ?]. }
  destruct (find_fresh_sid (nextSid st) (sockets st)
              (mkSocket (nextSid st) uid name) Hlt eq_refl) as [Hfind Hfilter].
  unfold briefVisit, run, step, connect, disconnect, socketById. simpl.
  rewrite Hname. simpl. rewrite Hfind. simpl. rewrite Hfilter.
  split_and!; [|done|exact Hoff].
  unfold isOnline. simpl. apply bool_decide_eq_true.
  apply elem_of_union. right. by apply elem_of_singleton.
Qed.

Lemma brief_visit_leaves_user_online_witness :
  isOnline "bob"
    (run aliceConnected
       (briefVisit "bob" (nextSid aliceConnected) (at_time 0) (at_time 500)
          (at_time 1000))).1 = true
  ∧ sockets (run aliceConnected
               (briefVisit "bob" (nextSid aliceConnected) (at_time 0)
                  (at_time 500) (at_time 1000))).1
    = sockets aliceConnected
  ∧ socketOf "bob"
      (run aliceConnected
         (briefVisit "bob" (nextSid aliceConnected) (at_time 0) (at_time 500)
            (at_time 1000))).1 = None.
Proof.
  apply (brief_visit_leaves_user_online aliceConnected "bob" "Bob").
  - split; [|apply NoDup_singleton].
    apply Forall_singleton. split; [by eexists|vm_compute; lia].
  - by vm_compute.
  - by vm_compute.
Defined.

(** ** Delivery, then read *)

Lemma lookup_app_last {A} (l : list A) x : (l ++ [x]) !! length l = Some x.
Proof. by rewrite lookup_app_r, Nat.sub_diag by lia. Qed.


(** When nothing interleaves with the handler run of the submission, a
    message pushed to a connected receiver is stored as delivered; when
    the receiver then signals a read for the conversation, on either
    transport, the message becomes read with [readAt] stamped and
    [deliveredAt] still the time of the delivery.  (A read that lands
    inside the run of [send_message] is the race shown for C1.) *)
Theorem delivery_then_read env sock rid text st receiverSocket envS envH :
  storeUp env = true → rid ≠ EmptyString → trim text ≠ [] →
  socketOf rid st = Some receiverSocket →
  userId receiverSocket = rid →
  storeUp envS = true → storeUp envH = true → readRouteMounted st = true →
  ∃ chat m,
    messages (send_message env sock (Some rid) (Some text) st).1
      !! length (messages st) = Some m
    ∧ chatId m = chat ∧ status m = delivered
    ∧ deliveredAt m = Some (clk env 2) ∧ readAt m = None
    ∧ messages (message_read_socket envS receiverSocket chat
                  (send_message env sock (Some rid) (Some text) st).1).1
        !! length (messages st) = Some (markRead (clk envS 0) m)
    ∧ messages (http_read envH (Token rid) chat
                  (send_message env sock (Some rid) (Some text) st).1).1
        !! length (messages st) = Some (markRead (clk envH 2) m).
Proof.
  intros Hup Hrid Htext Hon Hrs HupS HupH Hroute.
  rewrite (send_message_online env sock rid text st receiverSocket
             Hup Hrid Htext Hon).
  simpl. do 2 eexists. split; [apply lookup_app_last|].
  split_and!; try done.
  - unfold message_read_socket. rewrite HupS, Hrs. simpl.
    match goal with
    | |- context [map ?g (messages st ++ [?m])] =>
        assert (map g (messages st ++ [m]) !! length (messages st)
                = Some (markRead (clk envS 0) m)) as H1
    end.
    { erewrite lookup_guarded_map by apply lookup_app_last.
      unfold toReader, hasStatus. simpl.
      by rewrite bool_decide_eq_true_2, String.eqb_refl. }
    destruct (0 <? _)%nat; [|exact H1].
    erewrite lookup_guarded_map.
    2:{ erewrite lookup_guarded_map by exact H1. reflexivity. }
    unfold toReader, hasStatus. simpl.
    by rewrite !andb_false_r.
  - unfold http_read. simpl. rewrite Hroute, HupH. simpl.
    erewrite lookup_guarded_map.
    2:{ erewrite lookup_guarded_map by apply lookup_app_last. reflexivity. }
    unfold toReader, hasStatus. simpl. rewrite !andb_false_r.
    by rewrite bool_decide_eq_true_2, String.eqb_refl.
Qed.

Lemma delivery_then_read_witness :
  ∃ chat m,
    messages hiDelivered.1 !! length (messages bothConnected) = Some m
    ∧ chatId m = chat ∧ status m = delivered
    ∧ deliveredAt m = Some (clk (at_time 1000) 2) ∧ readAt m = None
    ∧ messages (message_read_socket (at_time 2000) bob chat hiDelivered.1).1
        !! length (messages bothConnected)
      = Some (markRead (clk (at_time 2000) 0) m)
    ∧ messages (http_read (at_time 2000) (Token "bob") chat hiDelivered.1).1
        !! length (messages bothConnected)
      = Some (markRead (clk (at_time 2000) 2) m).
Proof.
  apply (delivery_then_read (at_time 1000) alice "bob" (lit "hi")
           bothConnected bob (at_time 2000) (at_time 2000)); by vm_compute.
Defined.

(** ** Outside the grace window *)

Lemma recent_old now m : timestamp m < now - 60000 → recent now m = false.
Proof. unfold recent. intros H. apply Z.leb_gt. lia. Qed.

(** A message that is still sent and more than a minute old when a read
    signal arrives is left as it is, on either transport and whoever
    signals: a read signal only promotes sent messages inside the grace
    window. *)
Theorem read_signal_leaves_old_sent_messages st i m sock cred chat envS envH :
  messages st !! i = Some m →
  status m = sent →
  monotone (clk envS) →
  timestamp m < clk envS 1 - 60000 →
  timestamp m < clk envH 0 - 60000 →
  messages (message_read_socket envS sock chat st).1 !! i = Some m
  ∧ messages (http_read envH cred chat st).1 !! i = Some m.
Proof.
  intros Hi Hsent Hmon HoldS HoldH.
  assert (hasStatus delivered m = false) as Hd
    by (unfold hasStatus; by rewrite Hsent).
  pose proof (Hmon 1%nat 2%nat ltac:(lia)) as H12.
  split.
  - unfold message_read_socket. destruct (storeUp envS); simpl; [|done].
    assert (∀ now, map (λ x, if toReader chat (userId sock) x
                                 && hasStatus delivered x
                             then markRead now x else x) (messages st) !! i
                   = Some m) as H1.
    { intros now. apply lookup_unmatched_map; [done|].
      by rewrite Hd, andb_false_r. }
    destruct (0 <? _)%nat; [|apply H1].
    apply lookup_unmatched_map.
    + apply lookup_unmatched_map; [apply H1|].
      by rewrite recent_old, andb_false_r by lia.
    + by rewrite Hd, andb_false_r.
  - unfold http_read. destruct (readRouteMounted st); simpl; [|done].
    destruct cred; try done.
    destruct (storeUp envH); simpl; [|done].
    apply lookup_unmatched_map.
    + apply lookup_unmatched_map; [done|].
      by rewrite recent_old, andb_false_r by lia.
    + by rewrite Hd, andb_false_r.
Qed.

Lemma read_signal_leaves_old_sent_messages_witness :
  messages (message_read_socket (at_time 90000) bob 0 hiSaved.1.1).1 !! 0%nat
  = Some (newMessage 0 "alice" "bob" (lit "hi") 1000)
  ∧ messages (http_read (at_time 90000) (Token "bob") 0 hiSaved.1.1).1
      !! 0%nat
    = Some (newMessage 0 "alice" "bob" (lit "hi") 1000).
Proof.
  apply (read_signal_leaves_old_sent_messages hiSaved.1.1 0
           (newMessage 0 "alice" "bob" (lit "hi") 1000) bob (Token "bob") 0
           (at_time 90000) (at_time 90000));
    by vm_compute.
Defined.

(** ** The delivery acknowledgment *)

(** Acknowledging a sent message marks exactly that message delivered,
    tells its sender if connected, and answers that it was marked; a
    second acknowledgment changes nothing, notifies no one and answers
    with the status the message already has. *)
Theorem delivery_ack_then_again env1 env2 u1 u2 id m st :
  messages st !! id = Some m →
  status m = sent →
  storeUp env1 = true → storeUp env2 = true →
  messages (http_delivered env1 (Token u1) id st).1
  = alter (markDelivered (clk env1 0)) id (messages st)
  ∧ (http_delivered env1 (Token u1) id st).2
    = match socketOf (sender m) st with
      | Some senderSocket =>
          [message_delivered (sid senderSocket) id (clk env1 0)]
      | None => []
      end ++ [reply (deliveredOk id)]
  ∧ http_delivered env2 (Token u2) id (http_delivered env1 (Token u1) id st).1
    = ((http_delivered env1 (Token u1) id st).1,
       [reply (deliveredAlready id delivered)]).
Proof.
  intros Hid Hsent Hup1 Hup2.
  assert (http_delivered env1 (Token u1) id st
          = (setMessages (alter (markDelivered (clk env1 0)) id (messages st))
               st,
             match socketOf (sender m) st with
             | Some senderSocket =>
                 [message_delivered (sid senderSocket) id (clk env1 0)]
             | None => []
             end ++ [reply (deliveredOk id)])) as E.
  { unfold http_delivered, findOneAndUpdate.
    rewrite Hup1, Hid. simpl. by rewrite bool_decide_eq_true_2. }
  rewrite E. simpl. split_and!; [done..|].
  unfold http_delivered, findOneAndUpdate. rewrite Hup2. simpl.
  by rewrite list_lookup_alter_eq, Hid.
Qed.

Lemma delivery_ack_then_again_witness :
  messages (http_delivered (at_time 5000) (Token "bob") 0 hiOffline.1).1
  = alter (markDelivered (clk (at_time 5000) 0)) 0%nat (messages hiOffline.1)
  ∧ (http_delivered (at_time 5000) (Token "bob") 0 hiOffline.1).2
    = match socketOf
              (sender (newMessage 0 "alice" "bob" (lit "hi") 1000))
              hiOffline.1 with
      | Some senderSocket =>
          [message_delivered (sid senderSocket) 0 (clk (at_time 5000) 0)]
      | None => []
      end ++ [reply (deliveredOk 0)]
  ∧ http_delivered (at_time 6000) (Token "alice") 0
      (http_delivered (at_time 5000) (Token "bob") 0 hiOffline.1).1
    = ((http_delivered (at_time 5000) (Token "bob") 0 hiOffline.1).1,
       [reply (deliveredAlready 0 delivered)]).
Proof.
  apply (delivery_ack_then_again (at_time 5000) (at_time 6000) "bob" "alice" 0
           (newMessage 0 "alice" "bob" (lit "hi") 1000) hiOffline.1);
    by vm_compute.
Defined.

(** ** Submissions over HTTP *)



(** ** Fetching a conversation *)

Lemma find_spec {A} (f : A → bool) (coll : list A) i x :
  (i, x) ∈ find f coll ↔ coll !! i = Some x ∧ f x = true.
Proof.
  unfold find. rewrite list_elem_of_In, filter_In, <- list_elem_of_In.
  rewrite list_elem_of_lookup. simpl. split.
  - intros [[j Hj] Hf]. rewrite list_lookup_imap in Hj.
    destruct (coll !! j) eqn:E; simplify_eq/=. by rewrite E.
  - intros [Hi Hf]. split; [|done]. exists i.
    by rewrite list_lookup_imap, Hi.
Qed.

#[local] Instance olderFirst_total : Total olderFirst.
Proof. intros x y. unfold olderFirst. lia. Qed.

Lemma formatted_fields uid st sorted l :
  Forall2 (λ p y, formatMessage uid st p = Some y) sorted l →
  f_id <$> l = sorted.*1
  ∧ f_timestamp <$> l = (λ p, timestamp p.2) <$> sorted.
Proof.
  induction 1 as [|p y sorted l Hp _ [IH1 IH2]]; [done|].
  unfold formatMessage in Hp. destruct (users st !! sender p.2); [|done].
  injection Hp as <-. rewrite !fmap_cons.
  split; f_equal; assumption.
Qed.

(** The fetch answers with a list only to a participant of the
    conversation; the list holds exactly the stored messages of that
    conversation, each once and with its stored text, sender, timestamp
    and [readAt], oldest first. *)
Theorem get_messages_lists_the_conversation env uid chat st l :
  get_messages env (Token uid) chat st = [reply (messagesOk l)] →
  (∃ c, chats st !! chat = Some c ∧ uid ∈ participants c)
  ∧ Sorted Z.le (f_timestamp <$> l)
  ∧ f_id <$> l
    ≡ₚ (find (λ m, bool_decide (chatId m = chat)) (messages st)).*1
  ∧ Forall (λ y, ∃ m, messages st !! f_id y = Some m
                      ∧ chatId m = chat
                      ∧ f_content y = content m
                      ∧ f_senderId y = sender m
                      ∧ f_timestamp y = timestamp m
                      ∧ f_readAt y = readAt m
                      ∧ f_isMe y = String.eqb (sender m) uid) l.
Proof.
  unfold get_messages. destruct (storeUp env); [|done]. simpl.
  destruct (chats st !! chat) as [c|]; [|done].
  case_bool_decide as Hin; [|done].
  destruct (mapM _ _) as [formatted|] eqn:Hmap; [|done].
  intros [= ->]. split; [by eauto|].
  apply mapM_Some_1 in Hmap.
  destruct (formatted_fields _ _ _ _ Hmap) as [Hids Hts].
  rewrite Hids, Hts. split_and!.
  - apply (Sorted_fmap _ olderFirst); [by intros x y|].
    apply Sorted_merge_sort, _.
  - by rewrite merge_sort_Permutation.
  - apply Forall_lookup. intros i y Hy.
    destruct (Forall2_lookup_r _ _ _ _ _ Hmap Hy) as ([j m] & Hp & Hf).
    assert ((j, m) ∈ find (λ m, bool_decide (chatId m = chat)) (messages st))
      as Hfound.
    { rewrite <- (merge_sort_Permutation olderFirst).
      by eapply list_elem_of_lookup_2. }
    apply find_spec in Hfound as [Hj Hchat].
    apply bool_decide_eq_true in Hchat.
    unfold formatMessage in Hf. simpl in Hf.
    destruct (users st !! sender m); [|done].
    injection Hf as <-. simpl. exists m. by split_and!.
Qed.

Lemma get_messages_lists_the_conversation_witness :
  ∃ l, get_messages (at_time 9000) (Token "bob") 0 sessionEnd
       = [reply (messagesOk l)]
       ∧ Sorted Z.le (f_timestamp <$> l)
       ∧ f_id <$> l = [0; 1]%nat.
Proof.
  eexists. split; [by vm_compute|].
  destruct (get_messages_lists_the_conversation (at_time 9000) "bob" 0
              sessionEnd _ ltac:(by vm_compute)) as (_ & Hsorted & _ & _).
  split; [exact Hsorted|done].
Defined.

(** ** Creating a conversation *)

Lemma findOrCreateChat_stable now1 now2 a b coll :
  findOrCreateChat now2 a b (findOrCreateChat now1 a b coll).1
  = findOrCreateChat now1 a b coll.
Proof.
  pose proof (findOrCreateChat_again now1 now2 a b coll) as H1.
  pose proof (findOrCreateChat_again now2 now2 b a
                (findOrCreateChat now1 a b coll).1) as H2.
  rewrite H1 in H2. by rewrite H2.
Qed.

(** Creating the conversation of two accounts is idempotent and does not
    depend on who asks: the second request, from the other side, answers
    with the same conversation id and changes nothing. *)
Theorem chat_creation_resolves_one_conversation env1 env2 a b na nb st :
  users st !! a = Some na → users st !! b = Some nb →
  a ≠ EmptyString → b ≠ EmptyString →
  storeUp env1 = true → storeUp env2 = true →
  ∃ info1 info2,
    (http_chats_create env1 (Token a) (Some b) st).2 = chatOk info1
    ∧ (http_chats_create env2 (Token b) (Some a)
         (http_chats_create env1 (Token a) (Some b) st).1).2 = chatOk info2
    ∧ ci_id info2 = ci_id info1
    ∧ ci_participantId info1 = b ∧ ci_participantName info1 = nb
    ∧ ci_participantId info2 = a ∧ ci_participantName info2 = na
    ∧ ci_createdAt info2 = ci_createdAt info1
    ∧ (http_chats_create env2 (Token b) (Some a)
         (http_chats_create env1 (Token a) (Some b) st).1).1
      = (http_chats_create env1 (Token a) (Some b) st).1.
Proof.
  intros Ha Hb Hane Hbne Hup1 Hup2.
  unfold http_chats_create.
  rewrite (falsyId_nonempty _ Hane), (falsyId_nonempty _ Hbne), Hup1, Hup2.
  simpl. rewrite (account_castable st b) by eauto. simpl.
  pose proof (findOrCreateChat_again (clk env1 0) (clk env2 0) a b (chats st))
    as Hagain.
  destruct (findOrCreateChat (clk env1 0) a b (chats st)) as [chats1 k].
  rewrite Hb. simpl in *.
  rewrite (account_castable (setChats chats1 st) a) by (simpl; eauto).
  simpl. rewrite Hagain, Ha. simpl.
  do 2 eexists. split_and!; try done.
Qed.

Lemma chat_creation_resolves_one_conversation_witness :
  ∃ info1 info2,
    (http_chats_create (at_time 100) (Token "alice") (Some "bob")
       aliceConnected).2 = chatOk info1
    ∧ (http_chats_create (at_time 200) (Token "bob") (Some "alice")
         (http_chats_create (at_time 100) (Token "alice") (Some "bob")
            aliceConnected).1).2 = chatOk info2
    ∧ ci_id info2 = ci_id info1
    ∧ ci_participantId info1 = "bob" ∧ ci_participantName info1 = "Bob"
    ∧ ci_participantId info2 = "alice" ∧ ci_participantName info2 = "Alice"
    ∧ ci_createdAt info2 = ci_createdAt info1
    ∧ (http_chats_create (at_time 200) (Token "bob") (Some "alice")
         (http_chats_create (at_time 100) (Token "alice") (Some "bob")
            aliceConnected).1).1
      = (http_chats_create (at_time 100) (Token "alice") (Some "bob")
           aliceConnected).1.
Proof.
  apply (chat_creation_resolves_one_conversation (at_time 100) (at_time 200)
           "alice" "bob" "Alice" "Bob" aliceConnected); by vm_compute.
Defined.

(** A conversation created on request is the one that later messages
    between the two use, in either direction and on either transport: the
    message is filed under the created id and no conversation is added. *)
Theorem created_chat_receives_the_messages envC envM a b nb text sock st :
  users st !! b = Some nb →
  a ≠ EmptyString → b ≠ EmptyString → trim text ≠ [] →
  storeUp envC = true → storeUp envM = true →
  userId sock = b →
  ∃ info m1 m2,
    (http_chats_create envC (Token a) (Some b) st).2 = chatOk info
    ∧ messages (http_send envM (Token a) (Some b) (Some text)
                  (http_chats_create envC (Token a) (Some b) st).1).1
      = messages st ++ [m1]
    ∧ chatId m1 = ci_id info
    ∧ chats (http_send envM (Token a) (Some b) (Some text)
               (http_chats_create envC (Token a) (Some b) st).1).1
      = chats (http_chats_create envC (Token a) (Some b) st).1
    ∧ messages (send_message envM sock (Some a) (Some text)
                  (http_chats_create envC (Token a) (Some b) st).1).1
      = messages st ++ [m2]
    ∧ chatId m2 = ci_id info
    ∧ chats (send_message envM sock (Some a) (Some text)
               (http_chats_create envC (Token a) (Some b) st).1).1
      = chats (http_chats_create envC (Token a) (Some b) st).1.
Proof.
  intros Hb Hane Hbne Htext HupC HupM Hsock.
  pose proof (findOrCreateChat_stable (clk envC 0) (clk envM 0) a b (chats st))
    as Hstable.
  pose proof (findOrCreateChat_again (clk envC 0) (clk envM 0) a b (chats st))
    as Hagain.
  assert (http_chats_create envC (Token a) (Some b) st
          = (setChats (findOrCreateChat (clk envC 0) a b (chats st)).1 st,
             chatOk (mkChatInfo
                       (findOrCreateChat (clk envC 0) a b (chats st)).2 b nb
                       (createdAt <$>
                          (findOrCreateChat (clk envC 0) a b (chats st)).1
                          !! (findOrCreateChat (clk envC 0) a b (chats st)).2)
                       (updatedAt <$>
                          (findOrCreateChat (clk envC 0) a b (chats st)).1
                          !! (findOrCreateChat (clk envC 0) a b (chats st)).2))))
    as E.
  { unfold http_chats_create.
    rewrite (falsyId_nonempty _ Hbne), HupC. simpl.
    rewrite (account_castable st b) by eauto. simpl.
    destruct (findOrCreateChat (clk envC 0) a b (chats st)) as [chats1 k].
    by rewrite Hb. }
  rewrite E. cbn [fst snd].
  pose proof (findOrCreateChat_matches (clk envC 0) a b (chats st))
    as (c & Hc & Hpair).
  destruct (findOrCreateChat (clk envC 0) a b (chats st)) as [chats1 k].
  simpl in Hstable, Hagain, Hc. cbn [fst snd].
  assert (castable (setChats chats1 st) b = true) as Hcb
    by (apply account_castable; simpl; eauto).
  assert (castable (setChats chats1 st) a = true) as Hca.
  { apply (participant_castable _ _ c).
    - simpl. by eapply list_elem_of_lookup_2.
    - unfold pairFilter in Hpair.
      rewrite !andb_true_iff, !bool_decide_eq_true in Hpair. tauto. }
  pose proof (http_send_valid envM a b text (setChats chats1 st) Hbne Hcb
                Htext) as Hs.
  rewrite HupM in Hs.
  change (chats (setChats chats1 st)) with chats1 in Hs.
  change (messages (setChats chats1 st)) with (messages st) in Hs.
  cbv zeta in Hs. rewrite Hstable in Hs.
  assert (∃ m2, messages (send_message envM sock (Some a) (Some text)
                            (setChats chats1 st)).1 = messages st ++ [m2]
                ∧ chatId m2 = k
                ∧ chats (send_message envM sock (Some a) (Some text)
                           (setChats chats1 st)).1 = chats1)
    as (m2 & Hm2 & Hk2 & Hc2).
  { unfold send_message, send_message_persist, send_message_deliver, save.
    rewrite (falsyId_nonempty _ Hane), (trim_nonempty_falsy _ Htext), HupM.
    simpl. rewrite Hca. simpl. rewrite Hsock, Hagain. simpl.
    rewrite bool_decide_eq_false_2 by done. simpl.
    destruct (socketOf _ _); simpl.
    - unfold findByIdAndUpdate. rewrite alter_app_last. by eexists.
    - by eexists. }
  eexists _, _, m2. rewrite Hs, Hm2, Hc2. simpl. by split_and!.
Qed.

Lemma created_chat_receives_the_messages_witness :
  ∃ info m1 m2,
    (http_chats_create (at_time 100) (Token "alice") (Some "bob")
       bothConnected).2 = chatOk info
    ∧ messages (http_send (at_time 200) (Token "alice") (Some "bob")
                  (Some (lit "hi"))
                  (http_chats_create (at_time 100) (Token "alice")
                     (Some "bob") bothConnected).1).1
      = messages bothConnected ++ [m1]
    ∧ chatId m1 = ci_id info
    ∧ chats (http_send (at_time 200) (Token "alice") (Some "bob")
               (Some (lit "hi"))
               (http_chats_create (at_time 100) (Token "alice") (Some "bob")
                  bothConnected).1).1
      = chats (http_chats_create (at_time 100) (Token "alice") (Some "bob")
                 bothConnected).1
    ∧ messages (send_message (at_time 200) bob (Some "alice")
                  (Some (lit "hi"))
                  (http_chats_create (at_time 100) (Token "alice")
                     (Some "bob") bothConnected).1).1
      = messages bothConnected ++ [m2]
    ∧ chatId m2 = ci_id info
    ∧ chats (send_message (at_time 200) bob (Some "alice") (Some (lit "hi"))
               (http_chats_create (at_time 100) (Token "alice") (Some "bob")
                  bothConnected).1).1
      = chats (http_chats_create (at_time 100) (Token "alice") (Some "bob")
                 bothConnected).1.
Proof.
  apply (created_chat_receives_the_messages (at_time 100) (at_time 200)
           "alice" "bob" "Bob" (lit "hi") bob bothConnected); by vm_compute.
Defined.



(** ** Ids that are no ObjectIds *)

(** A receiver or participant id that is no ObjectId is refused before
    anything is stored: the HTTP routes answer 500, the socket handler
    emits the failure event, and the state is unchanged. *)
Theorem malformed_id_stores_nothing env uid sock rid text st :
  rid ≠ EmptyString → text ≠ [] → castable st rid = false →
  http_send env (Token uid) (Some rid) (Some text) st
  = (st, [reply (failure 500)])
  ∧ send_message env sock (Some rid) (Some text) st
    = (st, [message_sent_failed (sid sock)])
  ∧ http_chats_create env (Token uid) (Some rid) st = (st, chatsFailure 500).
Proof.
  intros Hrid Htext Hcast.
  unfold http_send, send_message, send_message_persist, http_chats_create.
  rewrite (falsyId_nonempty _ Hrid).
  destruct text as [|c text]; [done|]. simpl.
  destruct (storeUp env); simpl; [|done]. by rewrite Hcast.
Qed.

Lemma malformed_id_stores_nothing_witness :
  http_send (at_time 1000) (Token "alice") (Some "not-an-objectid")
    (Some (lit "hi")) bothConnected
  = (bothConnected, [reply (failure 500)])
  ∧ send_message (at_time 1000) alice (Some "not-an-objectid")
      (Some (lit "hi")) bothConnected
    = (bothConnected, [message_sent_failed (sid alice)])
  ∧ http_chats_create (at_time 1000) (Token "alice") (Some "not-an-objectid")
      bothConnected
    = (bothConnected, chatsFailure 500).
Proof.
  apply (malformed_id_stores_nothing (at_time 1000) "alice" alice
           "not-an-objectid" (lit "hi") bothConnected); by vm_compute.
Defined.

(** ** The chat list *)

Lemma insertByActivity_Permutation x l : insertByActivity x l ≡ₚ x :: l.
Proof.
  induction l as [|y l IH]; simpl; [done|].
  destruct (activity y <=? activity x); [done|].
  by rewrite IH, Permutation_swap.
Qed.

Lemma latestFirst_Permutation l : latestFirst l ≡ₚ l.
Proof.
  induction l as [|x l IH]; simpl; [done|].
  by rewrite insertByActivity_Permutation, IH.
Qed.

Lemma insertByActivity_Sorted x l :
  Sorted moreRecent l → Sorted moreRecent (insertByActivity x l).
Proof.
  induction 1 as [|y l Hl IH Hy]; simpl; [by repeat constructor|].
  destruct (activity y <=? activity x) eqn:E.
  - constructor; [by constructor|]. constructor. unfold moreRecent.
    by apply Z.leb_le.
  - apply Z.leb_gt in E. constructor; [done|].
    destruct l as [|z l]; simpl in *.
    + constructor. unfold moreRecent. lia.
    + destruct (activity z <=? activity x); constructor; unfold moreRecent;
        [lia|]. by inversion Hy.
Qed.

Lemma latestFirst_Sorted l : Sorted moreRecent (latestFirst l).
Proof.
  induction l as [|x l IH]; simpl; [constructor|].
  by apply insertByActivity_Sorted.
Qed.

#[local] Instance newerFirst_total : Total newerFirst.
Proof. intros x y. unfold newerFirst. lia. Qed.

#[local] Instance newerFirst_trans : Transitive newerFirst.
Proof. intros x y z. unfold newerFirst. lia. Qed.

(** The last message of a conversation: one of its messages, none of
    which is newer; there is none only if the conversation is empty. *)
Lemma newestOf_spec chat st :
  match newestOf chat st with
  | Some (i, m) =>
      messages st !! i = Some m ∧ chatId m = chat
      ∧ ∀ j m', messages st !! j = Some m' → chatId m' = chat →
                timestamp m' ≤ timestamp m
  | None => ∀ j m', messages st !! j = Some m' → chatId m' ≠ chat
  end.
Proof.
  unfold newestOf.
  pose proof (StronglySorted_merge_sort newerFirst
                (find (λ m, bool_decide (chatId m = chat)) (messages st)))
    as Hsorted.
  pose proof (merge_sort_Permutation newerFirst
                (find (λ m, bool_decide (chatId m = chat)) (messages st)))
    as Hperm.
  destruct (merge_sort newerFirst _) as [|[i m] rest]; simpl.
  - intros j m' Hj Hchat.
    assert ((j, m') ∈ find (λ m, bool_decide (chatId m = chat)) (messages st))
      as Hin by (apply find_spec; by rewrite bool_decide_eq_true).
    rewrite <- Hperm in Hin. by apply elem_of_nil in Hin.
  - assert ((i, m) ∈ find (λ m, bool_decide (chatId m = chat)) (messages st))
      as Hin by (rewrite <- Hperm; apply list_elem_of_here).
    apply find_spec in Hin as [Hi Hchat%bool_decide_eq_true].
    split_and!; [done..|].
    intros j m' Hj Hchat'.
    assert ((j, m') ∈ (i, m) :: rest) as Hin'.
    { rewrite Hperm. apply find_spec. by rewrite bool_decide_eq_true. }
    apply elem_of_cons in Hin' as [[= -> ->]|Hin']; [lia|].
    apply StronglySorted_inv in Hsorted as [_ Hall].
    rewrite Forall_forall in Hall. exact (Hall _ Hin').
Qed.

Lemma summarize_spec uid st id c s :
  chats st !! id = Some c → uid ∈ participants c →
  summarize uid st (id, c) = Some s →
  is_Some (cs_participant s) →
  summaryOk uid st s.
Proof.
  intros Hc Hin Hs [[other name] Hother].
  unfold summarize in Hs. simpl in Hs.
  pose proof (newestOf_spec id st) as Hnew.
  assert (cs_id s = id
          ∧ cs_participant s
            = List.find (λ q, negb (String.eqb q.1 uid)) (populated st c)
          ∧ match cs_lastMessage s with
            | Some lm =>
                ∃ i m, messages st !! i = Some m ∧ chatId m = id
                       ∧ lm_content lm = content m
                       ∧ lm_timestamp lm = timestamp m
                       ∧ lm_senderId lm = sender m
                       ∧ ∀ j m', messages st !! j = Some m' →
                                 chatId m' = id → timestamp m' ≤ timestamp m
            | None => ∀ j m', messages st !! j = Some m' → chatId m' ≠ id
            end) as (Hid & Hp & Hlast).
  { destruct (newestOf id st) as [[i m]|].
    - destruct (users st !! sender m); [|done]. injection Hs as <-. simpl.
      destruct Hnew as (Hi & Hchat & Hmax). split_and!; [done..|].
      exists i, m. by split_and!.
    - injection Hs as <-. by simpl. }
  rewrite Hother in Hp. symmetry in Hp.
  apply find_some in Hp as [Hpop Hne]. simpl in Hne.
  apply list_elem_of_In, list_elem_of_omap in Hpop as (p & Hp & Hname).
  destruct (users st !! p) as [n|] eqn:Hn; [|done].
  injection Hname as <- <-.
  exists c, p, n. rewrite Hid. split_and!; try done.
  intros ->. by rewrite String.eqb_refl in Hne.
Qed.

(** The chat list of a user is ordered by last activity, latest first
    (the time of the last message, else [updatedAt]).  Every entry is a
    conversation the user takes part in, shown with another participant
    that has an account, and its last message is a message of that
    conversation than which none is newer. *)
Theorem get_chats_lists_by_activity env uid st l :
  get_chats env (Token uid) st = chatsOk l →
  Sorted moreRecent l ∧ Forall (summaryOk uid st) l.
Proof.
  unfold get_chats. destruct (storeUp env); [|done]. simpl.
  destruct (mapM _ _) as [summaries|] eqn:Hmap; [|done].
  intros [= <-]. split; [apply latestFirst_Sorted|].
  rewrite latestFirst_Permutation.
  apply mapM_Some_1 in Hmap.
  apply Forall_lookup. intros i s Hs.
  apply list_elem_of_lookup_2, list_elem_of_In, filter_In in Hs as [Hs Hsome].
  apply bool_decide_eq_true in Hsome.
  apply list_elem_of_In, list_elem_of_lookup in Hs as [j Hj].
  destruct (Forall2_lookup_r _ _ _ _ _ Hmap Hj) as ([id c] & Hfound & Hsum).
  apply list_elem_of_lookup_2, find_spec in Hfound as [Hc Hin].
  apply bool_decide_eq_true in Hin.
  by eapply summarize_spec.
Qed.

Lemma get_chats_lists_by_activity_witness :
  ∃ l, get_chats (at_time 9000) (Token "alice") sessionEnd = chatsOk l
       ∧ Sorted moreRecent l ∧ Forall (summaryOk "alice" sessionEnd) l
       ∧ cs_participant <$> l = [Some ("bob", "Bob")].
Proof.
  eexists. split; [by vm_compute|].
  destruct (get_chats_lists_by_activity (at_time 9000) "alice" sessionEnd _
              ltac:(by vm_compute)) as [Hsorted Hall].
  split_and!; [exact Hsorted|exact Hall|done].
Defined.

(** * Friend requests and friendships *)

(** ** Lookups *)

Lemma findOne_Some {A} (f : A → bool) l i x :
  findOne f l = Some (i, x) → l !! i = Some x ∧ f x = true.
Proof.
  unfold findOne. rewrite list_find_Some. intros (? & ? & _).
  split; [done|]. by apply Is_true_true.
Qed.

Lemma findOne_None {A} (f : A → bool) l :
  findOne f l = None ↔ ∀ x, x ∈ l → f x = false.
Proof.
  unfold findOne. rewrite list_find_None, Forall_forall.
  split; intros H x Hx; specialize (H x Hx); by apply Is_true_false.
Qed.

Lemma findOne_found {A} (f : A → bool) l x :
  x ∈ l → f x = true → ∃ i y, findOne f l = Some (i, y).
Proof.
  intros Hx Hf. destruct (findOne f l) as [[i y]|] eqn:E; [eauto|].
  rewrite findOne_None in E. rewrite (E x Hx) in Hf. done.
Qed.

Lemma between_sym a b r : Friends.between a b r = Friends.between b a r.
Proof. unfold Friends.between. apply orb_comm. Qed.

Lemma between_spec a b r :
  Friends.between a b r = true
  ↔ (Friends.sender r = a ∧ Friends.receiver r = b)
    ∨ (Friends.sender r = b ∧ Friends.receiver r = a).
Proof.
  unfold Friends.between. rewrite orb_true_iff, !bool_decide_eq_true. done.
Qed.

Lemma between_own r :
  Friends.between (Friends.sender r) (Friends.receiver r) r = true.
Proof. apply between_spec. auto. Qed.

Lemma areFriends_spec a b fs :
  Friends.areFriends a b fs = true
  ↔ ∃ f, f ∈ fs ∧ ((Friends.user1 f = a ∧ Friends.user2 f = b)
                    ∨ (Friends.user1 f = b ∧ Friends.user2 f = a)).
Proof.
  unfold Friends.areFriends.
  destruct (findOne _ fs) as [[i f]|] eqn:E.
  - apply findOne_Some in E as [Hi Hf]. split; [|done]. intros _.
    exists f. split; [by eapply list_elem_of_lookup_2|].
    by rewrite orb_true_iff, !bool_decide_eq_true in Hf.
  - rewrite findOne_None in E. split; [done|]. intros (f & Hin & Hf).
    specialize (E f Hin). simpl in E.
    rewrite orb_false_iff, !bool_decide_eq_false in E. tauto.
Qed.

Lemma areFriends_sym a b fs :
  Friends.areFriends a b fs = Friends.areFriends b a fs.
Proof.
  apply eq_true_iff_eq. rewrite !areFriends_spec.
  split; intros (f & ? & ?); exists f; tauto.
Qed.

Lemma areFriends_app a b fs f :
  Friends.areFriends a b (fs ++ [f]) = true
  ↔ Friends.areFriends a b fs = true
    ∨ (Friends.user1 f = a ∧ Friends.user2 f = b)
    ∨ (Friends.user1 f = b ∧ Friends.user2 f = a).
Proof.
  rewrite !areFriends_spec. split.
  - intros (g & [Hg| ->%list_elem_of_singleton]%elem_of_app & H); eauto.
  - intros [(g & Hg & H)|H].
    + exists g. split; [apply elem_of_app; by left|done].
    + exists f. split; [apply elem_of_app; right; by apply list_elem_of_singleton|done].
Qed.

Lemma ltb_other a b :
  a ≠ b → String.ltb a b = false → String.ltb b a = true.
Proof.
  unfold String.ltb. intros Hne. rewrite (String.compare_antisym b a).
  destruct (String.compare a b) eqn:E; try done.
  by apply String.compare_eq_iff in E.
Qed.

Lemma ltb_asym a b : String.ltb a b = true → String.ltb b a = false.
Proof.
  unfold String.ltb. rewrite (String.compare_antisym b a).
  by destruct (String.compare a b).
Qed.

(** ** What a call does to the records *)

(** A run that is served as a whole does both writes or none. *)
Lemma accept_friend_request_run env cred requestId db :
  Friends.accept_friend_request env cred requestId db
  = match Friends.verifyToken cred with
    | inl r => (db, r)
    | inr userId =>
        if negb (storeUp env) then (db, Friends.failure 500 "Server error")
        else
          match Friends.findById requestId (Friends.requests db) with
          | None => (db, Friends.failure 404 "Friend request not found")
          | Some (i, fr) =>
              if negb (bool_decide (Friends.receiver fr = userId))
              then (db, Friends.failure 403
                          "You can only accept requests sent to you")
              else if negb (bool_decide (Friends.status fr = Friends.pending))
              then (db, Friends.failure 400
                          "This friend request is no longer pending")
              else if Friends.areFriends (Friends.sender fr)
                        (Friends.receiver fr) (Friends.friends db)
              then (db, Friends.failure 400
                          "You are already friends with this user")
              else
                match Friends.saveFriend
                        (Friends.mkFriend
                           (if String.ltb (Friends.sender fr)
                                 (Friends.receiver fr)
                            then Friends.sender fr else Friends.receiver fr)
                           (if String.ltb (Friends.sender fr)
                                 (Friends.receiver fr)
                            then Friends.receiver fr else Friends.sender fr)
                           (clk env 0)) (Friends.friends db) with
                | None =>
                    (db, Friends.failure 400
                           "You are already friends with this user")
                | Some fs =>
                    (Friends.mkDb (Friends.users db)
                       (alter Friends.accept i (Friends.requests db)) fs
                       (Friends.nextId db),
                     Friends.requestAccepted (length (Friends.friends db))
                       (clk env 0))
                end
          end
    end.
Proof.
  unfold Friends.accept_friend_request, Friends.accept_friend_request_cut,
    Friends.accept_friend_request_befriend,
    Friends.accept_friend_request_settle.
  destruct cred as [| |uid]; simpl; try done.
  destruct (storeUp env) eqn:Hup; simpl; [|done].
  destruct (Friends.findById _ _) as [[i fr]|] eqn:Hfind; [|done].
  destruct (bool_decide (Friends.receiver fr = uid)); simpl; [|done].
  destruct (bool_decide (Friends.status fr = Friends.pending)); simpl; [|done].
  destruct (Friends.areFriends _ _ _); [done|].
  destruct (Friends.saveFriend _ _) as [fs|]; [|done].
  simpl. by rewrite Hfind.
Qed.

Lemma friend_request_change env cred receiverId text db :
  Friends.Change db (Friends.friend_request env cred receiverId text db).1.
Proof.
  unfold Friends.friend_request.
  destruct cred as [| |uid]; simpl; try by apply Friends.unchanged.
  destruct (falsyId receiverId) eqn:Hf; [by apply Friends.unchanged|].
  destruct (storeUp env); simpl; [|by apply Friends.unchanged].
  destruct receiverId as [rid|]; [|done]. simpl.
  assert (rid ≠ EmptyString) by (by intros ->).
  destruct (Friends.users db !! rid) eqn:Hu;
    [|destruct (isObjectId rid); by apply Friends.unchanged].
  case_bool_decide; [by apply Friends.unchanged|].
  destruct (findOne _ _) as [[j existing]|] eqn:Hfind.
  - case_bool_decide; by apply Friends.unchanged.
  - simpl. by eapply Friends.requested
      with (r := Friends.mkFriendRequest _ uid rid _ Friends.pending).
Qed.

Lemma accept_friend_request_change env cred requestId db :
  Friends.Change db (Friends.accept_friend_request env cred requestId db).1.
Proof.
  rewrite accept_friend_request_run.
  destruct cred as [| |uid]; simpl; try by apply Friends.unchanged.
  destruct (storeUp env); simpl; [|by apply Friends.unchanged].
  destruct (Friends.findById _ _) as [[i fr]|] eqn:Hfind; [|by apply Friends.unchanged].
  apply findOne_Some in Hfind as [Hi Hid%bool_decide_eq_true].
  case_bool_decide; simpl; [|by apply Friends.unchanged].
  case_bool_decide; simpl; [|by apply Friends.unchanged].
  destruct (Friends.areFriends _ _ _) eqn:Haf; [by apply Friends.unchanged|].
  unfold Friends.saveFriend. destruct (findOne _ _) as [?|]; [by apply Friends.unchanged|].
  simpl. eapply Friends.befriended; [done..| |done]. simpl.
  destruct (String.ltb _ _); auto.
Qed.

Lemma cancel_friend_request_change env cred requestId db :
  Friends.Change db (Friends.cancel_friend_request env cred requestId db).1.
Proof.
  unfold Friends.cancel_friend_request.
  destruct cred as [| |uid]; simpl; try by apply Friends.unchanged.
  destruct (storeUp env); simpl; [|by apply Friends.unchanged].
  destruct (Friends.findById _ _) as [[i fr]|] eqn:Hfind; [|by apply Friends.unchanged].
  apply findOne_Some in Hfind as [Hi Hid%bool_decide_eq_true].
  case_bool_decide; simpl; [|by apply Friends.unchanged].
  case_bool_decide; simpl; [|by apply Friends.unchanged].
  by eapply Friends.withdrawn.
Qed.

Lemma relationship_status_reads env cred other db :
  (Friends.relationship_status env cred other db).1 = db.
Proof.
  unfold Friends.relationship_status.
  destruct cred; simpl; try done. by destruct (storeUp env).
Qed.

Lemma friends_list_reads env cred db :
  (Friends.friends_list env cred db).1 = db.
Proof.
  unfold Friends.friends_list.
  destruct cred; simpl; try done. destruct (storeUp env); simpl; [|done].
  destruct (Friends.getFriends _ _); [|done]. by destruct (mapM _ _).
Qed.

Lemma friends_step_change db c : Friends.Change db (Friends.step db c).1.
Proof.
  destruct c as [env []]; simpl.
  - apply friend_request_change.
  - apply Friends.unchanged. apply relationship_status_reads.
  - apply accept_friend_request_change.
  - apply cancel_friend_request_change.
  - apply Friends.unchanged. apply friends_list_reads.
Qed.

Lemma elem_of_alter_at {A} (f : A → A) i (l : list A) r x :
  l !! i = Some r →
  x ∈ alter f i l ↔ x = f r ∨ ∃ j, j ≠ i ∧ l !! j = Some x.
Proof.
  intros Hi. rewrite list_elem_of_lookup. split.
  - intros [j Hj]. destruct (decide (i = j)) as [<-|Hne].
    + rewrite list_lookup_alter_eq, Hi in Hj. left. by simplify_eq/=.
    + rewrite list_lookup_alter_ne in Hj by done. right. eauto.
  - intros [->|(j & Hne & Hj)].
    + exists i. by rewrite list_lookup_alter_eq, Hi.
    + exists j. by rewrite list_lookup_alter_ne.
Qed.

Lemma elem_of_delete_other {A} (l : list A) i j x :
  l !! j = Some x → j ≠ i → x ∈ delete i l.
Proof.
  intros Hj Hne. apply list_elem_of_lookup.
  destruct (decide (j < i)%nat).
  - exists j. by rewrite list_lookup_delete_lt.
  - exists (pred j). rewrite list_lookup_delete_ge by lia.
    by replace (S (pred j)) with j by lia.
Qed.

Lemma consistent_requested db r :
  Friends.consistent db →
  Friends.status r = Friends.pending →
  Friends._id r = Friends.nextId db →
  Friends.sender r ≠ Friends.receiver r →
  Friends.receiver r ≠ EmptyString →
  is_Some (Friends.users db !! Friends.receiver r) →
  findOne (Friends.between (Friends.sender r) (Friends.receiver r))
    (Friends.requests db) = None →
  Friends.consistent
    (Friends.mkDb (Friends.users db) (Friends.requests db ++ [r])
       (Friends.friends db) (S (Friends.nextId db))).
Proof.
  intros [F D S K O SF OF FA] Hp Hid Hne Hnamed Hknown Hnone.
  rewrite findOne_None in Hnone.
  constructor; simpl; try done.
  - apply Forall_app. split.
    + eapply Forall_impl; [exact F|]. simpl. lia.
    + constructor; [lia|constructor].
  - rewrite fmap_app. apply NoDup_app. split_and!; [done| |apply NoDup_singleton].
    intros x (y & -> & Hy)%list_elem_of_fmap Hx%list_elem_of_singleton.
    rewrite Forall_forall in F. specialize (F y Hy). simpl in F. lia.
  - apply Forall_app. split; [done|]. by constructor.
  - apply Forall_app. split; [done|]. by constructor.
  - intros r1 r2 [H1| ->%list_elem_of_singleton]%elem_of_app
                 [H2| ->%list_elem_of_singleton]%elem_of_app Hb; [by apply O| | |done].
    + specialize (Hnone r1 H1). apply between_spec in Hb.
      apply not_true_iff_false in Hnone. destruct Hnone.
      apply between_spec. destruct Hb as [[<- <-]|[<- <-]]; auto.
    + specialize (Hnone r2 H2). congruence.
  - intros a b. rewrite FA. split; intros (x & Hx & Hacc & Hb); exists x.
    + split; [apply elem_of_app; by left|done].
    + apply elem_of_app in Hx as [Hx| ->%list_elem_of_singleton]; [done|].
      congruence.
Qed.

Lemma consistent_befriended db i r f :
  Friends.consistent db →
  Friends.requests db !! i = Some r →
  Friends.status r = Friends.pending →
  Friends.areFriends (Friends.sender r) (Friends.receiver r)
    (Friends.friends db) = false →
  (Friends.user1 f = Friends.sender r ∧ Friends.user2 f = Friends.receiver r
   ∧ String.ltb (Friends.sender r) (Friends.receiver r) = true)
  ∨ (Friends.user1 f = Friends.receiver r ∧ Friends.user2 f = Friends.sender r
     ∧ String.ltb (Friends.sender r) (Friends.receiver r) = false) →
  Friends.consistent
    (Friends.mkDb (Friends.users db)
       (alter Friends.accept i (Friends.requests db))
       (Friends.friends db ++ [f]) (Friends.nextId db)).
Proof.
  intros [F D S K O SF OF FA] Hi Hp Hnot Hf.
  assert (Friends.sender r ≠ Friends.receiver r) as Hne
    by apply (Forall_lookup_1 _ _ _ _ S Hi).
  assert (∀ a b, ((Friends.user1 f = a ∧ Friends.user2 f = b)
                  ∨ (Friends.user1 f = b ∧ Friends.user2 f = a))
                 ↔ Friends.between a b r = true) as Hpair.
  { intros a b. rewrite between_spec.
    destruct Hf as [(-> & -> & _)|(-> & -> & _)]; tauto. }
  constructor; simpl.
  - apply Forall_alter; [done|]. by intros x _.
  - rewrite (list_fmap_alter _ Friends.accept id)
      by (by apply Forall_forall).
    by rewrite list_alter_id.
  - apply Forall_alter; [done|]. by intros x _.
  - apply Forall_alter; [done|]. by intros x _.
  - intros r1 r2 [j1 H1]%list_elem_of_lookup [j2 H2]%list_elem_of_lookup Hb.
    assert (∀ j x, alter Friends.accept i (Friends.requests db) !! j = Some x →
                   ∃ y, Friends.requests db !! j = Some y
                        ∧ Friends.sender x = Friends.sender y
                        ∧ Friends.receiver x = Friends.receiver y) as Hinv.
    { intros j x Hx. destruct (decide (i = j)) as [<-|Hij].
      - rewrite list_lookup_alter_eq, Hi in Hx. simplify_eq/=. eauto.
      - rewrite list_lookup_alter_ne in Hx by done. eauto. }
    destruct (Hinv _ _ H1) as (y1 & Hy1 & Hs1 & Hr1).
    destruct (Hinv _ _ H2) as (y2 & Hy2 & Hs2 & Hr2).
    assert (y1 = y2) as <-.
    { apply O; [by eapply list_elem_of_lookup_2..|].
      apply between_spec. apply between_spec in Hb. congruence. }
    assert (j1 = j2) as <-
      by (eapply NoDup_lookup; [eapply NoDup_fmap_1, D|done..]).
    congruence.
  - apply Forall_app. split; [done|]. constructor; [|constructor].
    destruct Hf as [(-> & -> & ?)|(-> & -> & ?)]; [done|]. by apply ltb_other.
  - rewrite fmap_app. apply NoDup_app. split_and!; [done| |apply NoDup_singleton].
    intros x (g & -> & Hg)%list_elem_of_fmap Hx%list_elem_of_singleton.
    apply not_true_iff_false in Hnot. destruct Hnot.
    apply areFriends_spec. exists g. split; [done|].
    simplify_eq. destruct Hf as [(<- & <- & _)|(<- & <- & _)]; auto.
  - intros a b. rewrite areFriends_app, FA, Hpair. split.
    + intros [(x & [j Hj]%list_elem_of_lookup & Hacc & Hb)|Hb].
      * exists x. split; [|done]. apply (elem_of_alter_at _ _ _ _ _ Hi).
        right. exists j. split; [|done]. intros ->. congruence.
      * exists (Friends.accept r). split; [|done].
        apply (elem_of_alter_at _ _ _ _ _ Hi). by left.
    + intros (x & Hx & Hacc & Hb).
      apply (elem_of_alter_at _ _ _ _ _ Hi) in Hx as [->|(j & _ & Hj)].
      * by right.
      * left. exists x. split; [by eapply list_elem_of_lookup_2|done].
Qed.

Lemma consistent_withdrawn db i r :
  Friends.consistent db →
  Friends.requests db !! i = Some r →
  Friends.status r = Friends.pending →
  Friends.consistent
    (Friends.mkDb (Friends.users db) (delete i (Friends.requests db))
       (Friends.friends db) (Friends.nextId db)).
Proof.
  intros [F D S K O SF OF FA] Hi Hp.
  constructor; simpl; try done.
  - by apply Forall_delete.
  - rewrite list_fmap_delete. eapply sublist_NoDup; [done|apply sublist_delete].
  - by apply Forall_delete.
  - by apply Forall_delete.
  - intros r1 r2 H1%list_elem_of_delete_inv H2%list_elem_of_delete_inv.
    by apply O.
  - intros a b. rewrite FA. split; intros (x & Hx & Hacc & Hb); exists x.
    + split; [|done]. apply list_elem_of_lookup in Hx as [j Hj].
      eapply elem_of_delete_other; [done|]. intros ->. congruence.
    + split; [by eapply list_elem_of_delete_inv|done].
Qed.

Lemma Change_consistent db db' :
  Friends.consistent db → Friends.Change db db' → Friends.consistent db'.
Proof.
  intros Hc [->|r ? ? ? ? ? ? ->|i r f ? ? ? ? ->|i r ? ? ->].
  - done.
  - by apply consistent_requested.
  - by eapply consistent_befriended.
  - by eapply consistent_withdrawn.
Qed.

Lemma empty_consistent accounts : Friends.consistent (Friends.empty accounts).
Proof.
  constructor; simpl; try by constructor.
  - intros ?? []%elem_of_nil.
  - intros a b. split; [done|]. by intros (? & []%elem_of_nil & _).
Qed.

Lemma friends_run_cons db c rest :
  Friends.run db (c :: rest)
  = ((Friends.run (Friends.step db c).1 rest).1,
     (Friends.step db c).2 :: (Friends.run (Friends.step db c).1 rest).2).
Proof.
  simpl. destruct (Friends.step db c) as [db1 a]. simpl.
  by destruct (Friends.run db1 rest).
Qed.

Lemma friends_run_consistent db trace :
  Friends.consistent db → Friends.consistent (Friends.run db trace).1.
Proof.
  revert db. induction trace as [|c rest IH]; intros db Hc; [done|].
  rewrite friends_run_cons. simpl. apply IH.
  eapply Change_consistent; [done|apply friends_step_change].
Qed.

Lemma friendsAsked_consistent : Friends.consistent friendsAsked.
Proof. apply friends_run_consistent, empty_consistent. Qed.

Lemma friendsMade_consistent : Friends.consistent friendsMade.
Proof. apply friends_run_consistent, friendsAsked_consistent. Qed.

(** ** Requests, acceptance and withdrawal *)

Lemma findById_own db r :
  Friends.consistent db → r ∈ Friends.requests db →
  ∃ i, Friends.findById (Friends._id r) (Friends.requests db) = Some (i, r)
       ∧ Friends.requests db !! i = Some r.
Proof.
  intros Hc Hr. unfold Friends.findById.
  destruct (findOne_found
              (λ x, bool_decide (Friends._id x = Friends._id r)) _ r Hr)
    as (i & y & E); [by apply bool_decide_eq_true|].
  pose proof E as [Hi Hy%bool_decide_eq_true]%findOne_Some.
  assert (y = r) as ->; [|eauto].
  apply list_elem_of_lookup in Hr as [j Hj].
  assert (i = j) as ->; [|congruence].
  eapply (NoDup_lookup _ _ _ (Friends._id r));
    [apply (Friends.ids_distinct _ Hc)| |].
  - rewrite list_lookup_fmap, Hi. simpl. by rewrite Hy.
  - by rewrite list_lookup_fmap, Hj.
Qed.

Lemma pending_not_friends db r :
  Friends.consistent db → r ∈ Friends.requests db →
  Friends.status r = Friends.pending →
  Friends.areFriends (Friends.sender r) (Friends.receiver r)
    (Friends.friends db) = false.
Proof.
  intros Hc Hr Hp. apply not_true_iff_false.
  intros (x & Hx & Hacc & Hb)%(Friends.friends_by_acceptance _ Hc).
  assert (r = x) as -> by by apply (Friends.one_request _ Hc).
  congruence.
Qed.



Lemma findOne_ext {A} (f g : A → bool) l :
  (∀ x, f x = g x) → findOne f l = findOne g l.
Proof.
  intros H. unfold findOne. apply list_find_ext. intros x. by rewrite H.
Qed.

Lemma relationship_of_friends env a b db :
  storeUp env = true →
  Friends.areFriends a b (Friends.friends db) = true →
  (Friends.relationship_status env (Token a) b db).2
  = Friends.relationship Friends.are_friends None.
Proof.
  intros Hup Hf. unfold Friends.relationship_status. simpl.
  by rewrite Hup, Hf.
Qed.



(** The receiver of a pending request who accepts it gets the new
    friendship back; the request is then marked accepted and both users
    are told that they are friends. *)
Theorem accepting_makes_friends env env' db r :
  Friends.consistent db → storeUp env = true → storeUp env' = true →
  r ∈ Friends.requests db → Friends.status r = Friends.pending →
  let out := Friends.accept_friend_request env (Token (Friends.receiver r))
               (Friends._id r) db in
  out.2 = Friends.requestAccepted (length (Friends.friends db)) (clk env 0)
  ∧ Friends.accept r ∈ Friends.requests out.1
  ∧ (Friends.relationship_status env' (Token (Friends.sender r))
       (Friends.receiver r) out.1).2
    = Friends.relationship Friends.are_friends None
  ∧ (Friends.relationship_status env' (Token (Friends.receiver r))
       (Friends.sender r) out.1).2
    = Friends.relationship Friends.are_friends None.
Proof.
  intros Hc Hup Hup' Hr Hp.
  destruct (findById_own db r Hc Hr) as (i & Hfind & Hi).
  pose proof (pending_not_friends db r Hc Hr Hp) as Hnf.
  rewrite accept_friend_request_run. simpl. rewrite Hup. simpl.
  rewrite Hfind. rewrite bool_decide_eq_true_2 by done. simpl.
  rewrite (bool_decide_eq_true_2 _ Hp). simpl. rewrite Hnf.
  unfold Friends.saveFriend.
  destruct (findOne _ (Friends.friends db)) as [[j g]|] eqn:Hs.
  { exfalso. apply findOne_Some in Hs as [Hj Hg%bool_decide_eq_true].
    simpl in Hg. apply not_true_iff_false in Hnf. apply Hnf.
    apply areFriends_spec. exists g.
    split; [by eapply list_elem_of_lookup_2|].
    destruct (String.ltb _ _); tauto. }
  simpl.
  assert (∀ a b, Friends.between a b r = true →
                 Friends.areFriends a b
                   (Friends.friends db ++
                    [Friends.mkFriend
                       (if String.ltb (Friends.sender r) (Friends.receiver r)
                        then Friends.sender r else Friends.receiver r)
                       (if String.ltb (Friends.sender r) (Friends.receiver r)
                        then Friends.receiver r else Friends.sender r)
                       (clk env 0)]) = true) as Hnow.
  { intros a b Hb%between_spec. apply areFriends_app. right. simpl.
    destruct (String.ltb _ _); tauto. }
  split_and!.
  - done.
  - apply (elem_of_alter_at _ _ _ _ _ Hi). by left.
  - apply relationship_of_friends; [done|]. simpl. apply Hnow, between_own.
  - apply relationship_of_friends; [done|]. simpl. apply Hnow.
    rewrite between_sym. apply between_own.
Qed.

Lemma accepting_makes_friends_witness :
  (Friends.accept_friend_request (at_time 2000) (Token "bob") 0
     friendsAsked).2
  = Friends.requestAccepted 0 2000
  ∧ (Friends.relationship_status (at_time 3000) (Token "alice") "bob"
       friendsMade).2
    = Friends.relationship Friends.are_friends None.
Proof.
  destruct (accepting_makes_friends (at_time 2000) (at_time 3000)
              friendsAsked aliceAsks) as (H1 & H2 & H3 & H4).
  - apply friendsAsked_consistent.
  - reflexivity.
  - reflexivity.
  - apply list_elem_of_lookup_2 with 0%nat. by vm_compute.
  - reflexivity.
  - split; [exact H1|exact H3].
Defined.

(** Two different users always get mirrored answers about their
    relationship: friends for both or for neither, and a pending request
    that one of them sees as sent is the one the other sees as
    received. *)
Theorem relationship_is_mirrored env1 env2 a b db :
  storeUp env1 = true → storeUp env2 = true → a ≠ b →
  ∃ s q,
    (Friends.relationship_status env1 (Token a) b db).2
    = Friends.relationship s q
    ∧ (Friends.relationship_status env2 (Token b) a db).2
      = Friends.relationship (Friends.mirrored s) q.
Proof.
  intros Hup1 Hup2 Hne. unfold Friends.relationship_status. simpl.
  rewrite Hup1, Hup2. simpl. rewrite (areFriends_sym b a).
  destruct (Friends.areFriends a b _); [by eexists _, _|].
  rewrite (findOne_ext (Friends.pendingBetween b a) (Friends.pendingBetween a b))
    by (intros x; unfold Friends.pendingBetween; by rewrite between_sym).
  destruct (findOne _ _) as [[i x]|] eqn:E; [|by eexists _, _].
  apply findOne_Some in E as [_ Hx]. unfold Friends.pendingBetween in Hx.
  apply andb_true_iff in Hx as [Hx%between_spec _].
  destruct Hx as [[<- <-]|[<- <-]].
  - rewrite bool_decide_eq_true_2 by done.
    rewrite (bool_decide_eq_false_2 (_ = Friends.receiver x)) by done.
    by eexists _, _.
  - rewrite bool_decide_eq_false_2 by done.
    rewrite (bool_decide_eq_true_2 (Friends.sender x = Friends.sender x)) by done.
    by eexists _, _.
Qed.

Lemma relationship_is_mirrored_witness :
  ∃ s q,
    (Friends.relationship_status (at_time 1500) (Token "alice") "bob"
       friendsAsked).2 = Friends.relationship s q
    ∧ (Friends.relationship_status (at_time 1600) (Token "bob") "alice"
         friendsAsked).2 = Friends.relationship (Friends.mirrored s) q
    ∧ s = Friends.request_sent.
Proof.
  destruct (relationship_is_mirrored (at_time 1500) (at_time 1600)
              "alice" "bob" friendsAsked) as (s & q & H1 & H2);
    [reflexivity|reflexivity|done|].
  exists s, q. split_and!; [exact H1|exact H2|].
  vm_compute in H1. congruence.
Defined.



Lemma not_in_delete {A} (l : list A) i x :
  NoDup l → l !! i = Some x → x ∉ delete i l.
Proof.
  intros Hnd Hi [j Hj]%list_elem_of_lookup.
  destruct (decide (j < i)%nat).
  - rewrite list_lookup_delete_lt in Hj by done.
    pose proof (NoDup_lookup _ _ _ _ Hnd Hi Hj). lia.
  - rewrite list_lookup_delete_ge in Hj by lia.
    pose proof (NoDup_lookup _ _ _ _ Hnd Hi Hj). lia.
Qed.

(** No call removes a friendship, and only one thing creates one:
    the receiver of a pending request accepting it.  The new friendship
    then joins the sender and the receiver of that request. *)
Theorem friendship_needs_the_receivers_acceptance db c :
  Friends.friends (Friends.step db c).1 = Friends.friends db
  ∨ ∃ r f,
      c.2 = Friends.Accept (Token (Friends.receiver r)) (Friends._id r)
      ∧ r ∈ Friends.requests db
      ∧ Friends.status r = Friends.pending
      ∧ Friends.friends (Friends.step db c).1 = Friends.friends db ++ [f]
      ∧ ((Friends.user1 f = Friends.sender r
          ∧ Friends.user2 f = Friends.receiver r)
         ∨ (Friends.user1 f = Friends.receiver r
            ∧ Friends.user2 f = Friends.sender r)).
Proof.
  destruct c as [env [cred receiverId text|cred other|cred requestId
                     |cred requestId|cred]]; unfold Friends.step; cbn [fst snd].
  - left. unfold Friends.friend_request.
    destruct cred as [| |uid]; simpl; try done.
    destruct (falsyId receiverId); [done|].
    destruct (storeUp env); simpl; [|done].
    destruct (Friends.users db !! _); [|by destruct (isObjectId _)].
    case_bool_decide; [done|].
    destruct (findOne _ _) as [[j existing]|]; [|done].
    by case_bool_decide.
  - left. by rewrite relationship_status_reads.
  - rewrite accept_friend_request_run.
    destruct cred as [| |uid]; simpl; try by left.
    destruct (storeUp env); simpl; [|by left].
    destruct (Friends.findById _ _) as [[i fr]|] eqn:Hfind; [|by left].
    apply findOne_Some in Hfind as [Hi Hid%bool_decide_eq_true].
    case_bool_decide as Hrcv; simpl; [|by left].
    case_bool_decide as Hp; simpl; [|by left].
    destruct (Friends.areFriends _ _ _); [by left|].
    unfold Friends.saveFriend. destruct (findOne _ _) as [?|]; [by left|].
    simpl. right. eexists fr, _. subst. split_and!; try done.
    + by eapply list_elem_of_lookup_2.
    + simpl. destruct (String.ltb _ _); auto.
  - left. unfold Friends.cancel_friend_request.
    destruct cred as [| |uid]; simpl; try done.
    destruct (storeUp env); simpl; [|done].
    destruct (Friends.findById _ _) as [[i fr]|]; [|done].
    case_bool_decide; simpl; [|done]. by case_bool_decide.
  - left. by rewrite friends_list_reads.
Qed.

(** The sender of a pending request can withdraw it; the two users
    are then told that nothing is between them, and the sender can ask
    again. *)
Theorem withdrawn_request_can_be_sent_again env env' db r text :
  Friends.consistent db → storeUp env = true → storeUp env' = true →
  r ∈ Friends.requests db → Friends.status r = Friends.pending →
  let out := Friends.cancel_friend_request env (Token (Friends.sender r))
               (Friends._id r) db in
  out.2 = Friends.requestCancelled
  ∧ (r ∉ Friends.requests out.1)
  ∧ (Friends.relationship_status env' (Token (Friends.sender r))
       (Friends.receiver r) out.1).2
    = Friends.relationship Friends.no_relationship None
  ∧ (Friends.relationship_status env' (Token (Friends.receiver r))
       (Friends.sender r) out.1).2
    = Friends.relationship Friends.no_relationship None
  ∧ ∃ r', (Friends.friend_request env' (Token (Friends.sender r))
             (Some (Friends.receiver r)) text out.1).2
          = Friends.requestCreated r'
          ∧ Friends.sender r' = Friends.sender r
          ∧ Friends.receiver r' = Friends.receiver r
          ∧ Friends._id r' ≠ Friends._id r.
Proof.
  intros Hc Hup Hup' Hr Hp.
  destruct (findById_own db r Hc Hr) as (i & Hfind & Hi).
  pose proof (pending_not_friends db r Hc Hr Hp) as Hnf.
  pose proof (Forall_lookup_1 _ _ _ _ (Friends.not_to_self _ Hc) Hi) as Hne.
  pose proof (Forall_lookup_1 _ _ _ _ (Friends.receivers_known _ Hc) Hi)
    as [Hnamed [name Hknown]].
  pose proof (Forall_lookup_1 _ _ _ _ (Friends.ids_fresh _ Hc) Hi) as Hfresh.
  simpl in Hne, Hnamed, Hknown, Hfresh.
  assert (r ∉ delete i (Friends.requests db)) as Hgone.
  { apply not_in_delete; [|done].
    eapply NoDup_fmap_1, (Friends.ids_distinct _ Hc). }
  assert (∀ y, y ∈ delete i (Friends.requests db) →
               Friends.between (Friends.sender r) (Friends.receiver r) y
               = false) as Hnone.
  { intros y Hy. apply not_true_iff_false. intros Hb.
    assert (r = y) as ->; [|done].
    apply (Friends.one_request _ Hc); [done| |done].
    by eapply list_elem_of_delete_inv. }
  unfold Friends.cancel_friend_request. simpl. rewrite Hup. simpl.
  rewrite Hfind. rewrite bool_decide_eq_true_2 by done. simpl.
  rewrite (bool_decide_eq_true_2 _ Hp). simpl.
  split_and!; [done|done| | |].
  - unfold Friends.relationship_status. simpl. rewrite Hup'. simpl.
    rewrite Hnf.
    destruct (findOne _ _) as [[j y]|] eqn:E; [|done].
    apply findOne_Some in E as [Hj Hy]. unfold Friends.pendingBetween in Hy.
    apply andb_true_iff in Hy as [Hy _].
    rewrite Hnone in Hy; [done|by eapply list_elem_of_lookup_2].
  - unfold Friends.relationship_status. simpl. rewrite Hup'. simpl.
    rewrite areFriends_sym, Hnf.
    destruct (findOne _ _) as [[j y]|] eqn:E; [|done].
    apply findOne_Some in E as [Hj Hy]. unfold Friends.pendingBetween in Hy.
    apply andb_true_iff in Hy as [Hy _]. rewrite between_sym in Hy.
    rewrite Hnone in Hy; [done|by eapply list_elem_of_lookup_2].
  - unfold Friends.friend_request. simpl.
    destruct (Friends.receiver r) as [|c rest] eqn:Hrcv; [done|].
    simpl. rewrite Hup'. simpl. rewrite Hknown.
    rewrite bool_decide_eq_false_2 by done.
    rewrite (proj2 (findOne_None _ _) Hnone). simpl.
    eexists. split; [reflexivity|]. simpl. split_and!; [done..|lia].
Qed.

Lemma withdrawn_request_can_be_sent_again_witness :
  (Friends.cancel_friend_request (at_time 2000) (Token "alice") 0
     friendsAsked).2 = Friends.requestCancelled
  ∧ ∃ r', (Friends.friend_request (at_time 3000) (Token "alice")
             (Some "bob") None
             (Friends.cancel_friend_request (at_time 2000) (Token "alice") 0
                friendsAsked).1).2
          = Friends.requestCreated r'
          ∧ Friends._id r' ≠ 0%nat.
Proof.
  destruct (withdrawn_request_can_be_sent_again (at_time 2000)
              (at_time 3000) friendsAsked aliceAsks None)
    as (H1 & _ & _ & _ & r' & H5 & _ & _ & H8).
  - apply friendsAsked_consistent.
  - reflexivity.
  - reflexivity.
  - apply list_elem_of_lookup_2 with 0%nat. by vm_compute.
  - reflexivity.
  - split; [exact H1|]. exists r'. split; [exact H5|exact H8].
Defined.

(** When the store is lost between the two writes of an accept, the
    friendship is stored and the request stays pending: the receiver is
    answered 500, the two users are friends, the records no longer agree,
    and accepting again is refused with 400. *)
Theorem accept_cut_between_its_writes env1 env2 env3 db r :
  Friends.consistent db →
  storeUp env1 = true → storeUp env2 = false → storeUp env3 = true →
  r ∈ Friends.requests db → Friends.status r = Friends.pending →
  let out := Friends.accept_friend_request_cut env1 env2
               (Token (Friends.receiver r)) (Friends._id r) db in
  out.2 = Friends.failure 500 "Server error"
  ∧ Friends.requests out.1 = Friends.requests db
  ∧ Friends.areFriends (Friends.sender r) (Friends.receiver r)
      (Friends.friends out.1) = true
  ∧ ¬ Friends.consistent out.1
  ∧ Friends.accept_friend_request env3 (Token (Friends.receiver r))
      (Friends._id r) out.1
    = (out.1, Friends.failure 400 "You are already friends with this user").
Proof.
  intros Hc Hup1 Hup2 Hup3 Hr Hp.
  destruct (findById_own db r Hc Hr) as (i & Hfind & Hi).
  pose proof (pending_not_friends db r Hc Hr Hp) as Hnf.
  unfold Friends.accept_friend_request_cut,
    Friends.accept_friend_request_befriend,
    Friends.accept_friend_request_settle.
  simpl. rewrite Hup1. simpl. rewrite Hfind.
  rewrite bool_decide_eq_true_2 by done. simpl.
  rewrite (bool_decide_eq_true_2 _ Hp). simpl. rewrite Hnf.
  unfold Friends.saveFriend.
  destruct (findOne _ (Friends.friends db)) as [[j g]|] eqn:Hs.
  { exfalso. apply findOne_Some in Hs as [Hj Hg%bool_decide_eq_true].
    simpl in Hg. apply not_true_iff_false in Hnf. apply Hnf.
    apply areFriends_spec. exists g.
    split; [by eapply list_elem_of_lookup_2|].
    destruct (String.ltb _ _); tauto. }
  simpl. rewrite Hup2. simpl.
  assert (Friends.areFriends (Friends.sender r) (Friends.receiver r)
            (Friends.friends db ++
             [Friends.mkFriend
                (if String.ltb (Friends.sender r) (Friends.receiver r)
                 then Friends.sender r else Friends.receiver r)
                (if String.ltb (Friends.sender r) (Friends.receiver r)
                 then Friends.receiver r else Friends.sender r)
                (clk env1 0)]) = true) as Hnow.
  { apply areFriends_app. right. simpl. destruct (String.ltb _ _); tauto. }
  split_and!; [done|done|exact Hnow| |].
  - intros Hc1.
    apply (Friends.friends_by_acceptance _ Hc1) in Hnow
      as (x & Hx & Hacc & Hb).
    simpl in Hx.
    assert (r = x) as -> by by apply (Friends.one_request _ Hc).
    congruence.
  - rewrite accept_friend_request_run. simpl. rewrite Hup3. simpl.
    rewrite Hfind. rewrite bool_decide_eq_true_2 by done. simpl.
    rewrite (bool_decide_eq_true_2 _ Hp). simpl. by rewrite Hnow.
Qed.

Lemma accept_cut_between_its_writes_witness :
  (Friends.accept_friend_request_cut (at_time 2000) (mkEnv (λ _, 2000) false)
     (Token "bob") 0 friendsAsked).2
  = Friends.failure 500 "Server error"
  ∧ Friends.status
      <$> Friends.requests
            (Friends.accept_friend_request_cut (at_time 2000)
               (mkEnv (λ _, 2000) false) (Token "bob") 0 friendsAsked).1
    = [Friends.pending]
  ∧ Friends.areFriends "alice" "bob"
      (Friends.friends
         (Friends.accept_friend_request_cut (at_time 2000)
            (mkEnv (λ _, 2000) false) (Token "bob") 0 friendsAsked).1)
    = true.
Proof.
  destruct (accept_cut_between_its_writes (at_time 2000)
              (mkEnv (λ _, 2000) false) (at_time 3000) friendsAsked aliceAsks)
    as (H1 & _ & H3 & _).
  - apply friendsAsked_consistent.
  - reflexivity.
  - reflexivity.
  - reflexivity.
  - apply list_elem_of_lookup_2 with 0%nat. by vm_compute.
  - reflexivity.
  - split_and!; [exact H1|by vm_compute|exact H3].
Defined.

(** ** The friends list *)

Lemma find_snd_shifted {A} (f : A → bool) (g : nat → nat) coll :
  (List.filter (λ p, f p.2) (imap (λ i x, (g i, x)) coll)).*2
  = List.filter f coll.
Proof.
  revert g. induction coll as [|x coll IH]; intros g; [done|].
  simpl. destruct (f x); simpl; [f_equal|]; apply (IH (g ∘ S)).
Qed.

Lemma find_snd {A} (f : A → bool) coll :
  (find f coll).*2 = List.filter f coll.
Proof. apply (find_snd_shifted f id). Qed.

Lemma elem_of_filter_bool {A} (f : A → bool) l x :
  x ∈ List.filter f l ↔ x ∈ l ∧ f x = true.
Proof. by rewrite !list_elem_of_In, filter_In. Qed.

Lemma getFriends_populated u db (ps : list (nat * Friends.Friend)) :
  Forall (λ f, is_Some (Friends.users db !! Friends.user1 f)
               ∧ is_Some (Friends.users db !! Friends.user2 f)) ps.*2 →
  ∃ l,
    mapM (λ p : nat * Friends.Friend,
            match Friends.populate db (Friends.user1 p.2) with
            | None => None
            | Some u1 =>
                Some (if bool_decide (u1.1 = u)
                      then Friends.populate db (Friends.user2 p.2)
                      else Some u1)
            end) ps = Some (Some <$> l)
    ∧ l.*1 = Friends.otherSide u <$> ps.*2
    ∧ Forall (λ p, Friends.users db !! p.1 = Some p.2) l.
Proof.
  induction ps as [|[i f] ps IH]; intros Hk.
  { by exists []. }
  apply Forall_cons in Hk as [[[n1 H1] [n2 H2]] Hk]. simpl in H1, H2.
  destruct (IH Hk) as (l & Hl & Hfst & Hall).
  exists ((Friends.otherSide u f,
           if bool_decide (Friends.user1 f = u) then n2 else n1) :: l).
  split_and!.
  - cbn [mapM snd]. rewrite Hl. unfold Friends.populate.
    rewrite H1, H2. simpl. unfold Friends.otherSide.
    by case_bool_decide.
  - rewrite !fmap_cons. by rewrite Hfst.
  - constructor; [|done]. simpl. unfold Friends.otherSide.
    by case_bool_decide.
Qed.

Lemma otherSide_NoDup u fs :
  Forall (λ f, String.ltb (Friends.user1 f) (Friends.user2 f) = true) fs →
  NoDup ((λ f, (Friends.user1 f, Friends.user2 f)) <$> fs) →
  NoDup (Friends.otherSide u <$> List.filter (Friends.involves u) fs).
Proof.
  induction fs as [|f fs IH]; intros Hord Hnd; [constructor|].
  apply Forall_cons in Hord as [Hf Hord].
  rewrite fmap_cons in Hnd. apply NoDup_cons in Hnd as [Hnew Hnd].
  simpl. destruct (Friends.involves u f) eqn:Hu; [|by apply IH].
  rewrite fmap_cons. apply NoDup_cons. split; [|by apply IH].
  intros (g & Hog & [Hg Hgu]%elem_of_filter_bool)%list_elem_of_fmap.
  apply Hnew. apply list_elem_of_fmap. exists g. split; [|done].
  pose proof (proj1 (Forall_forall _ _) Hord g Hg) as Hgord. simpl in Hgord.
  unfold Friends.involves in Hu, Hgu. unfold Friends.otherSide in Hog.
  rewrite orb_true_iff, !bool_decide_eq_true in Hu, Hgu.
  repeat case_bool_decide; subst.
  - congruence.
  - destruct Hgu as [?|Hgu]; [done|]. rewrite Hgu in Hgord.
    apply ltb_asym in Hf. congruence.
  - destruct Hu as [?|Hu]; [done|]. rewrite Hu in Hf.
    apply ltb_asym in Hf. congruence.
  - destruct Hu as [?|Hu]; [done|]. destruct Hgu as [?|Hgu]; [done|].
    congruence.
Qed.

Lemma otherSide_are_the_friends u v fs :
  v ∈ Friends.otherSide u <$> List.filter (Friends.involves u) fs
  ↔ Friends.areFriends u v fs = true.
Proof.
  rewrite areFriends_spec, list_elem_of_fmap.
  unfold Friends.otherSide, Friends.involves. split.
  - intros (f & -> & [Hf Hu]%elem_of_filter_bool). exists f. split; [done|].
    rewrite orb_true_iff, !bool_decide_eq_true in Hu.
    case_bool_decide; tauto.
  - intros (f & Hf & H). exists f. split.
    + case_bool_decide; destruct H as [[? ?]|[? ?]]; congruence.
    + apply elem_of_filter_bool. split; [done|].
      rewrite orb_true_iff, !bool_decide_eq_true. tauto.
Qed.

(** When the users of every friendship have accounts, the friends
    list of a user names exactly the users they are friends with, each
    once, under the full name of the account. *)
Theorem friends_list_names_the_friends env u db :
  Friends.consistent db → Friends.known db → storeUp env = true →
  ∃ l, (Friends.friends_list env (Token u) db).2 = Friends.friendList l
       ∧ NoDup l.*1
       ∧ (∀ v, v ∈ l.*1 ↔ Friends.areFriends u v (Friends.friends db) = true)
       ∧ Forall (λ p, Friends.users db !! p.1 = Some p.2) l.
Proof.
  intros Hc Hk Hup.
  destruct (getFriends_populated u db
              (find (Friends.involves u) (Friends.friends db)))
    as (l & Hl & Hfst & Hall).
  { rewrite find_snd. apply Forall_forall.
    intros f [Hf _]%elem_of_filter_bool.
    by apply (proj1 (Forall_forall _ _) Hk). }
  rewrite find_snd in Hfst.
  exists l. split_and!; [|rewrite Hfst..|done].
  - unfold Friends.friends_list. simpl. rewrite Hup. simpl.
    unfold Friends.getFriends.
    change (λ f : Friends.Friend,
              bool_decide (Friends.user1 f = u)
              || bool_decide (Friends.user2 f = u))
      with (Friends.involves u).
    rewrite Hl. by rewrite mapM_fmap_Some.
  - apply otherSide_NoDup.
    + apply (Friends.smaller_first _ Hc).
    + apply (Friends.one_friendship _ Hc).
  - intros v. apply otherSide_are_the_friends.
Qed.

Lemma friends_list_names_the_friends_witness :
  ∃ l, (Friends.friends_list (at_time 3000) (Token "alice") friendsMade).2
       = Friends.friendList l
       ∧ NoDup l.*1
       ∧ l = [("bob", "Bob")].
Proof.
  destruct (friends_list_names_the_friends (at_time 3000) "alice"
              friendsMade) as (l & Hl & Hnd & _ & _).
  - apply friendsMade_consistent.
  - unfold Friends.known.
    change (Friends.friends friendsMade)
      with [Friends.mkFriend "alice" "bob" 2000].
    constructor; [|constructor]. split; eexists; by vm_compute.
  - reflexivity.
  - exists l. split_and!; [exact Hl|exact Hnd|].
    vm_compute in Hl. congruence.
Defined.

(** * Email validation *)

Lemma more_spec class rest s :
  more class rest s = true
  ↔ ∃ a b, s = a ++ b ∧ Forall (λ c, class c = true) a ∧ rest b = true.
Proof.
  induction s as [|c s IH]; simpl.
  - split.
    + intros H. by exists [], [].
    + intros (a & b & Hs & _ & Hb). symmetry in Hs.
      apply app_eq_nil in Hs as [_ ->]. done.
  - rewrite orb_true_iff, andb_true_iff, IH. split.
    + intros [[Hc (a & b & -> & Ha & Hb)]|H].
      * exists (c :: a), b. by split_and!; [|constructor|].
      * by exists [], (c :: s).
    + intros (a & b & Hs & Ha & Hb). destruct a as [|c' a]; simpl in Hs.
      * right. by subst.
      * left. simplify_eq. apply Forall_cons in Ha as [Hc Ha].
        split; [done|]. by exists a, b.
Qed.

Lemma test_oneOrMore class pattern s :
  test (oneOrMore class :: pattern) s = true
  ↔ ∃ a b, s = a ++ b ∧ a ≠ [] ∧ Forall (λ c, class c = true) a
           ∧ test pattern b = true.
Proof.
  destruct s as [|c s]; simpl.
  - split; [done|]. intros (a & b & Hs & Ha & _). symmetry in Hs.
    by apply app_eq_nil in Hs as [-> _].
  - rewrite andb_true_iff, more_spec. split.
    + intros [Hc (a & b & -> & Ha & Hb)].
      exists (c :: a), b. by split_and!; [| |constructor|].
    + intros (a & b & Hs & Hne & Ha & Hb). destruct a as [|c' a]; [done|].
      simplify_eq/=. apply Forall_cons in Ha as [Hc Ha].
      split; [done|]. by exists a, b.
Qed.

Lemma test_literal c pattern s :
  test (literal c :: pattern) s = true
  ↔ ∃ b, s = c :: b ∧ test pattern b = true.
Proof.
  destruct s as [|c' s]; simpl.
  - split; [done|]. by intros (? & ? & _).
  - rewrite andb_true_iff, N.eqb_eq. split.
    + intros [-> H]. eauto.
    + intros (b & [= -> ->] & H). done.
Qed.

Lemma notSpaceOrAt_spec s :
  Forall (λ c, notSpaceOrAt c = true) s
  ↔ Forall (λ c, isWhiteSpace c = false ∧ c ≠ 64%N) s.
Proof.
  apply Forall_proper; [|done]. intros c. unfold notSpaceOrAt.
  rewrite andb_true_iff, !negb_true_iff, N.eqb_neq. done.
Qed.

Lemma isValidEmail_parts s :
  isValidEmail s = true →
  ∃ l d t, s = l ++ 64%N :: d ++ 46%N :: t ∧ word l ∧ word d ∧ word t.
Proof.
  unfold isValidEmail, emailRegex.
  intros (l & b1 & -> & Hl & Hpl & H)%test_oneOrMore.
  apply test_literal in H as (b2 & -> & H).
  apply test_oneOrMore in H as (d & b3 & -> & Hd & Hpd & H).
  apply test_literal in H as (b4 & -> & H).
  apply test_oneOrMore in H as (t & e & -> & Ht & Hpt & H).
  destruct e; [|done]. rewrite app_nil_r.
  exists l, d, t. unfold word. by rewrite <- !notSpaceOrAt_spec.
Qed.

Lemma parts_isValidEmail l d t :
  word l → word d → word t →
  isValidEmail (l ++ 64%N :: d ++ 46%N :: t) = true.
Proof.
  unfold word. rewrite <- !notSpaceOrAt_spec.
  intros [Hl Hpl] [Hd Hpd] [Ht Hpt]. unfold isValidEmail, emailRegex.
  apply test_oneOrMore. exists l, (64%N :: d ++ 46%N :: t).
  split_and!; try done.
  apply test_literal. eexists. split; [done|].
  apply test_oneOrMore. exists d, (46%N :: t). split_and!; try done.
  apply test_literal. eexists. split; [done|].
  apply test_oneOrMore. exists t, []. by rewrite app_nil_r.
Qed.

(** The strings that pass the email check are exactly those of the form
    local@domain.rest, where each of the three parts is non-empty and
    holds no white space and no [@]; dots may occur in any part. *)
Theorem isValidEmail_spec s :
  isValidEmail s = true
  ↔ ∃ l d t, s = l ++ 64%N :: d ++ 46%N :: t ∧ word l ∧ word d ∧ word t.
Proof.
  split; [apply isValidEmail_parts|].
  intros (l & d & t & -> & Hl & Hd & Ht). by apply parts_isValidEmail.
Qed.

Lemma trimStart_tight s :
  (∀ c, head s = Some c → isWhiteSpace c = false) → trimStart s = s.
Proof.
  destruct s as [|c s]; [done|]. intros H. simpl. by rewrite (H c).
Qed.

Lemma trim_tight s : tight s → trim s = s.
Proof.
  intros [Hh Hl]. unfold trim, trimEnd. rewrite (trimStart_tight s Hh).
  rewrite trimStart_tight; [apply reverse_involutive|].
  intros c. rewrite head_reverse. apply Hl.
Qed.

Lemma word_no_space s :
  word s → Forall (λ c, isWhiteSpace c = false) s.
Proof. intros [_ H]. eapply Forall_impl; [exact H|]. by intros c [? _]. Qed.

Lemma word_no_at s : word s → List.filter (N.eqb 64) s = [].
Proof.
  intros [_ H]. induction H as [|c s [_ Hc] _ IH]; [done|].
  cbn [List.filter]. destruct (N.eqb_spec 64 c) as [E|_]; [congruence|exact IH].
Qed.

(** A string that passes the email check holds no white space at all, so
    trimming it changes nothing, and it holds exactly one [@]. *)
Theorem valid_email_has_no_space_and_one_at s :
  isValidEmail s = true →
  Forall (λ c, isWhiteSpace c = false) s
  ∧ trim s = s
  ∧ List.filter (N.eqb 64) s = [64%N].
Proof.
  intros (l & d & t & -> & Hl & Hd & Ht)%isValidEmail_parts.
  assert (Forall (λ c, isWhiteSpace c = false) (l ++ 64%N :: d ++ 46%N :: t))
    as Hns.
  { apply Forall_app. split; [by apply word_no_space|].
    constructor; [done|]. apply Forall_app. split; [by apply word_no_space|].
    constructor; [done|]. by apply word_no_space. }
  split_and!; [done| |].
  - apply trim_tight. split; intros c Hc.
    + apply head_Some_elem_of in Hc.
      by apply (proj1 (Forall_forall _ _) Hns).
    + apply last_Some_elem_of in Hc.
      by apply (proj1 (Forall_forall _ _) Hns).
  - rewrite List.filter_app. cbn [List.filter N.eqb Pos.eqb].
    rewrite List.filter_app. cbn [List.filter N.eqb Pos.eqb].
    by rewrite !word_no_at.
Qed.

Lemma valid_email_has_no_space_and_one_at_witness :
  isValidEmail (lit "a.b@mail.example.org") = true
  ∧ trim (lit "a.b@mail.example.org") = lit "a.b@mail.example.org".
Proof.
  split; [by vm_compute|].
  apply (valid_email_has_no_space_and_one_at (lit "a.b@mail.example.org")).
  by vm_compute.
Defined.

(** ** The user id format *)

Lemma userIdFormatOk_parts s :
  userIdFormatOk s = true
  ↔ (3 ≤ length s ≤ 30)%nat ∧ Forall (λ c, wordChar c = true) s.
Proof.
  unfold userIdFormatOk, userIdRegex.
  rewrite negb_true_iff, !orb_false_iff, negb_false_iff, !Nat.ltb_ge.
  rewrite test_oneOrMore. split.
  - intros [[(a & b & -> & _ & Ha & Hb) H3] H30]. destruct b; [|done].
    rewrite app_nil_r in *. auto.
  - intros [[H3 H30] Hs]. split_and!; [|done..].
    exists s, []. rewrite app_nil_r. split_and!; try done.
    intros ->. simpl in H3. lia.
Qed.

(** The user id format check passes exactly the strings of 3 to 30 code
    units that are all ASCII letters, digits or underscores. *)
Theorem userIdFormatOk_spec s :
  userIdFormatOk s = true
  ↔ (3 ≤ length s ≤ 30)%nat
    ∧ Forall (λ c, (97 ≤ c ≤ 122 ∨ 65 ≤ c ≤ 90 ∨ 48 ≤ c ≤ 57 ∨ c = 95)%N) s.
Proof.
  rewrite userIdFormatOk_parts. apply and_iff_compat_l.
  apply Forall_proper; [|done]. intros c. unfold wordChar.
  rewrite !orb_true_iff, !andb_true_iff, !N.leb_le, N.eqb_eq. tauto.
Qed.

(** No string passes both the user id format check and the email check,
    so the login can tell a user id from an email address. *)
Theorem user_id_is_never_an_email s :
  userIdFormatOk s = true → isValidEmail s = false.
Proof.
  intros [_ Hs]%userIdFormatOk_parts. apply not_true_iff_false.
  intros (l & d & t & -> & _)%isValidEmail_parts.
  apply Forall_app in Hs as [_ Hs]. by apply Forall_cons in Hs as [? _].
Qed.

Lemma user_id_is_never_an_email_witness :
  userIdFormatOk (lit "user_01") = true
  ∧ isValidEmail (lit "user_01") = false.
Proof.
  split; [by vm_compute|].
  apply (user_id_is_never_an_email (lit "user_01")). by vm_compute.
Defined.
